(** * Gender.ipynb: the face-image gender-classification notebook

    A shallow embedding of the first code cell of
    [assets/21_kernelsvm/plt/Gender.ipynb] (Python 2, numpy, scikit-learn):
    the dataset enumerator [build_list_fn], the loader [rgb2gray] /
    [vectorize_img], the random projection in [build_data_matrix], the
    feature statistics [feature_extraction] and the accuracy report.

    numpy arrays are modelled as row lists with a recorded column count,
    exceptions as an error result, and numpy's float64 as Rocq's primitive
    binary64 floats.  The numeric functions are written once over a
    [Scalar] interface: the structural theorems hold for any arithmetic,
    the numeric ones are proved on float64.  What the notebook calls in
    numpy's generator, scipy's image reader and scikit-learn's estimator
    is taken as a parameter. *)

From Stdlib Require Import ZArith QArith Lia Bool.
From Stdlib Require Import Strings.String Strings.Ascii Numbers.DecimalString.
From Stdlib Require Import Floats.
From Stdlib Require DecimalPos DecimalZ.
From stdpp Require Import base list.

Local Open Scope Z_scope.
#[local] Set Warnings "-inexact-float".

(** ** Exceptions *)

(** The Python exceptions that the modelled code can raise. *)
Inductive exn : Set :=
  | IOError      (* imread: the file is missing or is not an image *)
  | IndexError   (* an index outside an array's dimension *)
  | ValueError.  (* shapes that cannot be reshaped or broadcast together *)

Inductive result (A : Type) : Type :=
  | Ok (a : A)
  | Raise (e : exn).
Arguments Ok {A} a.
Arguments Raise {A} e.

Definition rbind {A B} (m : result A) (k : A -> result B) : result B :=
  match m with
  | Ok a => k a
  | Raise e => Raise e
  end.

Declare Scope result_scope.
Delimit Scope result_scope with result.
Notation "'do' x <- m ; k" := (rbind m (fun x => k))
  (at level 10, x pattern, m at level 100, k at level 200) : result_scope.
Local Open Scope result_scope.

(** Sequencing a fallible function over a list, left to right; the first
    exception aborts the whole batch. *)
Fixpoint rmapM {A B} (f : A -> result B) (l : list A) : result (list B) :=
  match l with
  | [] => Ok []
  | a :: l' => do b <- f a; do bs <- rmapM f l'; Ok (b :: bs)
  end.

(** ** Python strings *)

Module PyStr.

Local Open Scope string_scope.

(** [str(n)] of an integer: decimal digits, with a leading '-' when
    negative. *)
Definition str (n : Z) : string := NilZero.string_of_int (Z.to_int n).

Fixpoint zeros (k : nat) : string :=
  match k with
  | O => EmptyString
  | S k' => String "0" (zeros k')
  end.

Definition is_sign (c : ascii) : bool :=
  (Ascii.eqb c "+" || Ascii.eqb c "-")%bool.

(** [s.zfill(width)]: pad on the left with '0' up to [width] characters;
    a leading sign stays in front of the padding; a string that is
    already [width] long or longer is returned as it is. *)
Definition zfill (width : nat) (s : string) : string :=
  let len := String.length s in
  if (width <=? len)%nat then s
  else
    let fill := (width - len)%nat in
    match s with
    | String c rest =>
        if is_sign c then String c (zeros fill ++ rest)
        else zeros fill ++ s
    | EmptyString => zeros fill
    end.

End PyStr.

(** ** Dataset enumerator *)

Section Enumerator.

Local Open Scope string_scope.

(** The notebook's global [path] (the database directory). *)
Variable path : string.

(** One file name of the AR database:
    [path + pre + str(im_id).zfill(3) + '-' + str(v_id).zfill(2) + '.bmp']. *)
Definition file_name (pre : string) (im_id v_id : Z) : string :=
  path ++ pre ++ PyStr.zfill 3 (PyStr.str im_id) ++ "-"
       ++ PyStr.zfill 2 (PyStr.str v_id) ++ ".bmp".

(** The inner loop [for v_id in view_ids: ... list_fn.append(fn)]. *)
Fixpoint build_list_fn_views (pre : string) (im_id : Z) (view_ids : list Z)
    (list_fn : list string) : list string :=
  match view_ids with
  | [] => list_fn
  | v_id :: vs =>
      build_list_fn_views pre im_id vs (list_fn ++ [file_name pre im_id v_id])
  end.

(** The outer loop [for im_id in img_ids: ...]. *)
Fixpoint build_list_fn_imgs (pre : string) (img_ids view_ids : list Z)
    (list_fn : list string) : list string :=
  match img_ids with
  | [] => list_fn
  | im_id :: ims =>
      build_list_fn_imgs pre ims view_ids
        (build_list_fn_views pre im_id view_ids list_fn)
  end.

Definition build_list_fn (pre : string) (img_ids view_ids : list Z)
    : list string :=
  build_list_fn_imgs pre img_ids view_ids [].

End Enumerator.

(** The notebook's literal constants. *)
Module Notebook.
Local Open Scope string_scope.
Definition path : string := "../../data/AR/".
(** [np.arange(a, b)]: the integers [a, a+1, ..., b-1]. *)
Definition arange (a b : Z) : list Z :=
  map (fun k => a + Z.of_nat k) (seq 0 (Z.to_nat (b - a))).
Definition train_ids : list Z := arange 1 26.
Definition test_ids : list Z := arange 26 50.
Definition view_ids : list Z := arange 1 8 ++ arange 14 21.
Definition D : nat := 165 * 120.
Definition d : nat := 1000.
End Notebook.

(** ** Scalars *)

(** The arithmetic that the numeric code needs from its element type.
    numpy computes in float64 ([float_scalar] below); nothing in the
    structural theorems depends on which arithmetic is chosen. *)
Class Scalar (A : Type) : Type := {
  s_zero : A;
  s_one : A;
  s_add : A -> A -> A;
  s_sub : A -> A -> A;
  s_mul : A -> A -> A;
  s_div : A -> A -> A;
  (** conversion of an integer (a uint8 pixel, a row count) *)
  s_of_Z : Z -> A;
  (** a decimal literal such as [.299], given as a fraction *)
  s_lit : Q -> A;
  (** the comparison [==] *)
  s_eqb : A -> A -> bool;
  (** the rendering ["%.2f" % x] *)
  s_fmt2 : A -> string
}.

Module F64.

Local Open Scope float_scope.

(** An integer as a float64, for an int64 (below 2^63 in absolute value):
    exact below 2^53, rounded to the nearest float above. *)
Definition of_Z (z : Z) : float :=
  match z with
  | Z0 => 0
  | Zpos _ => PrimFloat.of_uint63 (Uint63.of_Z z)
  | Zneg p => - PrimFloat.of_uint63 (Uint63.of_Z (Zpos p))
  end.

(** The float64 nearest to the fraction [n/d] (for [n], [d] below 2^53):
    what Python reads a decimal literal as. *)
Definition lit (q : Q) : float := of_Z (Qnum q) / of_Z (Zpos (Qden q)).

(** [num/den] rounded to the nearest integer, ties to even, for
    [0 <= num] and [0 < den]. *)
Definition round_half_even (num den : Z) : Z :=
  let q := (num / den)%Z in
  let r := (num mod den)%Z in
  match (2 * r ?= den)%Z with
  | Lt => q
  | Gt => (q + 1)%Z
  | Eq => if Z.even q then q else (q + 1)%Z
  end.

(** The hundredths in [m * 2^e], rounded to the nearest, ties to even. *)
Definition hundredths (m : positive) (e : Z) : Z :=
  match e with
  | Zneg k => round_half_even (Zpos m * 100) (2 ^ Zpos k)
  | _ => (Zpos m * 100 * 2 ^ e)%Z
  end.

(** A count of hundredths as a numeral with two decimals. *)
Definition decimal2 (n : Z) : string :=
  (PyStr.str (n / 100) ++ "." ++ PyStr.zfill 2 (PyStr.str (n mod 100)))%string.

(** ["%.2f" % x]: the exact binary value of [x], correctly rounded to
    two decimals; [nan] and the infinities by name. *)
Definition fmt2 (x : float) : string :=
  match Prim2SF x with
  | S754_nan => "nan"
  | S754_infinity s => if s then "-inf" else "inf"
  | S754_zero s => if s then "-0.00" else "0.00"
  | S754_finite s m e =>
      ((if s then "-" else "") ++ decimal2 (hundredths m e))%string
  end.

End F64.

#[export] Instance float_scalar : Scalar float := {
  s_zero := 0%float;
  s_one := 1%float;
  s_add := PrimFloat.add;
  s_sub := PrimFloat.sub;
  s_mul := PrimFloat.mul;
  s_div := PrimFloat.div;
  s_of_Z := F64.of_Z;
  s_lit := F64.lit;
  s_eqb := PrimFloat.eqb;
  s_fmt2 := F64.fmt2
}.

(** ** numpy arrays *)

(** A 2-D array of shape [(length rows, ncols)], row-major.  The column
    count is recorded, so that an array with no rows still has a shape. *)
Record matrix (A : Type) : Type := Matrix {
  ncols : nat;
  rows : list (list A)
}.
Arguments Matrix {A} ncols rows.
Arguments ncols {A} m.
Arguments rows {A} m.

Definition nrows {A} (X : matrix A) : nat := length (rows X).

(** numpy arrays are rectangular. *)
Definition wf {A} (X : matrix A) : Prop :=
  Forall (fun r => length r = ncols X) (rows X).

(** Entry [X[i, j]]. *)
Definition entry {A} (X : matrix A) (i j : nat) : option A :=
  rows X !! i ≫= fun r => r !! j.

Definition map_matrix {A B} (f : A -> B) (X : matrix A) : matrix B :=
  Matrix (ncols X) (map (map f) (rows X)).

(** Column [X[:, j]]. *)
Definition column {A} (X : matrix A) (j : nat) : list A :=
  omap (fun r => r !! j) (rows X).

Section Numpy.

Context {A : Type} `{Scalar A}.

(** [np.zeros((r, c))] *)
Definition np_zeros (r c : nat) : matrix A :=
  Matrix c (replicate r (replicate c s_zero)).

(** [np.hstack((np.zeros((k,)), np.ones((k,))))] *)
Definition zeros_then_ones (k : nat) : list A :=
  replicate k s_zero ++ replicate k s_one.

(** The sum of a vector, accumulated left to right from its first
    element; 0 for the empty vector.  (The order in which the library
    routines accumulate is theirs to choose; no theorem depends on it.) *)
Definition vsum (l : list A) : A :=
  match l with
  | [] => s_zero
  | x :: l' => foldl s_add x l'
  end.

(** The inner product of a row and a column. *)
Definition inner (u v : list A) : A := vsum (zip_with s_mul u v).

(** A row vector times a matrix: entry [j] is the inner product of the
    row with column [j]. *)
Definition row_times (r : list A) (P : matrix A) : list A :=
  map (fun j => inner r (column P j)) (seq 0 (ncols P)).

(** [np.dot(X, P)] of two 2-D arrays: shape [(n, k)] times [(k, m)]. *)
Definition np_dot (X P : matrix A) : result (matrix A) :=
  if (ncols X =? nrows P)%nat then
    Ok (Matrix (ncols P) (map (fun r => row_times r P) (rows X)))
  else Raise ValueError.

(** [X.mean(axis = 0)]: per column, the sum divided by the row count. *)
Definition mean_axis0 (X : matrix A) : list A :=
  map (fun j => s_div (vsum (column X j)) (s_of_Z (Z.of_nat (nrows X))))
      (seq 0 (ncols X)).

(** [X.var(axis = 0)]: per column, the mean of the squared deviations
    from the column mean (ddof = 0). *)
Definition var_axis0 (X : matrix A) : list A :=
  map (fun j =>
         let m := s_div (vsum (column X j)) (s_of_Z (Z.of_nat (nrows X))) in
         let dev := map (fun x => s_sub x m) (column X j) in
         s_div (vsum (map (fun x => s_mul x x) dev))
               (s_of_Z (Z.of_nat (nrows X))))
      (seq 0 (ncols X)).

(** An elementwise operation between a 2-D array of shape [(n, c)] and
    a 1-D array of shape [(k,)], with numpy's broadcasting: the shapes
    agree when [c = k], or stretch when one of them is 1; otherwise
    [ValueError]. *)
Definition broadcast (op : A -> A -> A) (X : matrix A) (v : list A)
    : result (matrix A) :=
  if (ncols X =? length v)%nat then
    Ok (Matrix (ncols X) (map (fun r => zip_with op r v) (rows X)))
  else
    match v, ncols X with
    | [s], _ => Ok (Matrix (ncols X) (map (map (fun x => op x s)) (rows X)))
    | _, 1%nat =>
        Ok (Matrix (length v)
              (map (fun r => match r with
                             | x :: _ => map (op x) v
                             | [] => []
                             end) (rows X)))
    | _, _ => Raise ValueError
    end.

(** The sum of two 2-D arrays of the same shape. *)
Definition madd (X Y : matrix A) : result (matrix A) :=
  if ((ncols X =? ncols Y) && (nrows X =? nrows Y))%nat then
    Ok (Matrix (ncols X) (zip_with (zip_with s_add) (rows X) (rows Y)))
  else Raise ValueError.

(** [X.reshape(1, D)]: the entries in row-major order as one row. *)
Definition reshape_row (D : nat) (X : matrix A) : result (matrix A) :=
  if (nrows X * ncols X =? D)%nat then Ok (Matrix D [concat (rows X)])
  else Raise ValueError.

(** [X[i, :] = v] for a 2-D array [v]: its shape must be [(1, ncols X)],
    or [(1, 1)], which is stretched over the row. *)
Definition set_row (X : matrix A) (i : nat) (v : matrix A)
    : result (matrix A) :=
  if (nrows X <=? i)%nat then Raise IndexError
  else
    match rows v with
    | [r] =>
        if (ncols v =? ncols X)%nat then
          Ok (Matrix (ncols X) (<[i := r]> (rows X)))
        else
          match r with
          | [x] => Ok (Matrix (ncols X) (<[i := replicate (ncols X) x]> (rows X)))
          | _ => Raise ValueError
          end
    | _ => Raise ValueError
    end.

End Numpy.

(** ** Loader, reducer and feature statistics *)

(** What [misc.imread] decodes a colour file to: a [(H, W, C)] array of
    uint8, here a 2-D array of pixels, each the list of its [C] channel
    values. *)
Definition image : Type := matrix (list Z).

Section Pipeline.

Context {A : Type} `{Scalar A}.

(** Globals of the notebook. *)
Variable path : string.
Variable D : nat.

(** [scipy.misc.imread] on the files of the machine; [Raise IOError]
    where there is no such image file. *)
Variable imread : string -> result image.

(** The slice [rgb[:, :, k]]. *)
Definition channel (rgb : image) (k : nat) : result (matrix Z) :=
  do rs <- rmapM (rmapM (fun px : list Z =>
                           match px !! k with
                           | Some v => Ok v
                           | None => Raise IndexError
                           end)) (rows rgb);
  Ok (Matrix (ncols rgb) rs).

(** A uint8 array times a float. *)
Definition scale (X : matrix Z) (w : A) : matrix A :=
  map_matrix (fun v => s_mul (s_of_Z v) w) X.

(** [rgb[:,:,0]*.299 + rgb[:, :, 1]*.587 + rgb[:, :, 2]*.114] *)
Definition rgb2gray (rgb : image) : result (matrix A) :=
  do r <- channel rgb 0;
  do g <- channel rgb 1;
  do rg <- madd (scale r (s_lit (299 # 1000))) (scale g (s_lit (587 # 1000)));
  do b <- channel rgb 2;
  madd rg (scale b (s_lit (114 # 1000))).

Definition vectorize_img (filename : string) : result (matrix A) :=
  do rgb <- imread filename;
  do gray <- rgb2gray rgb;
  reshape_row D gray.

(** The loop [for i in range(len(list_fn)): X_full[i, :] =
    vectorize_img(list_fn[i])], over the indices still to visit. *)
Fixpoint fill_rows (list_fn : list string) (range : list nat)
    (X_full : matrix A) : result (matrix A) :=
  match range with
  | [] => Ok X_full
  | i :: range' =>
      do fn <- match list_fn !! i with
               | Some fn => Ok fn
               | None => Raise IndexError
               end;
      do im_vec <- vectorize_img fn;
      do X_full' <- set_row X_full i im_vec;
      fill_rows list_fn range' X_full'
  end.

(** The global [ProjectionMatrix], read by [build_data_matrix]. *)
Variable ProjectionMatrix : matrix A.

(** [total_imgs/2] divides two Python 2 ints: the floor division. *)
Definition build_data_matrix (img_ids view_ids : list Z)
    : result (matrix A * list A) :=
  let total_imgs := (length img_ids * length view_ids * 2)%nat in
  let X_full := np_zeros total_imgs D in
  let y := zeros_then_ones (total_imgs / 2)%nat in
  let list_fn_m := build_list_fn path "M-" img_ids view_ids in
  let list_fn_w := build_list_fn path "W-" img_ids view_ids in
  let list_fn := list_fn_m ++ list_fn_w in
  do X_full <- fill_rows list_fn (seq 0 (length list_fn)) X_full;
  do X <- np_dot X_full ProjectionMatrix;
  Ok (X, y).

(** The globals [x_mean] and [x_var], read by [feature_extraction]. *)
Variable x_mean x_var : list A.

(** [(X - x_mean)/x_var] *)
Definition feature_extraction (X : matrix A) : result (matrix A) :=
  do centred <- broadcast s_sub X x_mean;
  broadcast s_div centred x_var.

End Pipeline.

(** ** Classifier harness *)

Section Harness.

Context {A : Type} `{Scalar A}.

(** [sklearn.metrics.accuracy_score(y_true, y_pred)]: the fraction of
    positions where the two label vectors agree, as a float; vectors of
    different lengths are refused.  This is the function on vectors of
    class labels (integer-valued), not empty, which is what the cells
    give it: scikit-learn refuses targets that it takes for continuous,
    and what it does without any sample depends on its version.  The
    theorems about the score keep to class labels. *)
Definition correct (y_true y_pred : list A) : nat :=
  length (filter (fun p => s_eqb (fst p) (snd p) = true) (zip y_true y_pred)).

Definition accuracy_score (y_true y_pred : list A) : result A :=
  if (length y_true =? length y_pred)%nat then
    Ok (s_div (s_of_Z (Z.of_nat (correct y_true y_pred)))
              (s_of_Z (Z.of_nat (length y_true))))
  else Raise ValueError.

(** The value [100*accuracy_score(y_test, y_pred)]. *)
Definition accuracy_percent (y_test y_pred : list A) : result A :=
  do acc <- accuracy_score y_test y_pred;
  Ok (s_mul (s_of_Z 100) acc).

(** The line written by
    [print("Accuracy: %.2f %%" %(100*accuracy_score(y_test, y_pred)))]. *)
Definition accuracy_line (y_test y_pred : list A) : result string :=
  do pct <- accuracy_percent y_test y_pred;
  Ok ("Accuracy: " ++ s_fmt2 pct ++ " %")%string.

(** A scikit-learn estimator: [fit] returns the fitted model or raises,
    [predict] returns one label per row or raises. *)
Record estimator : Type := Estimator {
  fitted : Type;
  fit : matrix A -> list A -> result fitted;
  predict : fitted -> matrix A -> result (list A)
}.

(** numpy's global random generator. *)
Variable rng_state : Type.
(** [np.random.seed(n)]: the state that the seed determines. *)
Variable np_random_seed : Z -> rng_state.
(** [np.random.randn(r, c)]: an array drawn from the state, and the
    state after the draw. *)
Variable np_random_randn : nat -> nat -> rng_state -> matrix A * rng_state.

Variable LogisticRegression : A -> estimator.
Variable imread : string -> result image.
(** [str] of an integer array, as [print(train_ids)] writes it. *)
Variable array_str : list Z -> string.

(** The literal constants of the cell. *)
Variable path : string.
Variable train_ids test_ids view_ids : list Z.
Variable D d : nat.

(** [np.random.seed(1)] and then [ProjectionMatrix = np.random.randn(D, d)];
    [rng0] is the generator's state when the cell starts. *)
Definition generate_projection (rng0 : rng_state) : matrix A * rng_state :=
  let rng := rng0 in
  let rng := np_random_seed 1 in
  np_random_randn D d rng.

(** The globals that hold data once the two matrices are built
    ([X_train_full] and [X_test_full] are set to [None] by then). *)
Record dataset : Type := Dataset {
  g_ProjectionMatrix : matrix A;
  g_y_train : list A;
  g_x_mean : list A;
  g_x_var : list A;
  g_X_train : matrix A;
  g_y_test : list A;
  g_X_test : matrix A
}.

(** The cell from [np.random.seed(1)] to [X_test_full = None]. *)
Definition cell_data (rng0 : rng_state) : result dataset :=
  let (ProjectionMatrix, _) := generate_projection rng0 in
  do (X_train_full, y_train) <-
     build_data_matrix path D imread ProjectionMatrix train_ids view_ids;
  let x_mean := mean_axis0 X_train_full in
  let x_var := var_axis0 X_train_full in
  do X_train <- feature_extraction x_mean x_var X_train_full;
  do (X_test_full, y_test) <-
     build_data_matrix path D imread ProjectionMatrix test_ids view_ids;
  do X_test <- feature_extraction x_mean x_var X_test_full;
  Ok (Dataset ProjectionMatrix y_train x_mean x_var X_train y_test X_test).

(** The rest of the cell: fit, predict, report.  Returns the
    predictions and the lines printed. *)
Definition cell_classify (g : dataset) : result (list A * list string) :=
  let logreg := LogisticRegression (s_lit (100000 # 1)) in
  do model <- fit logreg (g_X_train g) (g_y_train g);
  do y_pred <- predict logreg model (g_X_test g);
  do line <- accuracy_line (g_y_test g) y_pred;
  Ok (y_pred, [array_str train_ids; line]).

(** The first code cell. *)
Definition cell (rng0 : rng_state) : result (list A * list string) :=
  do g <- cell_data rng0;
  cell_classify g.

End Harness.

(** ** Vocabulary of the statements *)

Section Vocabulary.

Context {A : Type} `{Scalar A}.

(** The weighted sum of the three channels of one pixel, in the order
    in which [rgb2gray] adds them up. *)
Definition weighted_sum (R G B : Z) : A :=
  s_add (s_add (s_mul (s_of_Z R) (s_lit (299 # 1000)))
               (s_mul (s_of_Z G) (s_lit (587 # 1000))))
        (s_mul (s_of_Z B) (s_lit (114 # 1000))).

Definition channel_value (k : nat) (px : list Z) : Z := default 0 (px !! k).

Definition pixel_gray (px : list Z) : A :=
  weighted_sum (channel_value 0 px) (channel_value 1 px) (channel_value 2 px).

(** Every pixel of the array has [c] channels. *)
Definition channels (c : nat) (rgb : image) : Prop :=
  Forall (Forall (fun px : list Z => length px = c)) (rows rgb).

End Vocabulary.

(** Decimal digits. *)
Definition is_digit (c : ascii) : bool :=
  let n := nat_of_ascii c in ((48 <=? n) && (n <=? 57))%nat.

Fixpoint all_digits (s : string) : bool :=
  match s with
  | EmptyString => true
  | String c s' => is_digit c && all_digits s'
  end.

Definition two_digits (s : string) : bool :=
  match s with
  | String a (String b EmptyString) => is_digit a && is_digit b
  | _ => false
  end.

Definition three_digits (s : string) : bool :=
  match s with
  | String a s' => is_digit a && two_digits s'
  | _ => false
  end.

(** The exponent of the last place of a binary64 number, by magnitude. *)
Abbreviation fexp64 := (SpecFloat.fexp prec emax).

(** The mantissa [m] at the exponent [e] is a value between 0 and the
    float of mantissa [mB] and exponent [eB], whose exponent is not
    smaller. *)
Definition below (m : Z) (e : Z) (mB : positive) (eB : Z) : Prop :=
  e <= eB /\ 0 <= m <= Zpos mB * 2 ^ (eB - e).

(** The mantissa that a positive integer of more than 53 bits rounds to,
    before renormalisation: the leading 53 bits, plus one when the rest is
    above the half, or at the half with an odd mantissa. *)
Definition rounded_mantissa (n p : Z) : Z :=
  let m1 := n / 2 ^ p in
  let rem := n mod 2 ^ p in
  match 2 * rem ?= 2 ^ p with
  | Gt => m1 + 1
  | Eq => if Z.odd m1 then m1 + 1 else m1
  | Lt => m1
  end.

(** A float that is +0 or positive and at most the float [(mB, eB)]. *)
Definition SF_between_0_and (mB : positive) (eB : Z) (x : spec_float) : Prop :=
  match x with
  | S754_zero false => True
  | S754_finite false m e => e < eB \/ (e = eB /\ Zpos m <= Zpos mB)
  | _ => False
  end.

(** ** A small instance of the cell *)

(** Two training files and two test files of two pixels each, a
    stand-in generator and a constant classifier: enough to run the
    cell.  The generator is not numpy's; it only has its interface. *)
Module Small.

Local Open Scope string_scope.

Definition path : string := "p/".
Definition D : nat := 2.
Definition d : nat := 2.
Definition train_ids : list Z := [1].
Definition test_ids : list Z := [2].
Definition view_ids : list Z := [1].

Definition imread (fn : string) : result image :=
  if String.eqb fn "p/M-001-01.bmp" then
    Ok (Matrix 2 [[ [10; 20; 30]; [40; 50; 60] ]])
  else if String.eqb fn "p/W-001-01.bmp" then
    Ok (Matrix 2 [[ [200; 100; 0]; [7; 8; 9] ]])
  else if String.eqb fn "p/M-002-01.bmp" then
    Ok (Matrix 2 [[ [1; 2; 3]; [4; 5; 6] ]])
  else if String.eqb fn "p/W-002-01.bmp" then
    Ok (Matrix 2 [[ [255; 255; 255]; [0; 0; 0] ]])
  else Raise IOError.

Definition rng_state : Type := Z.
Definition np_random_seed (n : Z) : rng_state := n.
Definition np_random_randn (r c : nat) (s : rng_state)
    : matrix float * rng_state :=
  (Matrix c (map (fun i => map (fun j => F64.of_Z (Z.of_nat j * (s + Z.of_nat i)))
                               (seq 0 c)) (seq 0 r)),
   s + Z.of_nat (r * c)).

Definition LogisticRegression (C : float) : estimator (A:=float) :=
  Estimator unit (fun _ _ => Ok tt) (fun _ X => Ok (map (fun _ => 0%float) (rows X))).

Definition array_str (ids : list Z) : string :=
  "[" ++ String.concat " " (map PyStr.str ids) ++ "]".

Definition ProjectionMatrix : matrix float :=
  fst (generate_projection rng_state np_random_seed np_random_randn D d 0).

Definition data : result dataset :=
  cell_data rng_state np_random_seed np_random_randn imread path
            train_ids test_ids view_ids D d 0.

Definition run : result (list float * list string) :=
  cell rng_state np_random_seed np_random_randn LogisticRegression imread
       array_str path train_ids test_ids view_ids D d 0.

End Small.

(** ** The cells on stored features *)

(** [X.T] of a 2-D array. *)
Definition transpose {A} (X : matrix A) : matrix A :=
  Matrix (nrows X) (map (column X) (seq 0 (ncols X))).

(** [X.reshape(N)]: the entries in row-major order as a vector of [N]. *)
Definition reshape_vec {A} (N : nat) (X : matrix A) : result (list A) :=
  if (nrows X * ncols X =? N)%nat then Ok (concat (rows X))
  else Raise ValueError.

(** What the cells after the first one can raise: the library
    exceptions, and Python's [KeyError] for a dict without the key. *)
Inductive cell_exn : Type :=
  | KeyError (key : string)
  | Library (e : exn).

Inductive outcome (B : Type) : Type :=
  | Returns (b : B)
  | Raises (e : cell_exn).
Arguments Returns {B} b.
Arguments Raises {B} e.

Definition obind {B C} (m : outcome B) (k : B -> outcome C) : outcome C :=
  match m with
  | Returns b => k b
  | Raises e => Raises e
  end.

Definition lift {B} (r : result B) : outcome B :=
  match r with
  | Ok b => Returns b
  | Raise e => Raises (Library e)
  end.

Declare Scope outcome_scope.
Delimit Scope outcome_scope with outcome.
Notation "'do' x <- m ; k" := (obind m (fun x => k))
  (at level 10, x pattern, m at level 100, k at level 200) : outcome_scope.

(** A Python dict with string keys, read by key only. *)
Definition dict (V : Type) : Type := list (string * V).

Fixpoint dict_lookup {V} (A : dict V) (key : string) : option V :=
  match A with
  | [] => None
  | (k, v) :: A' => if String.eqb k key then Some v else dict_lookup A' key
  end.

(** [A[key]] *)
Definition getitem {V} (A : dict V) (key : string) : outcome V :=
  match dict_lookup A key with
  | Some v => Returns v
  | None => Raises (KeyError key)
  end.

(** A keyword argument of a constructor call. *)
Inductive kwarg : Type :=
  | KStr (s : string)
  | KNum (q : Q).

Section Cells.

Context {A : Type} `{Scalar A}.

(** The globals that a classifier cell reads. *)
Record split : Type := Split {
  X_train : matrix A;
  y_train : list A;
  X_test : matrix A;
  y_test : list A
}.

(** The globals of those names when the first cell is done. *)
Definition split_of (g : dataset) : split :=
  Split (g_X_train g) (g_y_train g) (g_X_test g) (g_y_test g).

(** [clf.fit(X_train, y_train); y_pred = clf.predict(X_test);
    print("Accuracy: %.2f %%" %(100*accuracy_score(y_test, y_pred)))]:
    the predictions and the line printed. *)
Definition fit_predict_report (clf : estimator) (s : split)
    : result (list A * string) :=
  do model <- fit clf (X_train s) (y_train s);
  do y_pred <- predict clf model (X_test s);
  do line <- accuracy_line (y_test s) y_pred;
  Ok (y_pred, line).

(** [svm.SVC] with its keyword arguments, and
    [linear_model.LogisticRegression(C = c)]. *)
Variable SVC : list (string * kwarg) -> estimator (A:=A).
Variable LogisticRegression : A -> estimator (A:=A).

(** [scipy.io.loadmat]: the arrays of a .mat file by name ([Raise
    IOError] where there is no such file).  The entries [__header__],
    [__version__] and [__globals__] of the dict are left out; no cell
    reads them by key. *)
Variable loadmat : string -> result (dict (matrix A)).

(** The second cell: a polynomial-kernel SVM on the features of the
    first cell. *)
Definition cell_svm (s : split) : result (list A * string) :=
  let clf := SVC [("kernel", KStr "poly"); ("gamma", KNum (5 # 1));
                  ("coef0", KNum (1 # 1)); ("degree", KNum (2 # 1))]%string in
  fit_predict_report clf s.

(** The fifth cell: the features stored in [myARgender.mat], one sample
    per column, and an SVM on them.  Returns the four globals it
    assigns, the predictions and the line printed. *)
Definition cell_mat : outcome (split * list A * string) :=
  (do A <- lift (loadmat "myARgender.mat");
   do Y_train <- getitem A "Y_train";
   let X_train := transpose Y_train in
   do Y_test <- getitem A "Y_test";
   let X_test := transpose Y_test in
   let N := 700%nat in
   do label_train <- getitem A "label_train";
   do y_train <- lift (reshape_vec N label_train);
   do label_test <- getitem A "label_test";
   do y_test <- lift (reshape_vec N label_test);
   let clf := SVC [("kernel", KStr "poly"); ("degree", KNum (3 # 1));
                   ("gamma", KNum (1 # 1)); ("C", KNum (100 # 1))]%string in
   let s := Split X_train y_train X_test y_test in
   do out <- lift (fit_predict_report clf s);
   Returns (s, fst out, snd out))%outcome.

(** The sixth cell: logistic regression on the globals as they are. *)
Definition cell_logreg (s : split) : result (list A * string) :=
  let logreg := LogisticRegression (s_lit (100000 # 1)) in
  fit_predict_report logreg s.

End Cells.

(** ** Further vocabulary *)

(** Python's [int(s)] on a decimal numeral with an optional '-': the
    reader of an id field. *)
Definition int_of_str (s : string) : option Z :=
  option_map Z.of_int (NilZero.int_of_string s).

(** A class label: a float64 that is an integer.  ([accuracy_score]
    takes a target with any other value for continuous and refuses it.) *)
Definition class_label (x : float) : bool :=
  match Prim2SF x with
  | S754_zero _ => true
  | S754_finite _ m e => (0 <=? e) || (Zpos m mod 2 ^ (- e) =? 0)
  | _ => false
  end.

(** The values of an 8-bit channel. *)
Definition uint8 (v : Z) : Prop := 0 <= v <= 255.

(** The products of the 256 values of an 8-bit channel with one weight. *)
Definition channel_products (w : float) : list float :=
  map (fun v => (F64.of_Z (Z.of_nat v) * w)%float) (seq 0 256).

(** Every sum of three products, one from each list and added up in the
    order of [rgb2gray], lies in [[0, 255]]. *)
Definition sums_in_range (tr tg tb : list float) : bool :=
  forallb (fun r =>
    forallb (fun g =>
      forallb (fun b => PrimFloat.leb 0 (r + g + b)
                        && PrimFloat.leb (r + g + b) 255)
              tb) tg) tr.

(** What a classifier cell reports on [n] test labels: one prediction
    per label; "nan" when there is no label; otherwise (below 2^63
    labels) a float64 value in [[0, 100]], written with exactly two
    decimals. *)
Definition report_on (n : nat) (y_pred : list float) (line : string) : Prop :=
  length y_pred = n
  /\ (n = 0%nat -> line = "Accuracy: nan %"%string)
  /\ ((0 < n)%nat -> Z.of_nat n < 2 ^ 63 ->
      exists (pct : float) (whole frac : string),
        PrimFloat.leb 0 pct = true /\ PrimFloat.leb pct 100 = true
        /\ F64.fmt2 pct = (whole ++ "." ++ frac)%string
        /\ line = ("Accuracy: " ++ F64.fmt2 pct ++ " %")%string
        /\ all_digits whole = true /\ whole <> EmptyString
        /\ all_digits frac = true /\ String.length frac = 2%nat).

(** ** The matrix product *)

Section MatrixProduct.

Context {A : Type} `{Scalar A}.

(** The term [X[i, k] * P[k, j]] of entry [(i, j)] of [X @ P]. *)
Definition product_term (X P : matrix A) (i j k : nat) : A :=
  s_mul (default s_zero (entry X i k)) (default s_zero (entry P k j)).

(** The sum of [f 0], ..., [f (n - 1)], by recursion on [n]. *)
Fixpoint sum_upto (f : nat -> A) (n : nat) : A :=
  match n with
  | O => s_zero
  | S n' => s_add (sum_upto f n') (f n')
  end.

(** The matrix product as the spec words it, written from those words
    and not from the code: entry [(i, j)] of [X @ P] is the sum over
    [k] of [X[i, k] * P[k, j]]. *)
Definition matrix_product_entry (X P : matrix A) (i j : nat) : A :=
  sum_upto (product_term X P i j) (ncols X).

(** [s] is a sum of the elements of [l], each taken once, with the
    additions made in some order and some grouping: what a library
    routine may return as the sum in an arithmetic where the order of
    the additions shows in the result. *)
Inductive sum_of : list A -> A -> Prop :=
  | sum_of_nil : sum_of [] s_zero
  | sum_of_one (x : A) : sum_of [x] x
  | sum_of_app (l1 l2 : list A) (a b : A) :
      sum_of l1 a -> sum_of l2 b -> sum_of (l1 ++ l2) (s_add a b)
  | sum_of_perm (l l' : list A) (a : A) :
      l ≡ₚ l' -> sum_of l a -> sum_of l' a.

End MatrixProduct.

(** The rationals: the exact arithmetic that float64 rounds.  Only the
    comparison of a computation with its exact value uses it. *)
Module Exact.

(** ["%.2f" % q] for a rational that is not negative. *)
Definition fmt2 (q : Q) : string :=
  F64.decimal2 (F64.round_half_even (Qnum q * 100) (Zpos (Qden q))).

Definition Q_scalar : Scalar Q := {|
  s_zero := 0%Q;
  s_one := 1%Q;
  s_add := Qplus;
  s_sub := Qminus;
  s_mul := Qmult;
  s_div := Qdiv;
  s_of_Z := inject_Z;
  s_lit := fun q => q;
  s_eqb := Qeq_bool;
  s_fmt2 := fmt2
|}.

End Exact.

(** ** An estimator that validates its input *)

(** scikit-learn's estimators check the arrays they are given: [fit] and
    [predict] raise [ValueError] on an array that holds a nan or an
    infinity.  This one does that check and nothing else: it answers
    class 0 for every row. *)
Module Strict.

Definition all_finite (X : matrix float) : bool :=
  forallb (forallb PrimFloat.is_finite) (rows X).

Definition LogisticRegression (C : float) : estimator (A:=float) :=
  Estimator unit
    (fun X _ => if all_finite X then Ok tt else Raise ValueError)
    (fun _ X => if all_finite X
                then Ok (map (fun _ => 0%float) (rows X))
                else Raise ValueError).

End Strict.

(** ** A small .mat file *)

(** One feature for each of 700 samples, the labels half 0 and half 1,
    and a classifier that answers 1: enough to run the fifth cell. *)
Module Stored.

Local Open Scope string_scope.

Definition features : matrix float :=
  Matrix 700 [map (fun i => F64.of_Z (Z.of_nat i)) (seq 0 700)].

Definition labels : matrix float :=
  Matrix 700 [(replicate 350 0%float ++ replicate 350 1%float)%list].

Definition loadmat (fn : string) : result (dict (matrix float)) :=
  if String.eqb fn "myARgender.mat" then
    Ok [("Y_train", features); ("Y_test", features);
        ("label_train", labels); ("label_test", labels)]
  else Raise IOError.

Definition SVC (kwargs : list (string * kwarg)) : estimator (A:=float) :=
  Estimator unit (fun _ _ => Ok tt)
            (fun _ X => Ok (map (fun _ => 1%float) (rows X))).

(** A file system like that of [Small], with other test pictures. *)
Definition imread (fn : string) : result image :=
  if String.eqb fn "p/M-002-01.bmp" then
    Ok (Matrix 2 [[ [9; 9; 9]; [0; 0; 0] ]])
  else if String.eqb fn "p/W-002-01.bmp" then
    Ok (Matrix 2 [[ [50; 60; 70]; [80; 90; 100] ]])
  else Small.imread fn.

End Stored.

(** * Properties *)

(** ** The notebook's constants and the small instance *)

Example notebook_train_ids :
  Notebook.train_ids
  = [1; 2; 3; 4; 5; 6; 7; 8; 9; 10; 11; 12; 13; 14; 15; 16; 17; 18; 19; 20;
     21; 22; 23; 24; 25].
Proof. reflexivity. Qed.

Example notebook_view_ids :
  Notebook.view_ids = [1; 2; 3; 4; 5; 6; 7; 14; 15; 16; 17; 18; 19; 20].
Proof. reflexivity. Qed.

Example notebook_first_and_last_name :
  head (build_list_fn Notebook.path "M-" Notebook.train_ids Notebook.view_ids)
  = Some "../../data/AR/M-001-01.bmp"%string
  /\ last (build_list_fn Notebook.path "W-" Notebook.test_ids Notebook.view_ids)
     = Some "../../data/AR/W-049-20.bmp"%string.
Proof. split; reflexivity. Qed.

Example literal_weights :
  s_lit (299 # 1000) = 0.299%float
  /\ s_lit (587 # 1000) = 0.587%float
  /\ s_lit (114 # 1000) = 0.114%float.
Proof. repeat split. Qed.

Example fmt2_examples :
  F64.fmt2 90.476190476190482%float = "90.48"%string
  /\ F64.fmt2 0.125%float = "0.12"%string
  /\ F64.fmt2 100%float = "100.00"%string.
Proof. repeat split. Qed.

Example class_label_examples :
  map class_label [0; 1; -1; 700; 0.5; 1.5; nan; infinity]%float
  = [true; true; true; true; false; false; false; false].
Proof. reflexivity. Qed.

Example small_run :
  Small.run = Ok ([0%float; 0%float], ["[1]"; "Accuracy: 50.00 %"]%string).
Proof. vm_compute. reflexivity. Qed.

(** ** The error monad *)

Lemma Ok_inj {A} (a b : A) : Ok a = Ok b -> a = b.
Proof.
  intros E.
  exact (f_equal (fun r => match r with Ok x => x | Raise _ => a end) E).
Qed.

Lemma rbind_Ok {A B} (m : result A) (k : A -> result B) (b : B) :
  rbind m k = Ok b <-> exists a, m = Ok a /\ k a = Ok b.
Proof.
  destruct m as [a|e]; simpl; split.
  - intros Hk. exists a. auto.
  - intros (a' & Ha & Hk). congruence.
  - discriminate.
  - intros (a' & Ha & _). discriminate.
Qed.

Lemma rmapM_Ok_Forall2 {A B} (f : A -> result B) (l : list A) (bs : list B) :
  rmapM f l = Ok bs <-> Forall2 (fun a b => f a = Ok b) l bs.
Proof.
  revert bs. induction l as [|a l IH]; intros bs; simpl.
  - split.
    + intros [= <-]. constructor.
    + intros Hf. inversion Hf. reflexivity.
  - rewrite rbind_Ok. split.
    + intros (b & Hb & Hk). apply rbind_Ok in Hk as (bs' & Hbs & [= <-]).
      constructor; [assumption | now apply IH].
    + intros Hf. inversion Hf as [|? b ? bs' Hb Hbs]; subst.
      exists b. split; [assumption|].
      apply rbind_Ok. exists bs'. split; [now apply IH | reflexivity].
Qed.

Lemma rmapM_total {A B} (f : A -> result B) (g : A -> B) (l : list A) :
  Forall (fun a => f a = Ok (g a)) l -> rmapM f l = Ok (map g l).
Proof.
  induction 1 as [|a l Ha _ IH]; simpl; [reflexivity|].
  rewrite Ha. simpl. rewrite IH. reflexivity.
Qed.

(** ** Dataset enumerator *)

Section EnumeratorFacts.

Variable path : string.

Lemma build_list_fn_views_app pre im_id view_ids acc :
  build_list_fn_views path pre im_id view_ids acc
  = acc ++ map (file_name path pre im_id) view_ids.
Proof.
  revert acc. induction view_ids as [|v vs IH]; intros acc; simpl.
  - now rewrite app_nil_r.
  - rewrite IH, <- app_assoc. reflexivity.
Qed.

Lemma build_list_fn_imgs_app pre img_ids view_ids acc :
  build_list_fn_imgs path pre img_ids view_ids acc
  = acc ++ flat_map (fun im_id => map (file_name path pre im_id) view_ids)
                    img_ids.
Proof.
  revert acc. induction img_ids as [|im ims IH]; intros acc; simpl.
  - now rewrite app_nil_r.
  - rewrite IH, build_list_fn_views_app, <- app_assoc. reflexivity.
Qed.

Lemma build_list_fn_flat_map pre img_ids view_ids :
  build_list_fn path pre img_ids view_ids
  = flat_map (fun im_id => map (file_name path pre im_id) view_ids) img_ids.
Proof. unfold build_list_fn. now rewrite build_list_fn_imgs_app. Qed.

Lemma build_list_fn_length pre img_ids view_ids :
  length (build_list_fn path pre img_ids view_ids)
  = (length img_ids * length view_ids)%nat.
Proof.
  rewrite build_list_fn_flat_map.
  induction img_ids as [|im ims IH]; simpl; [reflexivity|].
  rewrite length_app, length_map, IH. reflexivity.
Qed.

Lemma build_list_fn_lookup pre img_ids view_ids i j im_id v_id :
  img_ids !! i = Some im_id ->
  view_ids !! j = Some v_id ->
  build_list_fn path pre img_ids view_ids !! (i * length view_ids + j)%nat
  = Some (file_name path pre im_id v_id).
Proof.
  rewrite build_list_fn_flat_map.
  revert i. induction img_ids as [|im ims IH]; intros i Hi Hj; [done|].
  simpl. destruct i as [|i]; simpl in *.
  - injection Hi as ->.
    rewrite lookup_app_l by (rewrite length_map; now apply lookup_lt_Some in Hj).
    rewrite list_lookup_fmap, Hj. reflexivity.
  - rewrite lookup_app_r by (rewrite length_map; lia).
    rewrite length_map.
    replace (length view_ids + i * length view_ids + j - length view_ids)%nat
      with (i * length view_ids + j)%nat by lia.
    now apply IH.
Qed.

End EnumeratorFacts.

Lemma str_nonneg_no_sign (n : Z) :
  0 <= n ->
  match PyStr.str n with
  | String c _ => PyStr.is_sign c = false
  | EmptyString => False
  end.
Proof.
  intros Hn. unfold PyStr.str.
  destruct n as [|p|p]; [reflexivity| |lia].
  simpl. destruct (Pos.to_uint p); reflexivity.
Qed.

Lemma zfill_nonneg (w : nat) (n : Z) :
  0 <= n ->
  PyStr.zfill w (PyStr.str n)
  = (PyStr.zeros (w - String.length (PyStr.str n)) ++ PyStr.str n)%string.
Proof.
  intros Hn. apply str_nonneg_no_sign in Hn.
  unfold PyStr.zfill.
  destruct (Nat.leb_spec w (String.length (PyStr.str n))) as [Hle|Hlt].
  - replace (w - String.length (PyStr.str n))%nat with 0%nat by lia. reflexivity.
  - destruct (PyStr.str n) as [|c rest]; [contradiction|].
    now rewrite Hn.
Qed.

Lemma zfill_3_three_digits (n : Z) :
  0 <= n < 1000 -> three_digits (PyStr.zfill 3 (PyStr.str n)) = true.
Proof.
  intros Hn.
  assert (Hall : forallb (fun k => three_digits
                                     (PyStr.zfill 3 (PyStr.str (Z.of_nat k))))
                         (seq 0 1000) = true) by (vm_compute; reflexivity).
  rewrite forallb_forall in Hall.
  specialize (Hall (Z.to_nat n)). rewrite Z2Nat.id in Hall by lia.
  apply Hall. apply in_seq. lia.
Qed.

Lemma zfill_2_two_digits (r : Z) :
  0 <= r < 100 -> two_digits (PyStr.zfill 2 (PyStr.str r)) = true.
Proof.
  intros Hr.
  assert (Hall : forallb (fun k => two_digits
                                     (PyStr.zfill 2 (PyStr.str (Z.of_nat k))))
                         (seq 0 100) = true) by (vm_compute; reflexivity).
  rewrite forallb_forall in Hall.
  specialize (Hall (Z.to_nat r)). rewrite Z2Nat.id in Hall by lia.
  apply Hall. apply in_seq. lia.
Qed.

(** C5. [build_list_fn] rejects nothing and returns, for any prefix and
    any two integer id sequences, [|img_ids| * |view_ids|] file names in
    subject-major order: the name at position [i * |view_ids| + j] is
    [path + pre + str(img_ids[i]).zfill(3) + '-' + str(view_ids[j]).zfill(2)
    + '.bmp'], where [zfill] pads a non-negative id on the left with '0'
    characters up to the width: exactly three digits for a subject id
    below 1000, exactly two for a view id below 100. *)
Theorem build_list_fn_enumerates (path pre : string) (img_ids view_ids : list Z) :
  let list_fn := build_list_fn path pre img_ids view_ids in
  list_fn = flat_map (fun im_id =>
                        map (fun v_id =>
                               (path ++ pre ++ PyStr.zfill 3 (PyStr.str im_id)
                                     ++ "-" ++ PyStr.zfill 2 (PyStr.str v_id)
                                     ++ ".bmp")%string) view_ids) img_ids
  /\ length list_fn = (length img_ids * length view_ids)%nat
  /\ (forall i j im_id v_id,
        img_ids !! i = Some im_id -> view_ids !! j = Some v_id ->
        list_fn !! (i * length view_ids + j)%nat
        = Some (path ++ pre ++ PyStr.zfill 3 (PyStr.str im_id) ++ "-"
                     ++ PyStr.zfill 2 (PyStr.str v_id) ++ ".bmp")%string)
  /\ (forall (w : nat) (n : Z), 0 <= n ->
        PyStr.zfill w (PyStr.str n)
        = (PyStr.zeros (w - String.length (PyStr.str n)) ++ PyStr.str n)%string)
  /\ (forall n : Z, 0 <= n < 1000 ->
        three_digits (PyStr.zfill 3 (PyStr.str n)) = true)
  /\ (forall n : Z, 0 <= n < 100 ->
        two_digits (PyStr.zfill 2 (PyStr.str n)) = true).
Proof.
  cbv zeta. split; [apply build_list_fn_flat_map|].
  split; [apply build_list_fn_length|].
  split; [intros; now apply build_list_fn_lookup|].
  split; [apply zfill_nonneg|].
  split; [apply zfill_3_three_digits | apply zfill_2_two_digits].
Qed.

(** ** Arrays *)

Lemma entry_map_matrix {A B} (f : A -> B) (X : matrix A) (i j : nat) :
  entry (map_matrix f X) i j = f <$> entry X i j.
Proof.
  unfold entry, map_matrix. simpl.
  rewrite list_lookup_fmap. destruct (rows X !! i) as [r|]; simpl; [|reflexivity].
  apply list_lookup_fmap.
Qed.

Lemma wf_map_matrix {A B} (f : A -> B) (X : matrix A) :
  wf X -> wf (map_matrix f X).
Proof.
  unfold wf, map_matrix. simpl. intros Hwf.
  apply Forall_fmap. eapply Forall_impl; [exact Hwf|].
  intros r Hr. simpl. now rewrite length_map.
Qed.

Lemma zip_with_map_same {A B C D} (f : B -> C -> D) (g : A -> B) (h : A -> C)
    (l : list A) :
  zip_with f (map g l) (map h l) = map (fun a => f (g a) (h a)) l.
Proof. induction l as [|a l IH]; simpl; [reflexivity | now rewrite IH]. Qed.

(** The flattened array holds entry [(i, j)] at position [i * ncols + j]. *)
Lemma concat_lookup_entry {A} (X : matrix A) (i j : nat) :
  wf X -> (j < ncols X)%nat ->
  concat (rows X) !! (i * ncols X + j)%nat = entry X i j.
Proof.
  unfold wf, entry. generalize (ncols X) as c. intros c Hwf Hj.
  revert i. induction Hwf as [|r rs Hr _ IH]; intros i; simpl.
  - now rewrite lookup_nil.
  - destruct i as [|i]; simpl.
    + rewrite lookup_app_l by lia. reflexivity.
    + rewrite lookup_app_r by lia.
      replace (c + i * c + j - length r)%nat with (i * c + j)%nat by lia.
      apply IH.
Qed.

Lemma concat_length_wf {A} (X : matrix A) :
  wf X -> length (concat (rows X)) = (nrows X * ncols X)%nat.
Proof.
  unfold wf, nrows. generalize (ncols X) as c. intros c Hwf.
  induction Hwf as [|r rs Hr _ IH]; simpl; [reflexivity|].
  rewrite length_app, IH, Hr. reflexivity.
Qed.

Lemma column_lookup {A} (X : matrix A) (i j : nat) :
  wf X -> (j < ncols X)%nat -> column X j !! i = entry X i j.
Proof.
  intros Hwf Hj. unfold column, entry, wf in *.
  revert i. induction (rows X) as [|r rs IH]; intros i; [now destruct i|].
  apply Forall_cons in Hwf as [Hr Hwf].
  destruct (lookup_lt_is_Some_2 r j ltac:(lia)) as [x Hx].
  cbn [omap list_omap]. rewrite Hx. destruct i as [|i]; cbn.
  - now rewrite Hx.
  - apply IH, Hwf.
Qed.

Lemma column_length {A} (X : matrix A) (j : nat) :
  wf X -> (j < ncols X)%nat -> length (column X j) = nrows X.
Proof.
  intros Hwf Hj. unfold column, nrows, wf in *.
  induction (rows X) as [|r rs IH]; [reflexivity|].
  apply Forall_cons in Hwf as [Hr Hwf].
  destruct (lookup_lt_is_Some_2 r j ltac:(lia)) as [x Hx].
  cbn [omap list_omap]. rewrite Hx. cbn. now rewrite IH.
Qed.

(** ** Loader *)

Section LoaderFacts.

Context {A : Type} `{Scalar A}.

Lemma channel_Ok (rgb : image) (c k : nat) :
  channels c rgb -> (k < c)%nat ->
  channel rgb k = Ok (map_matrix (channel_value k) rgb).
Proof.
  intros Hc Hk. unfold channel, map_matrix.
  erewrite rmapM_total; [reflexivity|].
  eapply Forall_impl; [exact Hc|]. intros r Hr. simpl in Hr.
  apply rmapM_total. eapply Forall_impl; [exact Hr|].
  intros px Hpx. simpl in Hpx. unfold channel_value.
  destruct (lookup_lt_is_Some_2 px k) as [v Hv]; [lia|].
  now rewrite Hv.
Qed.

Lemma madd_map_matrix {B} (f g : B -> A) (X : matrix B) :
  madd (map_matrix f X) (map_matrix g X)
  = Ok (map_matrix (fun x => s_add (f x) (g x)) X).
Proof.
  unfold madd, map_matrix, nrows. simpl.
  rewrite !length_map, !Nat.eqb_refl. simpl. f_equal. f_equal.
  rewrite zip_with_map_same. apply map_ext. intros r.
  apply zip_with_map_same.
Qed.

Lemma scale_map_matrix {B} (f : B -> Z) (X : matrix B) (w : A) :
  scale (map_matrix f X) w = map_matrix (fun x => s_mul (s_of_Z (f x)) w) X.
Proof.
  unfold scale, map_matrix. simpl. f_equal.
  rewrite map_map. apply map_ext. intros r. apply map_map.
Qed.

Lemma rgb2gray_Ok (rgb : image) (c : nat) :
  channels c rgb -> (3 <= c)%nat ->
  rgb2gray rgb = Ok (map_matrix pixel_gray rgb).
Proof.
  intros Hc H3. unfold rgb2gray.
  rewrite (channel_Ok rgb c 0), (channel_Ok rgb c 1), (channel_Ok rgb c 2)
    by (assumption || lia).
  simpl. rewrite !scale_map_matrix, madd_map_matrix. simpl.
  rewrite madd_map_matrix. reflexivity.
Qed.

Lemma reshape_row_Ok (D : nat) (X Y : matrix A) :
  reshape_row D X = Ok Y ->
  (nrows X * ncols X)%nat = D /\ Y = Matrix D [concat (rows X)].
Proof.
  unfold reshape_row.
  destruct (Nat.eqb_spec (nrows X * ncols X) D); [|discriminate].
  intros [= <-]. auto.
Qed.

Lemma vectorize_img_shape (D : nat) imread (fn : string) (v : matrix A) :
  vectorize_img D imread fn = Ok v -> exists r, v = Matrix D [r].
Proof.
  unfold vectorize_img. intros Hv.
  apply rbind_Ok in Hv as (rgb & _ & Hv).
  apply rbind_Ok in Hv as (gray & _ & Hv).
  apply reshape_row_Ok in Hv as [_ ->]. eauto.
Qed.

End LoaderFacts.

(** C8. On every 3-channel pixel array, [rgb2gray] returns, pixel by
    pixel, the weighted sum [R*.299 + G*.587 + B*.114]; and on a file that
    [imread] decodes to such an array of [D] pixels, [vectorize_img]
    returns the grey values in row-major order as one row of length
    [D] (in the notebook, [D = 165*120]). *)
Theorem rgb2gray_weighted_sum_then_flatten {A : Type} `{Scalar A}
    (D : nat) (imread : string -> result image) (filename : string)
    (rgb : image) :
  wf rgb ->
  channels 3 rgb ->
  exists gray : matrix A,
    rgb2gray rgb = Ok gray
    /\ nrows gray = nrows rgb /\ ncols gray = ncols rgb
    /\ (forall i j R G B,
          entry rgb i j = Some [R; G; B] ->
          entry gray i j
          = Some (s_add (s_add (s_mul (s_of_Z R) (s_lit (299 # 1000)))
                               (s_mul (s_of_Z G) (s_lit (587 # 1000))))
                        (s_mul (s_of_Z B) (s_lit (114 # 1000)))))
    /\ (imread filename = Ok rgb -> (nrows rgb * ncols rgb)%nat = D ->
        exists im_vec : list A,
          vectorize_img D imread filename = Ok (Matrix D [im_vec])
          /\ length im_vec = D
          /\ forall i j, (j < ncols rgb)%nat ->
               im_vec !! (i * ncols rgb + j)%nat = entry gray i j).
Proof.
  intros Hwf Hc. exists (map_matrix pixel_gray rgb).
  split; [apply (rgb2gray_Ok rgb 3); [assumption | lia]|].
  split; [unfold nrows, map_matrix; simpl; apply length_map|].
  split; [reflexivity|].
  split.
  - intros i j R G B Hpx. rewrite entry_map_matrix, Hpx. reflexivity.
  - intros Hread HD. exists (concat (rows (map_matrix pixel_gray rgb))).
    assert (Hwf' : wf (map_matrix (pixel_gray (A:=A)) rgb))
      by now apply wf_map_matrix.
    split; [|split].
    + unfold vectorize_img. rewrite Hread. simpl.
      rewrite (rgb2gray_Ok rgb 3) by (assumption || lia). simpl.
      unfold reshape_row.
      replace (nrows (map_matrix pixel_gray rgb)) with (nrows rgb)
        by (unfold nrows, map_matrix; simpl; now rewrite length_map).
      simpl. apply Nat.eqb_eq in HD. now rewrite HD.
    + rewrite concat_length_wf by assumption.
      unfold nrows, map_matrix. simpl. rewrite length_map. exact HD.
    + intros i j Hj. now apply (concat_lookup_entry (map_matrix pixel_gray rgb)).
Qed.

Lemma rgb2gray_weighted_sum_witness :
  exists gray : matrix float,
    rgb2gray (Matrix 2 [[ [10; 20; 30]; [40; 50; 60] ]]) = Ok gray
    /\ entry gray 0 1
       = Some (s_add (s_add (s_mul (s_of_Z 40) (s_lit (299 # 1000)))
                            (s_mul (s_of_Z 50) (s_lit (587 # 1000))))
                     (s_mul (s_of_Z 60) (s_lit (114 # 1000)))).
Proof.
  destruct (rgb2gray_weighted_sum_then_flatten (A:=float) 2 Small.imread
              "p/M-001-01.bmp" (Matrix 2 [[ [10; 20; 30]; [40; 50; 60] ]]))
    as (gray & Hgray & _ & _ & Hentry & _).
  - repeat constructor.
  - repeat constructor.
  - exists gray. split; [exact Hgray|]. now apply Hentry.
Defined.

(** ** Building the sample matrix *)

Section BuildFacts.

Context {A : Type} `{Scalar A}.
Variable path : string.
Variable D : nat.
Variable imread : string -> result image.
Variable P : matrix A.

Lemma set_row_Ok (X : matrix A) (i c : nat) (r : list A) :
  (i < nrows X)%nat -> ncols X = c ->
  set_row X i (Matrix c [r]) = Ok (Matrix c (<[i := r]> (rows X))).
Proof.
  intros Hi <-. unfold set_row.
  destruct (Nat.leb_spec (nrows X) i); [lia|].
  simpl. now rewrite Nat.eqb_refl.
Qed.

Lemma set_row_in_range (X : matrix A) (i : nat) (v X' : matrix A) :
  set_row X i v = Ok X' -> (i < nrows X)%nat.
Proof.
  unfold set_row. destruct (Nat.leb_spec (nrows X) i); [discriminate|auto].
Qed.

(** What the filling loop leaves in the array: the rows it visited hold
    the vectorized images of the same positions, the others are as
    before. *)
Lemma fill_rows_spec (list_fn : list string) (range : list nat)
    (X X' : matrix A) :
  ncols X = D ->
  fill_rows D imread list_fn range X = Ok X' ->
  ncols X' = D /\ nrows X' = nrows X
  /\ (forall i, i ∉ range -> rows X' !! i = rows X !! i)
  /\ (forall i, i ∈ range ->
        exists fn r, list_fn !! i = Some fn
                     /\ vectorize_img D imread fn = Ok (Matrix D [r])
                     /\ rows X' !! i = Some r).
Proof.
  revert X. induction range as [|i range IH]; intros X HD Hfill; simpl in Hfill.
  - injection Hfill as <-. repeat split; auto.
    intros i Hi. now apply elem_of_nil in Hi.
  - apply rbind_Ok in Hfill as (fn & Hfn & Hfill).
    destruct (list_fn !! i) as [fn'|] eqn:Hlk; [|discriminate].
    injection Hfn as ->.
    apply rbind_Ok in Hfill as (v & Hv & Hfill).
    apply rbind_Ok in Hfill as (X1 & Hset & Hfill).
    destruct (vectorize_img_shape _ _ _ _ Hv) as [r ->].
    pose proof (set_row_in_range _ _ _ _ Hset) as Hi.
    rewrite set_row_Ok in Hset by assumption.
    injection Hset as <-.
    apply IH in Hfill as (Hc & Hn & Hout & Hin); [|reflexivity].
    unfold nrows in *. simpl in *. rewrite length_insert in Hn.
    repeat split; auto.
    + intros k Hk. rewrite not_elem_of_cons in Hk. destruct Hk as [Hki Hk].
      rewrite (Hout k Hk). now apply list_lookup_insert_ne.
    + intros k Hk. destruct (decide (k ∈ range)) as [Hkr|Hkr]; [now apply Hin|].
      apply elem_of_cons in Hk as [->|Hk]; [|contradiction].
      exists fn, r. repeat split; auto.
      rewrite (Hout i Hkr). now apply list_lookup_insert_eq.
Qed.

(** The loop does not fail when every listed file can be vectorized. *)
Lemma fill_rows_total (list_fn : list string) (range : list nat)
    (X : matrix A) :
  ncols X = D ->
  Forall (fun fn => exists v, vectorize_img D imread fn = Ok v) list_fn ->
  Forall (fun i => i < length list_fn /\ i < nrows X)%nat range ->
  exists X', fill_rows D imread list_fn range X = Ok X'.
Proof.
  intros HD Hall. revert X HD.
  induction range as [|i range IH]; intros X HD Hr; simpl; [eauto|].
  apply Forall_cons in Hr as [[Hi1 Hi2] Hr].
  destruct (lookup_lt_is_Some_2 list_fn i Hi1) as [fn Hfn]. rewrite Hfn. simpl.
  rewrite Forall_forall in Hall.
  destruct (Hall fn) as [v Hv]; [eapply list_elem_of_lookup_2; eauto|].
  rewrite Hv. simpl.
  destruct (vectorize_img_shape _ _ _ _ Hv) as [r ->].
  rewrite set_row_Ok by assumption. simpl.
  apply IH; [reflexivity|].
  eapply Forall_impl; [exact Hr|]. intros k [Hk1 Hk2]. split; [assumption|].
  unfold nrows in *. simpl. now rewrite length_insert.
Qed.

Lemma np_dot_Ok (X Y : matrix A) :
  np_dot X P = Ok Y ->
  ncols X = nrows P
  /\ Y = Matrix (ncols P) (map (fun r => row_times r P) (rows X)).
Proof.
  unfold np_dot. destruct (Nat.eqb_spec (ncols X) (nrows P)); [|discriminate].
  intros [= <-]. auto.
Qed.

Lemma np_dot_wf (X Y : matrix A) : np_dot X P = Ok Y -> wf Y.
Proof.
  intros HY. apply np_dot_Ok in HY as [_ ->]. unfold wf. simpl.
  apply Forall_fmap, Forall_true. intros r. simpl.
  unfold row_times. now rewrite length_map, length_seq.
Qed.

Lemma np_zeros_shape (r c : nat) :
  nrows (np_zeros r c : matrix A) = r /\ ncols (np_zeros r c : matrix A) = c.
Proof. unfold nrows, np_zeros. simpl. now rewrite length_replicate. Qed.

Lemma total_imgs_half (n m : nat) : (n * m * 2 / 2 = n * m)%nat.
Proof. apply Nat.div_mul. lia. Qed.

(** The steps of [build_data_matrix], when it returns. *)
Lemma build_data_matrix_Ok (img_ids view_ids : list Z) (X : matrix A)
    (y : list A) :
  build_data_matrix path D imread P img_ids view_ids = Ok (X, y) ->
  let list_fn := build_list_fn path "M-" img_ids view_ids
                 ++ build_list_fn path "W-" img_ids view_ids in
  let k := (length img_ids * length view_ids)%nat in
  exists X_full : matrix A,
    ncols X_full = D /\ nrows X_full = length list_fn
    /\ length list_fn = (2 * k)%nat
    /\ Forall2 (fun fn r => vectorize_img D imread fn = Ok (Matrix D [r]))
               list_fn (rows X_full)
    /\ np_dot X_full P = Ok X
    /\ y = replicate k s_zero ++ replicate k s_one.
Proof.
  unfold build_data_matrix. intros Hb. cbv zeta.
  rewrite total_imgs_half in Hb.
  apply rbind_Ok in Hb as (X_full & Hfill & Hb).
  apply rbind_Ok in Hb as (X' & Hdot & [= -> <-]).
  set (list_fn := build_list_fn path "M-" img_ids view_ids
                  ++ build_list_fn path "W-" img_ids view_ids) in *.
  assert (Hlen : length list_fn
                 = (2 * (length img_ids * length view_ids))%nat).
  { unfold list_fn. rewrite length_app, !build_list_fn_length. lia. }
  destruct (np_zeros_shape (length img_ids * length view_ids * 2) D)
    as [Hzr Hzc].
  destruct (fill_rows_spec _ _ _ _ Hzc Hfill) as (Hc & Hn & _ & Hin).
  exists X_full. repeat split; auto.
  - rewrite Hn, Hzr. lia.
  - apply Forall2_same_length_lookup. split.
    + unfold nrows in Hn. rewrite Hn, Hlen. fold (nrows (np_zeros (A:=A)
        (length img_ids * length view_ids * 2) D)). rewrite Hzr. lia.
    + intros i fn r Hfn Hr.
      destruct (Hin i) as (fn' & r' & Hfn' & Hv & Hr').
      { apply elem_of_seq. apply lookup_lt_Some in Hfn. lia. }
      congruence.
Qed.

(** [build_data_matrix] returns when every listed file can be vectorized
    and the projection matrix has [D] rows. *)
Lemma build_data_matrix_returns (img_ids view_ids : list Z) :
  nrows P = D ->
  Forall (fun fn => exists v, vectorize_img D imread fn = Ok v)
         (build_list_fn path "M-" img_ids view_ids
          ++ build_list_fn path "W-" img_ids view_ids) ->
  exists X y, build_data_matrix path D imread P img_ids view_ids = Ok (X, y).
Proof.
  intros HP Hall. unfold build_data_matrix.
  set (list_fn := build_list_fn path "M-" img_ids view_ids
                  ++ build_list_fn path "W-" img_ids view_ids) in *.
  destruct (np_zeros_shape (length img_ids * length view_ids * 2) D)
    as [Hzr Hzc].
  destruct (fill_rows_total list_fn (seq 0 (length list_fn)) _ Hzc Hall)
    as [X_full Hfill].
  { apply Forall_forall. intros i Hi. apply elem_of_seq in Hi.
    rewrite Hzr. unfold list_fn in *.
    rewrite length_app, !build_list_fn_length in *. lia. }
  rewrite Hfill. simpl.
  destruct (fill_rows_spec _ _ _ _ Hzc Hfill) as (Hc & _).
  unfold np_dot. rewrite Hc, HP, Nat.eqb_refl. simpl. eauto.
Qed.

End BuildFacts.

Lemma labels_lookup {A} (a b : A) (k i : nat) :
  (i < 2 * k)%nat ->
  (replicate k a ++ replicate k b) !! i = Some (if (i <? k)%nat then a else b).
Proof.
  intros Hi. destruct (Nat.ltb_spec i k).
  - rewrite lookup_app_l by (rewrite length_replicate; lia).
    now apply lookup_replicate_2.
  - rewrite lookup_app_r by (rewrite length_replicate; lia).
    rewrite length_replicate. apply lookup_replicate_2. lia.
Qed.

(** C4. When [build_data_matrix] returns [(X, y)], row [i] of [X] is the
    projection by [ProjectionMatrix] of the vectorized image whose path
    stands at position [i] of [list_fn_m + list_fn_w], and [y[i]] is the
    label of that image: 0 when the path is the [i]-th 'M-' name, 1 when
    it is a 'W-' name. *)
Theorem build_data_matrix_rows_aligned {A : Type} `{Scalar A}
    (path : string) (D : nat) (imread : string -> result image)
    (ProjectionMatrix : matrix A) (img_ids view_ids : list Z)
    (X : matrix A) (y : list A) :
  build_data_matrix path D imread ProjectionMatrix img_ids view_ids
  = Ok (X, y) ->
  let list_fn_m := build_list_fn path "M-" img_ids view_ids in
  let list_fn_w := build_list_fn path "W-" img_ids view_ids in
  let k := (length img_ids * length view_ids)%nat in
  nrows X = length (list_fn_m ++ list_fn_w)
  /\ length y = length (list_fn_m ++ list_fn_w)
  /\ forall i fn,
       (list_fn_m ++ list_fn_w) !! i = Some fn ->
       exists im_vec row : list A,
         vectorize_img D imread fn = Ok (Matrix D [im_vec])
         /\ rows X !! i = Some row
         /\ np_dot (Matrix D [im_vec]) ProjectionMatrix
            = Ok (Matrix (ncols ProjectionMatrix) [row])
         /\ ((i < k)%nat /\ list_fn_m !! i = Some fn /\ y !! i = Some s_zero
             \/ (k <= i)%nat /\ list_fn_w !! (i - k)%nat = Some fn
                /\ y !! i = Some s_one).
Proof.
  intros Hb. cbv zeta.
  destruct (build_data_matrix_Ok _ _ _ _ _ _ _ _ Hb)
    as (X_full & Hc & Hn & Hlen & Hvec & Hdot & ->).
  destruct (np_dot_Ok _ _ _ Hdot) as [HP ->].
  split; [unfold nrows in *; simpl; now rewrite length_map|].
  split; [rewrite length_app, !length_replicate; lia|].
  intros i fn Hfn.
  destruct (Forall2_lookup_l _ _ _ _ _ Hvec Hfn) as (r & Hr & Hv).
  exists r, (row_times r ProjectionMatrix).
  split; [exact Hv|]. split; [simpl; now rewrite list_lookup_fmap, Hr|].
  split.
  { unfold np_dot. simpl. rewrite <- Hc, HP, Nat.eqb_refl. reflexivity. }
  pose proof (lookup_lt_Some _ _ _ Hfn) as Hi. rewrite Hlen in Hi.
  rewrite (labels_lookup _ _ _ _ Hi).
  destruct (Nat.ltb_spec i (length img_ids * length view_ids)) as [Hlt|Hge].
  - left. repeat split; auto.
    rewrite lookup_app_l in Hfn by (rewrite build_list_fn_length; lia).
    exact Hfn.
  - right. repeat split; auto.
    rewrite lookup_app_r in Hfn by (rewrite build_list_fn_length; lia).
    now rewrite build_list_fn_length in Hfn.
Qed.

Lemma build_data_matrix_rows_aligned_witness :
  exists (X : matrix float) (y : list float),
    build_data_matrix Small.path Small.D Small.imread Small.ProjectionMatrix
                      Small.train_ids Small.view_ids = Ok (X, y)
    /\ nrows X = 2%nat /\ length y = 2%nat.
Proof.
  eexists. eexists.
  assert (Hb : build_data_matrix Small.path Small.D Small.imread
                 Small.ProjectionMatrix Small.train_ids Small.view_ids
               = Ok (_, _)) by (vm_compute; reflexivity).
  split; [exact Hb|].
  destruct (build_data_matrix_rows_aligned _ _ _ _ _ _ _ _ Hb)
    as (Hn & Hy & _).
  split; [exact Hn | exact Hy].
Defined.

(** C10. When [build_data_matrix] returns [(X, y)], the label vector has
    the even length [2 * |img_ids| * |view_ids|], which is the row count
    of [X]; its first half, the positions of the 'M-' names, holds the
    label 0 and its second half, the positions of the 'W-' names, holds
    the label 1. *)
Theorem build_data_matrix_labels_balanced {A : Type} `{Scalar A}
    (path : string) (D : nat) (imread : string -> result image)
    (ProjectionMatrix : matrix A) (img_ids view_ids : list Z)
    (X : matrix A) (y : list A) :
  build_data_matrix path D imread ProjectionMatrix img_ids view_ids
  = Ok (X, y) ->
  let list_fn_m := build_list_fn path "M-" img_ids view_ids in
  let list_fn_w := build_list_fn path "W-" img_ids view_ids in
  let k := (length img_ids * length view_ids)%nat in
  length y = (2 * k)%nat
  /\ Nat.Even (length y)
  /\ nrows X = length y
  /\ y = replicate k s_zero ++ replicate k s_one
  /\ length list_fn_m = k /\ length list_fn_w = k
  /\ (forall i, (i < k)%nat ->
        y !! i = Some s_zero
        /\ (list_fn_m ++ list_fn_w) !! i = list_fn_m !! i)
  /\ (forall i, (k <= i < 2 * k)%nat ->
        y !! i = Some s_one
        /\ (list_fn_m ++ list_fn_w) !! i = list_fn_w !! (i - k)%nat).
Proof.
  intros Hb. cbv zeta.
  destruct (build_data_matrix_Ok _ _ _ _ _ _ _ _ Hb)
    as (X_full & Hc & Hn & Hlen & Hvec & Hdot & ->).
  destruct (np_dot_Ok _ _ _ Hdot) as [HP ->].
  assert (Hy : length (replicate (length img_ids * length view_ids) (s_zero (A:=A))
                       ++ replicate (length img_ids * length view_ids) s_one)
               = (2 * (length img_ids * length view_ids))%nat).
  { rewrite length_app, !length_replicate. lia. }
  split; [exact Hy|]. split; [rewrite Hy; now eexists|].
  split; [unfold nrows in *; simpl; rewrite length_map; lia|].
  split; [reflexivity|].
  split; [apply build_list_fn_length|]. split; [apply build_list_fn_length|].
  split.
  - intros i Hi. rewrite labels_lookup by lia.
    destruct (Nat.ltb_spec i (length img_ids * length view_ids)); [|lia].
    split; [reflexivity|].
    apply lookup_app_l. rewrite build_list_fn_length. lia.
  - intros i Hi. rewrite labels_lookup by lia.
    destruct (Nat.ltb_spec i (length img_ids * length view_ids)); [lia|].
    split; [reflexivity|].
    rewrite lookup_app_r by (rewrite build_list_fn_length; lia).
    now rewrite build_list_fn_length.
Qed.

Lemma build_data_matrix_labels_balanced_witness :
  exists (X : matrix float) (y : list float),
    build_data_matrix Small.path Small.D Small.imread Small.ProjectionMatrix
                      Small.test_ids Small.view_ids = Ok (X, y)
    /\ y = [s_zero; s_one].
Proof.
  eexists. eexists.
  assert (Hb : build_data_matrix Small.path Small.D Small.imread
                 Small.ProjectionMatrix Small.test_ids Small.view_ids
               = Ok (_, _)) by (vm_compute; reflexivity).
  split; [exact Hb|].
  destruct (build_data_matrix_labels_balanced _ _ _ _ _ _ _ _ Hb)
    as (_ & _ & _ & Hy & _).
  exact Hy.
Defined.

(** ** Feature statistics *)

Section FeatureFacts.

Context {A : Type} `{Scalar A}.

Lemma broadcast_same_width (op : A -> A -> A) (X : matrix A) (v : list A) :
  ncols X = length v ->
  broadcast op X v
  = Ok (Matrix (ncols X) (map (fun r => zip_with op r v) (rows X))).
Proof. intros Hv. unfold broadcast. now rewrite Hv, Nat.eqb_refl. Qed.

Lemma feature_extraction_Ok (x_mean x_var : list A) (X : matrix A) :
  ncols X = length x_mean -> ncols X = length x_var ->
  feature_extraction x_mean x_var X
  = Ok (Matrix (ncols X)
          (map (fun r => zip_with s_div (zip_with s_sub r x_mean) x_var)
               (rows X))).
Proof.
  intros Hm Hv. unfold feature_extraction.
  rewrite broadcast_same_width by assumption. simpl.
  rewrite broadcast_same_width by assumption. simpl.
  now rewrite map_map.
Qed.

Lemma wf_entry_lt (X : matrix A) (i j : nat) (x : A) :
  wf X -> entry X i j = Some x -> (i < nrows X)%nat /\ (j < ncols X)%nat.
Proof.
  unfold wf, entry, nrows. intros Hwf Hx.
  destruct (rows X !! i) as [r|] eqn:Hr; [|discriminate]. simpl in Hx.
  split; [now apply lookup_lt_Some in Hr|].
  rewrite Forall_lookup in Hwf. rewrite <- (Hwf _ _ Hr).
  now apply lookup_lt_Some in Hx.
Qed.

Lemma wf_entry_is_Some (X : matrix A) (i j : nat) :
  wf X -> (i < nrows X)%nat -> (j < ncols X)%nat ->
  exists x, entry X i j = Some x.
Proof.
  unfold wf, entry, nrows. intros Hwf Hi Hj.
  destruct (lookup_lt_is_Some_2 _ _ Hi) as [r Hr]. rewrite Hr. simpl.
  rewrite Forall_lookup in Hwf. apply lookup_lt_is_Some_2.
  now rewrite (Hwf _ _ Hr).
Qed.

(** Entry by entry, the transform is [(x - mean) / var] with the mean
    and variance of the entry's column. *)
Lemma feature_extraction_entry (x_mean x_var : list A) (X Y : matrix A)
    (i j : nat) (x : A) :
  wf X -> ncols X = length x_mean -> ncols X = length x_var ->
  feature_extraction x_mean x_var X = Ok Y ->
  entry X i j = Some x ->
  exists mj vj, x_mean !! j = Some mj /\ x_var !! j = Some vj
                /\ entry Y i j = Some (s_div (s_sub x mj) vj).
Proof.
  intros Hwf Hm Hv HY Hx.
  rewrite feature_extraction_Ok in HY by assumption. injection HY as <-.
  destruct (wf_entry_lt _ _ _ _ Hwf Hx) as [_ Hj].
  destruct (lookup_lt_is_Some_2 x_mean j) as [mj Hmj]; [lia|].
  destruct (lookup_lt_is_Some_2 x_var j) as [vj Hvj]; [lia|].
  exists mj, vj. repeat split; auto.
  unfold entry in *. simpl. rewrite list_lookup_fmap.
  destruct (rows X !! i) as [r|]; [|discriminate]. simpl in *.
  rewrite !lookup_zip_with, Hx, Hmj, Hvj. reflexivity.
Qed.

Lemma feature_extraction_shape (x_mean x_var : list A) (X Y : matrix A) :
  wf X -> ncols X = length x_mean -> ncols X = length x_var ->
  feature_extraction x_mean x_var X = Ok Y ->
  wf Y /\ ncols Y = ncols X /\ nrows Y = nrows X.
Proof.
  intros Hwf Hm Hv HY.
  rewrite feature_extraction_Ok in HY by assumption. injection HY as <-.
  unfold wf, nrows in *. simpl. rewrite length_map. repeat split; auto.
  apply Forall_fmap. eapply Forall_impl; [exact Hwf|].
  intros r Hr. simpl in *. rewrite !length_zip_with. lia.
Qed.

Lemma mean_axis0_length (X : matrix A) : length (mean_axis0 X) = ncols X.
Proof. unfold mean_axis0. now rewrite length_map, length_seq. Qed.

Lemma var_axis0_length (X : matrix A) : length (var_axis0 X) = ncols X.
Proof. unfold var_axis0. now rewrite length_map, length_seq. Qed.

(** Two arrays of one shape are equal when their entries are. *)
Lemma matrix_eq_entries (X Y : matrix A) :
  wf X -> wf Y -> ncols X = ncols Y -> nrows X = nrows Y ->
  (forall i j, entry X i j = entry Y i j) -> X = Y.
Proof.
  destruct X as [c rx], Y as [c' ry]. unfold wf, nrows, entry. simpl.
  intros Hx Hy <- Hn He. f_equal.
  apply list_eq. intros i.
  destruct (rx !! i) as [r|] eqn:Hr, (ry !! i) as [r'|] eqn:Hr'.
  - f_equal. apply list_eq. intros j.
    specialize (He i j). now rewrite Hr, Hr' in He.
  - apply lookup_lt_Some in Hr. apply lookup_ge_None in Hr'. lia.
  - apply lookup_lt_Some in Hr'. apply lookup_ge_None in Hr. lia.
  - reflexivity.
Qed.

End FeatureFacts.

(** ** The cell *)

Section CellFacts.

Context {A : Type} `{Scalar A}.
Variable rng_state : Type.
Variable np_random_seed : Z -> rng_state.
Variable np_random_randn : nat -> nat -> rng_state -> matrix A * rng_state.
Variable LogisticRegression : A -> estimator (A:=A).
Variable imread : string -> result image.
Variable array_str : list Z -> string.
Variable path : string.
Variable train_ids test_ids view_ids : list Z.
Variable D d : nat.

Abbreviation projection rng0 :=
  (fst (generate_projection rng_state np_random_seed np_random_randn D d rng0)).
Abbreviation data rng0 :=
  (cell_data rng_state np_random_seed np_random_randn imread path
             train_ids test_ids view_ids D d rng0).

Lemma build_data_matrix_shape (P : matrix A) (img_ids : list Z)
    (X : matrix A) (y : list A) :
  build_data_matrix path D imread P img_ids view_ids = Ok (X, y) ->
  wf X /\ ncols X = ncols P /\ nrows P = D.
Proof.
  intros Hb.
  destruct (build_data_matrix_Ok _ _ _ _ _ _ _ _ Hb)
    as (X_full & Hc & _ & _ & _ & Hdot & _).
  split; [eapply np_dot_wf; eauto|].
  apply np_dot_Ok in Hdot as [HP ->]. simpl. split; [reflexivity | congruence].
Qed.

(** The steps of the data part of the cell, when it completes. *)
Lemma cell_data_Ok (rng0 : rng_state) (g : dataset) :
  data rng0 = Ok g ->
  exists X_train_full X_test_full : matrix A,
    g_ProjectionMatrix g = projection rng0
    /\ build_data_matrix path D imread (projection rng0) train_ids view_ids
       = Ok (X_train_full, g_y_train g)
    /\ build_data_matrix path D imread (projection rng0) test_ids view_ids
       = Ok (X_test_full, g_y_test g)
    /\ g_x_mean g = mean_axis0 X_train_full
    /\ g_x_var g = var_axis0 X_train_full
    /\ feature_extraction (g_x_mean g) (g_x_var g) X_train_full
       = Ok (g_X_train g)
    /\ feature_extraction (g_x_mean g) (g_x_var g) X_test_full
       = Ok (g_X_test g).
Proof.
  unfold cell_data.
  destruct (generate_projection _ _ _ _ _ rng0) as [P rng]. simpl.
  intros Hg.
  apply rbind_Ok in Hg as ([X_train_full y_train] & Htrain & Hg).
  apply rbind_Ok in Hg as (X_train & Hfe1 & Hg).
  apply rbind_Ok in Hg as ([X_test_full y_test] & Htest & Hg).
  apply rbind_Ok in Hg as (X_test & Hfe2 & [= <-]). simpl.
  exists X_train_full, X_test_full. repeat split; assumption.
Qed.

(** The data part of the cell completes as soon as both matrices can be
    built: centring and scaling never raise, whatever the variances. *)
Lemma cell_data_total (rng0 : rng_state) (X_train_full X_test_full : matrix A)
    (y_train y_test : list A) :
  build_data_matrix path D imread (projection rng0) train_ids view_ids
  = Ok (X_train_full, y_train) ->
  build_data_matrix path D imread (projection rng0) test_ids view_ids
  = Ok (X_test_full, y_test) ->
  exists X_train X_test,
    feature_extraction (mean_axis0 X_train_full) (var_axis0 X_train_full)
                       X_train_full = Ok X_train
    /\ feature_extraction (mean_axis0 X_train_full) (var_axis0 X_train_full)
                          X_test_full = Ok X_test
    /\ data rng0
       = Ok (Dataset (projection rng0) y_train (mean_axis0 X_train_full)
                     (var_axis0 X_train_full) X_train y_test X_test).
Proof.
  intros Htrain Htest. unfold cell_data.
  destruct (generate_projection _ _ _ _ _ rng0) as [P rng]. simpl in *.
  destruct (build_data_matrix_shape _ _ _ _ Htrain) as (_ & Hc1 & _).
  destruct (build_data_matrix_shape _ _ _ _ Htest) as (_ & Hc2 & _).
  rewrite Htrain. simpl.
  rewrite (feature_extraction_Ok _ _ X_train_full)
    by now rewrite ?mean_axis0_length, ?var_axis0_length.
  simpl. rewrite Htest. simpl.
  rewrite (feature_extraction_Ok _ _ X_test_full)
    by (rewrite ?mean_axis0_length, ?var_axis0_length; congruence).
  simpl. eauto.
Qed.

End CellFacts.

(** C1. [feature_extraction] returns [(X - x_mean) / x_var] entry by
    entry on every sample matrix with one column per feature; in the cell,
    [x_mean] and [x_var] are the per-column mean and variance of the
    training matrix, computed once, and the training matrix and the test
    matrix are both transformed with these same two vectors. *)
Theorem feature_statistics_from_training_applied_to_both
    {A : Type} `{Scalar A} (rng_state : Type)
    (np_random_seed : Z -> rng_state)
    (np_random_randn : nat -> nat -> rng_state -> matrix A * rng_state)
    (imread : string -> result image) (path : string)
    (train_ids test_ids view_ids : list Z) (D d : nat)
    (rng0 : rng_state) (g : dataset) :
  cell_data rng_state np_random_seed np_random_randn imread path
            train_ids test_ids view_ids D d rng0 = Ok g ->
  (forall (x_mean x_var : list A) (X : matrix A),
      wf X -> ncols X = length x_mean -> ncols X = length x_var ->
      exists Y, feature_extraction x_mean x_var X = Ok Y
                /\ nrows Y = nrows X /\ ncols Y = ncols X
                /\ forall i j x, entry X i j = Some x ->
                     exists mj vj, x_mean !! j = Some mj /\ x_var !! j = Some vj
                       /\ entry Y i j = Some (s_div (s_sub x mj) vj))
  /\ exists X_train_full X_test_full : matrix A,
       build_data_matrix path D imread (g_ProjectionMatrix g) train_ids view_ids
       = Ok (X_train_full, g_y_train g)
       /\ build_data_matrix path D imread (g_ProjectionMatrix g) test_ids view_ids
          = Ok (X_test_full, g_y_test g)
       /\ g_x_mean g = mean_axis0 X_train_full
       /\ g_x_var g = var_axis0 X_train_full
       /\ feature_extraction (g_x_mean g) (g_x_var g) X_train_full
          = Ok (g_X_train g)
       /\ feature_extraction (g_x_mean g) (g_x_var g) X_test_full
          = Ok (g_X_test g)
       /\ (forall i j x, entry X_train_full i j = Some x ->
             exists mj vj, g_x_mean g !! j = Some mj /\ g_x_var g !! j = Some vj
               /\ entry (g_X_train g) i j = Some (s_div (s_sub x mj) vj))
       /\ (forall i j x, entry X_test_full i j = Some x ->
             exists mj vj, g_x_mean g !! j = Some mj /\ g_x_var g !! j = Some vj
               /\ entry (g_X_test g) i j = Some (s_div (s_sub x mj) vj)).
Proof.
  intros Hg. split.
  - intros x_mean x_var X Hwf Hm Hv.
    eexists. split; [now apply feature_extraction_Ok|].
    destruct (feature_extraction_shape x_mean x_var X _ Hwf Hm Hv
                (feature_extraction_Ok _ _ _ Hm Hv)) as (_ & Hc & Hn).
    split; [exact Hn|]. split; [exact Hc|].
    intros i j x Hx.
    eapply feature_extraction_entry; eauto using feature_extraction_Ok.
  - destruct (cell_data_Ok _ _ _ _ _ _ _ _ _ _ _ _ Hg)
      as (Xtr & Xte & HP & Htr & Hte & Hm & Hv & Hf1 & Hf2).
    rewrite <- HP in Htr, Hte.
    destruct (build_data_matrix_shape _ _ _ _ _ _ _ _ Htr) as (Hwf1 & Hc1 & _).
    destruct (build_data_matrix_shape _ _ _ _ _ _ _ _ Hte) as (Hwf2 & Hc2 & _).
    exists Xtr, Xte. repeat (split; [assumption|]).
    split; intros i j x Hx.
    + apply (feature_extraction_entry _ _ Xtr _ _ _ _ Hwf1); auto;
        rewrite ?Hm, ?Hv, ?mean_axis0_length, ?var_axis0_length; reflexivity.
    + apply (feature_extraction_entry _ _ Xte _ _ _ _ Hwf2); auto;
        rewrite ?Hm, ?Hv, ?mean_axis0_length, ?var_axis0_length; congruence.
Qed.

Lemma feature_statistics_witness :
  exists g X_train_full,
    Small.data = Ok g
    /\ g_x_mean g = mean_axis0 X_train_full
    /\ feature_extraction (g_x_mean g) (g_x_var g) X_train_full
       = Ok (g_X_train g).
Proof.
  eexists. 
  assert (Hg : Small.data = Ok _) by (vm_compute; reflexivity).
  destruct (feature_statistics_from_training_applied_to_both
              _ _ _ _ _ _ _ _ _ _ _ _ Hg)
    as (_ & Xtr & _ & _ & _ & Hm & _ & Hf & _).
  exists Xtr. auto.
Defined.

(** ** Projection *)

Lemma np_dot_entry {A : Type} `{Scalar A} (X P Y : matrix A) (i j : nat)
    (r : list A) :
  np_dot X P = Ok Y -> rows X !! i = Some r -> (j < ncols P)%nat ->
  entry Y i j = Some (vsum (zip_with s_mul r (column P j))).
Proof.
  intros HY Hr Hj. apply np_dot_Ok in HY as [_ ->].
  unfold entry. simpl. rewrite list_lookup_fmap, Hr. simpl.
  unfold row_times. rewrite list_lookup_fmap, lookup_seq_lt by assumption.
  reflexivity.
Qed.

Lemma np_dot_total {A : Type} `{Scalar A} (X P : matrix A) :
  ncols X = nrows P ->
  exists Y, np_dot X P = Ok Y /\ nrows Y = nrows X /\ ncols Y = ncols P.
Proof.
  intros HX. unfold np_dot. rewrite HX, Nat.eqb_refl.
  eexists. split; [reflexivity|]. unfold nrows. simpl.
  now rewrite length_map.
Qed.

Lemma small_randn_shape (r c : nat) (s : Small.rng_state) :
  nrows (fst (Small.np_random_randn r c s)) = r
  /\ ncols (fst (Small.np_random_randn r c s)) = c.
Proof.
  unfold Small.np_random_randn, nrows. simpl.
  now rewrite length_map, length_seq.
Qed.

Lemma small_randn_wf (r c : nat) (s : Small.rng_state) :
  wf (fst (Small.np_random_randn r c s)).
Proof.
  unfold Small.np_random_randn, wf. cbn [fst rows ncols].
  apply Forall_map, Forall_forall. intros i _.
  cbn. now rewrite length_map, length_seq.
Qed.

(** *** The reducer is a matrix product *)

Section ProductFacts.

Context {A : Type} `{Scalar A}.

Lemma foldl_sum_of (l pre : list A) (acc : A) :
  sum_of pre acc -> sum_of (pre ++ l) (foldl s_add acc l).
Proof.
  revert pre acc. induction l as [|y l IH]; intros pre acc Hacc; simpl.
  - now rewrite app_nil_r.
  - rewrite cons_middle, app_assoc. apply IH.
    apply sum_of_app; [exact Hacc | apply sum_of_one].
Qed.

(** What [vsum] returns is a sum of the list. *)
Lemma vsum_sum_of (l : list A) : sum_of l (vsum l).
Proof.
  destruct l as [|x l]; [apply sum_of_nil|].
  apply (foldl_sum_of l [x] x), sum_of_one.
Qed.

(** The products that [np_dot] adds up for entry [(i, j)] are the terms
    of the matrix product, [k] running over the columns of [X]. *)
Lemma inner_products (X P : matrix A) (i j : nat) (r : list A) :
  wf X -> wf P -> ncols X = nrows P ->
  rows X !! i = Some r -> (j < ncols P)%nat ->
  zip_with s_mul r (column P j)
  = map (product_term X P i j) (seq 0 (ncols X)).
Proof.
  intros WX WP Hn Hr Hj.
  assert (Lr : length r = ncols X).
  { unfold wf in WX. rewrite Forall_forall in WX.
    apply WX, (list_elem_of_lookup_2 _ _ _ Hr). }
  apply list_eq. intros k.
  rewrite lookup_zip_with, list_lookup_fmap, column_lookup by assumption.
  destruct (Nat.lt_ge_cases k (ncols X)) as [Hk|Hk].
  - rewrite lookup_seq_lt by assumption. cbn.
    destruct (lookup_lt_is_Some_2 r k ltac:(lia)) as [x Hx].
    destruct (wf_entry_is_Some P k j WP ltac:(lia) Hj) as [p Hp].
    assert (Ex : entry X i k = Some x)
      by (unfold entry; rewrite Hr; exact Hx).
    unfold product_term. rewrite Ex, Hx, Hp. reflexivity.
  - rewrite lookup_seq_ge by assumption.
    rewrite (lookup_ge_None_2 r k) by lia. reflexivity.
Qed.

(** Every entry of what [np_dot] returns is a sum, in some order, of
    the terms of the matrix product. *)
Lemma np_dot_sum_of (X P Y : matrix A) (i j : nat) :
  wf X -> wf P -> np_dot X P = Ok Y ->
  (i < nrows X)%nat -> (j < ncols P)%nat ->
  exists s, entry Y i j = Some s
            /\ sum_of (map (product_term X P i j) (seq 0 (ncols X))) s.
Proof.
  intros WX WP HY Hi Hj.
  destruct (lookup_lt_is_Some_2 (rows X) i Hi) as [r Hr].
  pose proof (np_dot_entry X P Y i j r HY Hr Hj) as He.
  apply np_dot_Ok in HY as [Hn _].
  eexists. split; [exact He|].
  rewrite <- (inner_products X P i j r WX WP Hn Hr Hj). apply vsum_sum_of.
Qed.

Section ExactArithmetic.

Hypothesis add_assoc :
  forall a b c : A, s_add a (s_add b c) = s_add (s_add a b) c.
Hypothesis add_comm : forall a b : A, s_add a b = s_add b a.
Hypothesis add_0_l : forall a : A, s_add s_zero a = a.

Lemma foldr_add_app (l1 l2 : list A) :
  foldr s_add s_zero (l1 ++ l2)
  = s_add (foldr s_add s_zero l1) (foldr s_add s_zero l2).
Proof.
  induction l1 as [|x l1 IH]; simpl.
  - now rewrite add_0_l.
  - now rewrite IH, add_assoc.
Qed.

Lemma foldr_add_perm (l l' : list A) :
  l ≡ₚ l' -> foldr s_add s_zero l = foldr s_add s_zero l'.
Proof.
  induction 1 as [|x l l' _ IH|x y l|l l' l'' _ IH1 _ IH2]; simpl.
  - reflexivity.
  - now rewrite IH.
  - rewrite !add_assoc. f_equal. apply add_comm.
  - congruence.
Qed.

(** In exact arithmetic every order of the additions gives one sum. *)
Lemma sum_of_exact (l : list A) (s : A) :
  sum_of l s -> s = foldr s_add s_zero l.
Proof.
  induction 1 as [|x|l1 l2 a b _ IH1 _ IH2|l l' a Hp _ IH].
  - reflexivity.
  - simpl. now rewrite add_comm, add_0_l.
  - now rewrite foldr_add_app, IH1, IH2.
  - now rewrite <- (foldr_add_perm _ _ Hp).
Qed.

Lemma foldr_add_sum_upto (f : nat -> A) (n : nat) :
  foldr s_add s_zero (map f (seq 0 n)) = sum_upto f n.
Proof.
  induction n as [|n IH]; [reflexivity|].
  rewrite seq_S, map_app, foldr_add_app, IH. simpl.
  f_equal. now rewrite add_comm, add_0_l.
Qed.

(** In exact arithmetic [np_dot] returns the matrix product. *)
Lemma np_dot_exact (X P Y : matrix A) (i j : nat) :
  wf X -> wf P -> np_dot X P = Ok Y ->
  (i < nrows X)%nat -> (j < ncols P)%nat ->
  entry Y i j = Some (matrix_product_entry X P i j).
Proof.
  intros WX WP HY Hi Hj.
  destruct (np_dot_sum_of X P Y i j WX WP HY Hi Hj) as (s & -> & Hs).
  f_equal. apply sum_of_exact in Hs. rewrite Hs.
  apply foldr_add_sum_upto.
Qed.

End ExactArithmetic.

End ProductFacts.

(** The rationals satisfy the laws of exact addition, as equalities. *)
Lemma Q_add_assoc (a b c : Q) : (a + (b + c) = (a + b) + c)%Q.
Proof.
  destruct a as [a1 a2], b as [b1 b2], c as [c1 c2].
  unfold Qplus. cbn [Qnum Qden].
  f_equal; [|apply Pos.mul_assoc].
  rewrite !Pos2Z.inj_mul. ring.
Qed.

Lemma Q_add_comm (a b : Q) : (a + b = b + a)%Q.
Proof.
  destruct a as [a1 a2], b as [b1 b2]. unfold Qplus. cbn [Qnum Qden].
  f_equal; [ring | apply Pos.mul_comm].
Qed.

Lemma Q_add_0_l (a : Q) : (0 + a = a)%Q.
Proof.
  destruct a as [a1 a2]. unfold Qplus. cbn [Qnum Qden].
  f_equal. ring.
Qed.

(** On the rationals: [0.1 + 0.2 + 0.3] times 1 is [0.6]. *)
Example exact_product :
  let X := Matrix 3 [[1 # 10; 2 # 10; 3 # 10]%Q] in
  let P := Matrix 1 [[1%Q]; [1%Q]; [1%Q]] in
  np_dot (H:=Exact.Q_scalar) X P = Ok (Matrix 1 [[600 # 1000]%Q])
  /\ matrix_product_entry (H:=Exact.Q_scalar) X P 0 0 = (600 # 1000)%Q.
Proof.
  intros X P.
  assert (Hd : np_dot (H:=Exact.Q_scalar) X P
               = Ok (Matrix 1 [[600 # 1000]%Q])) by reflexivity.
  split; [exact Hd|].
  assert (WX : wf X) by (repeat constructor).
  assert (WP : wf P) by (repeat constructor).
  assert (Hi : (0 < nrows X)%nat) by (cbn; lia).
  assert (Hj : (0 < ncols P)%nat) by (cbn; lia).
  pose proof (np_dot_exact (H:=Exact.Q_scalar) Q_add_assoc Q_add_comm
                Q_add_0_l X P _ 0 0 WX WP Hd Hi Hj) as He.
  cbn in He. now apply (inj Some) in He.
Qed.

(** In float64 the order of the additions shows in the last bit: both
    values are sums of the same three numbers. *)
Example float_sum_depends_on_order :
  sum_of [0.1; 0.2; 0.3]%float 0.60000000000000009%float
  /\ sum_of [0.1; 0.2; 0.3]%float 0.59999999999999998%float.
Proof.
  split.
  - change (sum_of ([0.1; 0.2] ++ [0.3])%float
                   (s_add (s_add 0.1 0.2) 0.3)%float).
    apply sum_of_app; [|apply sum_of_one].
    apply (sum_of_app [0.1%float] [0.2%float]); apply sum_of_one.
  - change (sum_of ([0.1] ++ [0.2; 0.3])%float
                   (s_add 0.1 (s_add 0.2 0.3))%float).
    apply sum_of_app; [apply sum_of_one|].
    apply (sum_of_app [0.2%float] [0.3%float]); apply sum_of_one.
Qed.

(** C6. For every rectangular full sample matrix with [D] columns, the
    reducer [np.dot(X_full, ProjectionMatrix)] returns the matrix
    product, of shape (rows of [X_full], [d]): every entry [(i, j)] is
    a sum of the [D] products [X_full[i, k] * ProjectionMatrix[k, j]],
    each taken once; in exact arithmetic that is the one value
    [sum over k of X_full[i, k] * ProjectionMatrix[k, j]], and in
    float64 it is that sum as rounded in the order of the additions.
    In the cell the projection matrix is generated once, has shape
    [(D, d)] (in the notebook, [(165*120, 1000)]), and the one matrix
    reduces both the stacked training images and the stacked test
    images.  The reducer is a function: the same matrices give the same
    result. *)
Theorem reducer_is_product_with_one_projection {A : Type} `{Scalar A}
    (rng_state : Type) (np_random_seed : Z -> rng_state)
    (np_random_randn : nat -> nat -> rng_state -> matrix A * rng_state)
    (imread : string -> result image) (path : string)
    (train_ids test_ids view_ids : list Z) (D d : nat)
    (rng0 : rng_state) (g : dataset) :
  (forall r c s, nrows (fst (np_random_randn r c s)) = r
                 /\ ncols (fst (np_random_randn r c s)) = c
                 /\ wf (fst (np_random_randn r c s))) ->
  cell_data rng_state np_random_seed np_random_randn imread path
            train_ids test_ids view_ids D d rng0 = Ok g ->
  let P := g_ProjectionMatrix g in
  let list_fn ids := build_list_fn path "M-" ids view_ids
                     ++ build_list_fn path "W-" ids view_ids in
  P = fst (generate_projection rng_state np_random_seed np_random_randn D d rng0)
  /\ nrows P = D /\ ncols P = d /\ wf P
  /\ (forall X_full : matrix A,
        wf X_full -> ncols X_full = D ->
        exists X, np_dot X_full P = Ok X
                  /\ wf X /\ nrows X = nrows X_full /\ ncols X = d
                  /\ forall i j, (i < nrows X_full)%nat -> (j < d)%nat ->
                       (exists s,
                           entry X i j = Some s
                           /\ sum_of (map (product_term X_full P i j)
                                          (seq 0 D)) s)
                       /\ ((forall a b c : A,
                               s_add a (s_add b c) = s_add (s_add a b) c) ->
                           (forall a b : A, s_add a b = s_add b a) ->
                           (forall a : A, s_add s_zero a = a) ->
                           entry X i j
                           = Some (matrix_product_entry X_full P i j)))
  /\ exists Xf_train Xf_test X_train_full X_test_full : matrix A,
       Forall2 (fun fn r => vectorize_img D imread fn = Ok (Matrix D [r]))
               (list_fn train_ids) (rows Xf_train)
       /\ Forall2 (fun fn r => vectorize_img D imread fn = Ok (Matrix D [r]))
                  (list_fn test_ids) (rows Xf_test)
       /\ ncols Xf_train = D /\ ncols Xf_test = D
       /\ np_dot Xf_train P = Ok X_train_full
       /\ np_dot Xf_test P = Ok X_test_full
       /\ build_data_matrix path D imread P train_ids view_ids
          = Ok (X_train_full, g_y_train g)
       /\ build_data_matrix path D imread P test_ids view_ids
          = Ok (X_test_full, g_y_test g).
Proof.
  intros Hshape Hg. cbv zeta.
  destruct (cell_data_Ok _ _ _ _ _ _ _ _ _ _ _ _ Hg)
    as (Xtr & Xte & HP & Htr & Hte & _).
  rewrite <- HP in Htr, Hte.
  assert (HPr : nrows (g_ProjectionMatrix g) = D)
    by (rewrite HP; apply Hshape).
  assert (HPc : ncols (g_ProjectionMatrix g) = d)
    by (rewrite HP; apply Hshape).
  assert (HPw : wf (g_ProjectionMatrix g))
    by (rewrite HP; apply Hshape).
  split; [exact HP|]. split; [exact HPr|]. split; [exact HPc|].
  split; [exact HPw|]. split.
  - intros X_full WX HX.
    destruct (np_dot_total X_full (g_ProjectionMatrix g))
      as (X & HXd & Hn & Hc); [congruence|].
    exists X. split; [exact HXd|].
    split; [exact (np_dot_wf _ _ _ HXd)|].
    split; [exact Hn|]. split; [congruence|].
    intros i j Hi Hj. rewrite <- HX. split.
    + apply np_dot_sum_of; auto. lia.
    + intros Ha Hc' H0. apply np_dot_exact; auto. lia.
  - destruct (build_data_matrix_Ok _ _ _ _ _ _ _ _ Htr)
      as (Xf1 & Hc1 & _ & _ & Hv1 & Hd1 & _).
    destruct (build_data_matrix_Ok _ _ _ _ _ _ _ _ Hte)
      as (Xf2 & Hc2 & _ & _ & Hv2 & Hd2 & _).
    exists Xf1, Xf2, Xtr, Xte. repeat (split; [assumption|]). assumption.
Qed.

Lemma reducer_is_product_witness :
  exists g,
    Small.data = Ok g
    /\ g_ProjectionMatrix g = Matrix 2 [[0; 1]; [0; 2]]%float
    /\ np_dot (Matrix 2 [[1; 2]; [3; 4]]%float) (g_ProjectionMatrix g)
       = Ok (Matrix 2 [[0; 5]; [0; 11]]%float)
    /\ sum_of [3 * 1; 4 * 2]%float 11%float.
Proof.
  eexists.
  assert (Hg : Small.data = Ok _) by (vm_compute; reflexivity).
  split; [exact Hg|].
  destruct (reducer_is_product_with_one_projection
              Small.rng_state Small.np_random_seed Small.np_random_randn
              Small.imread Small.path Small.train_ids Small.test_ids
              Small.view_ids Small.D Small.d 0 _
              (fun r c s => conj (proj1 (small_randn_shape r c s))
                              (conj (proj2 (small_randn_shape r c s))
                                    (small_randn_wf r c s))) Hg)
    as (_ & _ & _ & _ & Hall & _).
  split; [reflexivity|].
  assert (WX : wf (Matrix 2 [[1; 2]; [3; 4]]%float)) by (repeat constructor).
  destruct (Hall (Matrix 2 [[1; 2]; [3; 4]]%float) WX eq_refl)
    as (X & HX & _ & _ & _ & Hent).
  assert (EX : X = Matrix 2 [[0; 5]; [0; 11]]%float)
    by (apply Ok_inj; rewrite <- HX; vm_compute; reflexivity).
  subst X. split; [exact HX|].
  destruct (Hent 1%nat 1%nat) as [(s & Hs & Hsum) _];
    [cbn; lia | unfold Small.d; lia |].
  cbn in Hs. apply (inj Some) in Hs. subst s. exact Hsum.
Defined.

(** ** Re-applying the transform *)

(** C3, as stated, fails: with the mean 2 and the variance 1 of the
    training column [1, 3], one application gives [-1, 1] and a second
    one gives [-3, -1]. *)
Lemma feature_extraction_twice_differs :
  mean_axis0 (Matrix 1 [[1%float]; [3%float]]) = [2%float]
  /\ var_axis0 (Matrix 1 [[1%float]; [3%float]]) = [1%float]
  /\ feature_extraction [2%float] [1%float] (Matrix 1 [[1%float]; [3%float]])
     = Ok (Matrix 1 [[(-1)%float]; [1%float]])
  /\ feature_extraction [2%float] [1%float] (Matrix 1 [[(-1)%float]; [1%float]])
     = Ok (Matrix 1 [[(-3)%float]; [(-1)%float]])
  /\ Matrix 1 [[(-3)%float]; [(-1)%float]] <> Matrix 1 [[(-1)%float]; [1%float]].
Proof.
  repeat split; try (vm_compute; reflexivity).
  intros E.
  apply (f_equal (fun M => match rows M with
                           | [x] :: _ => PrimFloat.ltb x (-2)%float
                           | _ => false
                           end)) in E.
  vm_compute in E. discriminate.
Qed.

(** C3, amended. A second application with the same stored [x_mean] and
    [x_var] succeeds and centres and scales the transformed values once
    more: the entry [y] becomes [(y - x_mean[j]) / x_var[j]].  It gives
    back the result of the first application exactly when every
    transformed entry is a fixed point of that map. *)
Theorem feature_extraction_twice {A : Type} `{Scalar A}
    (x_mean x_var : list A) (X Y : matrix A) :
  wf X -> ncols X = length x_mean -> ncols X = length x_var ->
  feature_extraction x_mean x_var X = Ok Y ->
  exists Z,
    feature_extraction x_mean x_var Y = Ok Z
    /\ nrows Z = nrows X /\ ncols Z = ncols X
    /\ (forall i j y, entry Y i j = Some y ->
          exists mj vj, x_mean !! j = Some mj /\ x_var !! j = Some vj
            /\ entry Z i j = Some (s_div (s_sub y mj) vj))
    /\ (Z = Y <->
        forall i j y mj vj,
          entry Y i j = Some y -> x_mean !! j = Some mj ->
          x_var !! j = Some vj -> s_div (s_sub y mj) vj = y).
Proof.
  intros Hwf Hm Hv HY.
  destruct (feature_extraction_shape _ _ _ _ Hwf Hm Hv HY) as (HwfY & HcY & HnY).
  assert (HmY : ncols Y = length x_mean) by congruence.
  assert (HvY : ncols Y = length x_var) by congruence.
  pose proof (feature_extraction_Ok x_mean x_var Y HmY HvY) as HZ.
  remember (Matrix (ncols Y)
              (map (fun r => zip_with s_div (zip_with s_sub r x_mean) x_var)
                   (rows Y))) as Z eqn:EZ.
  clear EZ.
  destruct (feature_extraction_shape _ _ _ _ HwfY HmY HvY HZ)
    as (HwfZ & HcZ & HnZ).
  exists Z. split; [exact HZ|].
  split; [congruence|]. split; [congruence|].
  assert (Hentry : forall i j y, entry Y i j = Some y ->
            exists mj vj, x_mean !! j = Some mj /\ x_var !! j = Some vj
              /\ entry Z i j = Some (s_div (s_sub y mj) vj)).
  { intros i j y Hy.
    exact (feature_extraction_entry x_mean x_var Y Z i j y HwfY HmY HvY HZ Hy). }
  split; [exact Hentry|]. split.
  - intros HZY i j y mj vj Hy Hmj Hvj.
    destruct (Hentry i j y Hy) as (mj' & vj' & Hmj' & Hvj' & Hz).
    rewrite HZY, Hy in Hz. congruence.
  - intros Hfix. apply matrix_eq_entries; auto. intros i j.
    destruct (entry Y i j) as [y|] eqn:Hy.
    + destruct (Hentry i j y Hy) as (mj & vj & Hmj & Hvj & Hz).
      rewrite Hz. f_equal. eapply Hfix; eauto.
    + destruct (entry Z i j) as [z|] eqn:Hz; [|reflexivity].
      destruct (wf_entry_lt _ _ _ _ HwfZ Hz) as [Hi Hj].
      destruct (wf_entry_is_Some Y i j HwfY) as [y' Hy']; try lia.
      congruence.
Qed.

Lemma feature_extraction_twice_witness :
  exists Z,
    feature_extraction [2%float] [1%float] (Matrix 1 [[(-1)%float]; [1%float]])
    = Ok Z
    /\ entry Z 0 0 = Some ((-1 - 2) / 1)%float.
Proof.
  destruct (feature_extraction_twice [2%float] [1%float]
              (Matrix 1 [[1%float]; [3%float]])
              (Matrix 1 [[(-1)%float]; [1%float]]))
    as (Z & HZ & _ & _ & Hentry & _).
  - repeat constructor.
  - reflexivity.
  - reflexivity.
  - vm_compute. reflexivity.
  - exists Z. split; [exact HZ|].
    destruct (Hentry 0%nat 0%nat (-1)%float eq_refl)
      as (mj & vj & [= <-] & [= <-] & Hz).
    exact Hz.
Defined.

(** ** Zero variance *)







(** ** Accuracy *)

(** *** Rounding to binary64: a value below a float rounds below it *)

Lemma iter_pos_Pos_iter {A} (f : A -> A) (p : positive) (x : A) :
  SpecFloat.iter_pos f p x = Pos.iter f x p.
Proof.
  revert x. induction p as [p IH|p IH|]; intros x; simpl.
  - now rewrite !IH, !Pos.iter_swap.
  - now rewrite !IH.
  - reflexivity.
Qed.

Lemma shr_1_spec (rec : shr_record) :
  0 <= shr_m rec ->
  shr_m (shr_1 rec) = Z.div2 (shr_m rec)
  /\ shr_r (shr_1 rec) = Z.odd (shr_m rec).
Proof.
  destruct rec as [m r s]. simpl. intros Hm.
  destruct m as [|[p|p|]|p]; simpl; auto. lia.
Qed.

Lemma shr_iter_spec (p : positive) (rec : shr_record) :
  0 <= shr_m rec ->
  0 <= shr_m (SpecFloat.iter_pos shr_1 p rec)
  /\ shr_m (SpecFloat.iter_pos shr_1 p rec) = shr_m rec / 2 ^ Zpos p
  /\ (shr_r (SpecFloat.iter_pos shr_1 p rec) = true ->
      shr_m (SpecFloat.iter_pos shr_1 p rec) * 2 ^ Zpos p < shr_m rec).
Proof.
  intros Hm. rewrite iter_pos_Pos_iter.
  induction p as [|p IH] using Pos.peano_ind.
  - simpl Pos.iter. destruct (shr_1_spec rec Hm) as [-> ->].
    rewrite Z.div2_div. change (2 ^ 1) with 2.
    split; [apply Z.div_pos; lia|]. split; [reflexivity|].
    intros Hodd. pose proof (Z.div2_odd (shr_m rec)) as E.
    rewrite Hodd, Z.div2_div in E. simpl Z.b2z in E. lia.
  - rewrite Pos.iter_succ.
    destruct IH as (H0 & Hq & Hr).
    destruct (shr_1_spec _ H0) as [-> ->].
    rewrite Pos2Z.inj_succ, Z.pow_succ_r by lia.
    rewrite Z.div2_div.
    split; [apply Z.div_pos; lia|]. split.
    + rewrite Hq, Z.div_div by lia. f_equal. lia.
    + intros Hodd. pose proof (Z.div2_odd (Pos.iter shr_1 rec p).(shr_m)) as E.
      rewrite Hodd, Z.div2_div in E. simpl Z.b2z in E.
      assert (shr_m (Pos.iter shr_1 rec p) * 2 ^ Z.pos p <= shr_m rec).
      { rewrite Hq. rewrite Z.mul_comm. apply Z.mul_div_le. lia. }
      nia.
Qed.

Lemma digits2_bounds (m : positive) :
  2 ^ (Zpos (digits2_pos m) - 1) <= Zpos m < 2 ^ Zpos (digits2_pos m).
Proof.
  induction m as [m IH|m IH|]; simpl digits2_pos.
  - rewrite Pos2Z.inj_succ. replace (Z.succ (Zpos (digits2_pos m)) - 1)
      with (Z.succ (Zpos (digits2_pos m) - 1)) by lia.
    rewrite !Z.pow_succ_r by lia. lia.
  - rewrite Pos2Z.inj_succ. replace (Z.succ (Zpos (digits2_pos m)) - 1)
      with (Z.succ (Zpos (digits2_pos m) - 1)) by lia.
    rewrite !Z.pow_succ_r by lia. lia.
  - simpl. lia.
Qed.

Lemma fexp64_eq (e : Z) : fexp64 e = Z.max (e - 53) (-1074).
Proof. reflexivity. Qed.

Lemma magnitude_le (m : Z) (e : Z) (mB : positive) (eB : Z) :
  below m e mB eB ->
  Zdigits2 m + e <= Zpos (digits2_pos mB) + eB.
Proof.
  intros [He [H0 Hm]].
  destruct m as [|p|p]; simpl Zdigits2; [lia| |lia].
  destruct (digits2_bounds p) as [Hp _]. destruct (digits2_bounds mB) as [_ HB].
  assert (2 ^ (Zpos (digits2_pos p) - 1) < 2 ^ (Zpos (digits2_pos mB) + (eB - e))).
  { rewrite Z.pow_add_r by lia.
    assert (0 < 2 ^ (eB - e)) by (apply Z.pow_pos_nonneg; lia). nia. }
  apply Z.pow_lt_mono_r_iff in H; lia.
Qed.

Lemma shr_fexp_below (m e : Z) (l : location) (mB : positive) (eB : Z) :
  eB = fexp64 (Zpos (digits2_pos mB) + eB) ->
  below m e mB eB ->
  (l <> loc_Exact -> m < Zpos mB * 2 ^ (eB - e)) ->
  forall rec e', shr_fexp prec emax m e l = (rec, e') ->
  below (shr_m rec) e' mB eB
  /\ (shr_r rec = true -> shr_m rec < Zpos mB * 2 ^ (eB - e')).
Proof.
  intros HB Hbelow Hstrict rec e'. unfold shr_fexp, shr.
  pose proof (magnitude_le _ _ _ _ Hbelow) as Hmag.
  destruct Hbelow as [He [H0 Hm]].
  destruct (fexp64 (Zdigits2 m + e) - e) as [|p|p] eqn:Hn.
  - intros [= <- <-]. split; [split; auto|].
    + destruct l as [|[]]; simpl; auto.
    + destruct l as [|[]]; simpl; intros; try discriminate; apply Hstrict; discriminate.
  - intros [= <- <-].
    destruct (shr_iter_spec p (shr_record_of_loc m l)) as (H0' & Hq & Hr).
    { destruct l as [|[]]; simpl; auto. }
    assert (Em : shr_m (shr_record_of_loc m l) = m) by (destruct l as [|[]]; reflexivity).
    rewrite Em in *.
    assert (He' : e + Z.pos p <= eB).
    { rewrite <- Hn. rewrite fexp64_eq in *. lia. }
    assert (Hpow : 2 ^ (eB - e) = 2 ^ (eB - (e + Z.pos p)) * 2 ^ Z.pos p).
    { rewrite <- Z.pow_add_r by lia. f_equal. lia. }
    assert (0 < 2 ^ Z.pos p) by (apply Z.pow_pos_nonneg; lia).
    assert (Hle : m / 2 ^ Z.pos p <= Z.pos mB * 2 ^ (eB - (e + Z.pos p))).
    { apply Z.div_le_upper_bound; [lia|]. rewrite Hpow in Hm. lia. }
    split; [split; [exact He'|]; rewrite Hq; split; [apply Z.div_pos; lia | exact Hle]|].
    intros Hrt. specialize (Hr Hrt). rewrite Hpow in Hm.
    apply (Z.mul_lt_mono_pos_r (2 ^ Z.pos p)); [assumption|].
    rewrite Z.mul_assoc in Hm. eapply Z.lt_le_trans; [exact Hr | exact Hm].
  - intros [= <- <-]. split; [split; auto|].
    + destruct l as [|[]]; simpl; auto.
    + destruct l as [|[]]; simpl; intros; try discriminate; apply Hstrict; discriminate.
Qed.

Lemma round_nearest_even_below (rec : shr_record) (bound : Z) :
  0 <= shr_m rec <= bound ->
  (shr_r rec = true -> shr_m rec < bound) ->
  0 <= round_nearest_even (shr_m rec) (loc_of_shr_record rec) <= bound.
Proof.
  destruct rec as [m r s]. cbn [shr_m shr_r]. intros Hm Hr.
  unfold round_nearest_even, loc_of_shr_record.
  destruct r, s; try lia; specialize (Hr eq_refl); try lia.
  destruct (IntDef.Z.even m); lia.
Qed.

(** Rounding a value that is below a float gives a float below it. *)
Lemma binary_round_aux_below (mx ex : Z) (lx : location) (mB : positive) (eB : Z) :
  eB = fexp64 (Zpos (digits2_pos mB) + eB) -> eB <= 971 ->
  below mx ex mB eB ->
  (lx <> loc_Exact -> mx < Zpos mB * 2 ^ (eB - ex)) ->
  match binary_round_aux prec emax false mx ex lx with
  | S754_zero false => True
  | S754_finite false m e => e < eB \/ (e = eB /\ Zpos m <= Zpos mB)
  | _ => False
  end.
Proof.
  intros HB HeB Hbelow Hstrict. unfold binary_round_aux.
  destruct (shr_fexp prec emax mx ex lx) as [rec1 e1] eqn:H1.
  destruct (shr_fexp_below _ _ _ _ _ HB Hbelow Hstrict _ _ H1) as [[He1 Hm1] Hr1].
  pose proof (round_nearest_even_below rec1 _ Hm1 Hr1) as Hm2.
  destruct (shr_fexp prec emax (round_nearest_even (shr_m rec1) (loc_of_shr_record rec1)) e1 loc_Exact)
    as [rec2 e2] eqn:H2.
  destruct (shr_fexp_below _ e1 loc_Exact mB eB HB (conj He1 Hm2)
              (fun H => False_ind _ (H eq_refl)) _ _ H2) as [[He2 Hm3] _].
  destruct (shr_m rec2) as [|m|m] eqn:Em; [exact I| |lia].
  destruct (Z.leb_spec e2 (emax - prec)) as [_|Hgt].
  - destruct (Z.eq_dec e2 eB) as [->|Hne]; [right|left; lia].
    split; [reflexivity|]. rewrite Z.sub_diag in Hm3. simpl in Hm3. lia.
  - change (emax - prec) with 971 in Hgt. lia.
Qed.

(** *** The float of an integer *)

Lemma iter_xO_spec (d p : positive) :
  Zpos (Pos.iter xO p d) = Zpos p * 2 ^ Zpos d
  /\ Zpos (digits2_pos (Pos.iter xO p d)) = Zpos (digits2_pos p) + Zpos d.
Proof.
  induction d as [|d IH] using Pos.peano_ind.
  - simpl. lia.
  - rewrite Pos.iter_succ. destruct IH as [IH1 IH2].
    simpl digits2_pos. rewrite Pos2Z.inj_xO, !Pos2Z.inj_succ, IH1, IH2.
    rewrite Z.pow_succ_r by lia. lia.
Qed.

(** Rounding a full 53-bit mantissa changes nothing. *)
Lemma binary_round_aux_normal (s : bool) (m : positive) (e : Z) :
  Zpos (digits2_pos m) = 53 -> -1074 <= e <= 971 ->
  binary_round_aux prec emax s (Zpos m) e loc_Exact = S754_finite s m e.
Proof.
  intros Hd He. unfold binary_round_aux, shr_fexp.
  cbn [Zdigits2]. rewrite Hd, fexp64_eq.
  replace (Z.max (53 + e - 53) (-1074) - e) with 0 by lia.
  cbn [shr shr_record_of_loc shr_m loc_of_shr_record round_nearest_even].
  cbn [Zdigits2]. rewrite Hd, fexp64_eq.
  replace (Z.max (53 + e - 53) (-1074) - e) with 0 by lia.
  cbn [shr shr_m].
  destruct (Z.leb_spec e (emax - prec)) as [_|Hgt]; [reflexivity|].
  change (emax - prec) with 971 in Hgt. lia.
Qed.

(** The float of an integer below 2^53 is that integer: a 53-bit mantissa
    [m] and an exponent [-a] with [m = k * 2^a]. *)
Lemma of_Z_exact (k : Z) :
  0 < k < 2 ^ 53 ->
  exists (m : positive) (a : Z),
    Prim2SF (F64.of_Z k) = S754_finite false m (- a)
    /\ Zpos (digits2_pos m) = 53 /\ 0 <= a <= 52 /\ Zpos m = k * 2 ^ a.
Proof.
  intros Hk. destruct k as [|p|p]; try lia.
  unfold F64.of_Z. rewrite of_uint63_spec, Uint63.of_Z_spec.
  rewrite Z.mod_small by (change Uint63.wB with (2 ^ 63); lia).
  cbn [binary_normalize]. unfold binary_round.
  destruct (digits2_bounds p) as [Hlo Hhi].
  assert (Hd : 1 <= Zpos (digits2_pos p) <= 53).
  { split; [lia|].
    destruct (Z.le_gt_cases (Zpos (digits2_pos p)) 53) as [|Hgt]; [assumption|].
    assert (2 ^ 53 <= 2 ^ (Zpos (digits2_pos p) - 1))
      by (apply Z.pow_le_mono_r; lia). lia. }
  rewrite Z.add_0_r, fexp64_eq.
  replace (Z.max (Zpos (digits2_pos p) - 53) (-1074))
    with (Zpos (digits2_pos p) - 53) by lia.
  unfold shl_align. rewrite Z.sub_0_r.
  destruct (Zpos (digits2_pos p) - 53) as [|q|q] eqn:Hq; try lia.
  - exists p, 0. rewrite binary_round_aux_normal by lia.
    repeat split; try lia.
  - destruct (iter_xO_spec q p) as [Hv Hdig].
    exists (Pos.iter xO p q), (Zpos q).
    rewrite binary_round_aux_normal by lia.
    repeat split; try lia.
Qed.

Lemma new_location_inexact (n r : Z) :
  new_location n r <> loc_Exact -> r <> 0.
Proof.
  unfold new_location, new_location_even, new_location_odd.
  intros Hl ->. destruct (IntDef.Z.even n); simpl in Hl; now apply Hl.
Qed.

Lemma odd_mod2 (x : Z) : x mod 2 = Z.b2z (Z.odd x).
Proof.
  pose proof (Z.div2_odd x) as E. rewrite Z.div2_div in E.
  pose proof (Z.mod_pos_bound x 2 ltac:(lia)).
  pose proof (Z.div_mod x 2 ltac:(lia)).
  destruct (Z.odd x); simpl in *; lia.
Qed.

Lemma pow2_pred (e : Z) : 0 < e -> 2 ^ e = 2 ^ (e - 1) * 2.
Proof.
  intros He. replace e with (Z.succ (e - 1)) at 1 by lia.
  rewrite Z.pow_succ_r by lia. lia.
Qed.

Lemma shr_1_sticky (rec : shr_record) :
  shr_s (shr_1 rec) = (shr_r rec || shr_s rec)%bool.
Proof. destruct rec as [[|[q|q|]|[q|q|]] r s]; reflexivity. Qed.

(** The two bits that the shifting keeps: the last bit shifted out, and
    whether anything below it was set. *)
Lemma shr_iter_bits (p : positive) (m : Z) :
  0 <= m ->
  let rec := SpecFloat.iter_pos shr_1 p (Build_shr_record m false false) in
  shr_m rec = m / 2 ^ Zpos p
  /\ shr_r rec = Z.odd (m / 2 ^ (Zpos p - 1))
  /\ shr_s rec = negb (m mod 2 ^ (Zpos p - 1) =? 0).
Proof.
  intros Hm. cbv zeta. rewrite iter_pos_Pos_iter.
  induction p as [|p IH] using Pos.peano_ind.
  - simpl Pos.iter. cbn [shr_1 shr_m shr_r shr_s orb].
    change (2 ^ (1 - 1)) with 1. rewrite Z.div_1_r, Z.mod_1_r.
    change (2 ^ 1) with 2. rewrite <- Z.div2_div.
    destruct m as [|[q|q|]|q]; try lia; repeat split.
  - rewrite Pos.iter_succ. destruct IH as (Hq & Hr & Hs).
    assert (H0 : 0 <= shr_m (Pos.iter shr_1 (Build_shr_record m false false) p)).
    { rewrite Hq. apply Z.div_pos; [lia|]. apply Z.pow_pos_nonneg; lia. }
    destruct (shr_1_spec _ H0) as [Em Er].
    rewrite Em, Er. rewrite Pos2Z.inj_succ.
    replace (Z.succ (Z.pos p) - 1) with (Z.pos p) by lia.
    split; [|split].
    + rewrite Z.div2_div, Hq, Z.div_div by (try apply Z.pow_nonzero; lia).
      f_equal. rewrite Z.pow_succ_r by lia. lia.
    + now rewrite Hq.
    + rewrite shr_1_sticky, Hr, Hs.
      assert (Hpow : 2 ^ Z.pos p = 2 ^ (Z.pos p - 1) * 2) by (apply pow2_pred; lia).
      rewrite Hpow.
      rewrite Z.rem_mul_r by (try apply Z.pow_nonzero; lia).
      rewrite odd_mod2.
      pose proof (Z.mod_pos_bound m (2 ^ (Z.pos p - 1))
                    ltac:(apply Z.pow_pos_nonneg; lia)) as Hb.
      assert (0 < 2 ^ (Z.pos p - 1)) by (apply Z.pow_pos_nonneg; lia).
      destruct (Z.odd (m / 2 ^ (Z.pos p - 1))); simpl Z.b2z; simpl orb.
      * symmetry. apply negb_true_iff, Z.eqb_neq. lia.
      * rewrite Z.mul_0_r, Z.add_0_r. reflexivity.
Qed.

(** Where the value stands between the truncation and the next one. *)
Lemma shr_iter_loc (p : positive) (m : Z) :
  0 <= m ->
  let rec := SpecFloat.iter_pos shr_1 p (Build_shr_record m false false) in
  shr_m rec = m / 2 ^ Zpos p
  /\ loc_of_shr_record rec
     = if m mod 2 ^ Zpos p =? 0 then loc_Exact
       else loc_Inexact (2 * (m mod 2 ^ Zpos p) ?= 2 ^ Zpos p).
Proof.
  intros Hm. cbv zeta.
  destruct (shr_iter_bits p m Hm) as (Hq & Hr & Hs).
  split; [exact Hq|].
  destruct (SpecFloat.iter_pos shr_1 p (Build_shr_record m false false))
    as [m' r' s']. cbn [shr_m shr_r shr_s loc_of_shr_record] in *.
  assert (Hpow : 2 ^ Z.pos p = 2 ^ (Z.pos p - 1) * 2) by (apply pow2_pred; lia).
  rewrite Hpow.
  rewrite Z.rem_mul_r by (try apply Z.pow_nonzero; lia).
  rewrite odd_mod2, <- Hr.
  pose proof (Z.mod_pos_bound m (2 ^ (Z.pos p - 1))
                ltac:(apply Z.pow_pos_nonneg; lia)) as Hb.
  assert (0 < 2 ^ (Z.pos p - 1)) by (apply Z.pow_pos_nonneg; lia).
  destruct r', s'; simpl Z.b2z;
    symmetry in Hs; rewrite ?negb_true_iff, ?negb_false_iff in Hs;
    [apply Z.eqb_neq in Hs | apply Z.eqb_eq in Hs
    |apply Z.eqb_neq in Hs | apply Z.eqb_eq in Hs].
  - destruct (Z.eqb_spec (m mod 2 ^ (Z.pos p - 1) + 2 ^ (Z.pos p - 1) * 1) 0); [lia|].
    f_equal. symmetry. apply Z.compare_gt_iff. lia.
  - destruct (Z.eqb_spec (m mod 2 ^ (Z.pos p - 1) + 2 ^ (Z.pos p - 1) * 1) 0); [lia|].
    f_equal. symmetry. apply Z.compare_eq_iff. lia.
  - destruct (Z.eqb_spec (m mod 2 ^ (Z.pos p - 1) + 2 ^ (Z.pos p - 1) * 0) 0); [lia|].
    f_equal. symmetry. apply Z.compare_lt_iff. lia.
  - destruct (Z.eqb_spec (m mod 2 ^ (Z.pos p - 1) + 2 ^ (Z.pos p - 1) * 0) 0); [|lia].
    reflexivity.
Qed.

Lemma Zdigits2_bounds (m : Z) :
  0 < m -> 2 ^ (Zdigits2 m - 1) <= m < 2 ^ Zdigits2 m.
Proof. destruct m as [|p|p]; try lia. intros _. apply digits2_bounds. Qed.

Lemma Zdigits2_unique (m d : Z) :
  2 ^ (d - 1) <= m < 2 ^ d -> 0 < d -> Zdigits2 m = d.
Proof.
  intros [Hlo Hhi] Hd.
  assert (Hm : 0 < m).
  { assert (0 < 2 ^ (d - 1)) by (apply Z.pow_pos_nonneg; lia). lia. }
  destruct (Zdigits2_bounds m Hm) as [Hlo' Hhi'].
  assert (0 < Zdigits2 m) by (destruct m; simpl; lia).
  destruct (Z.lt_trichotomy (Zdigits2 m) d) as [Hlt|[Heq|Hgt]]; [|exact Heq|].
  - assert (2 ^ Zdigits2 m <= 2 ^ (d - 1)) by (apply Z.pow_le_mono_r; lia). lia.
  - assert (2 ^ d <= 2 ^ (Zdigits2 m - 1)) by (apply Z.pow_le_mono_r; lia). lia.
Qed.

Lemma round_nearest_even_mantissa (n : Z) (p : positive) :
  round_nearest_even (n / 2 ^ Zpos p)
    (if n mod 2 ^ Zpos p =? 0 then loc_Exact
     else loc_Inexact (2 * (n mod 2 ^ Zpos p) ?= 2 ^ Zpos p))
  = rounded_mantissa n (Zpos p).
Proof.
  unfold rounded_mantissa, round_nearest_even.
  assert (0 < 2 ^ Zpos p) by (apply Z.pow_pos_nonneg; lia).
  destruct (Z.eqb_spec (n mod 2 ^ Zpos p) 0) as [E|E].
  - rewrite E. change (2 * 0) with 0.
    destruct (Z.compare_spec 0 (2 ^ Zpos p)); [lia | reflexivity | lia].
  - destruct (2 * (n mod 2 ^ Zpos p) ?= 2 ^ Zpos p); try reflexivity.
    rewrite <- Z.negb_odd. now destruct (Z.odd _).
Qed.

Lemma rounded_mantissa_bounds (n p : Z) :
  0 < p -> 2 ^ (52 + p) <= n < 2 ^ (53 + p) ->
  2 ^ 52 <= rounded_mantissa n p <= 2 ^ 53.
Proof.
  intros Hp [Hlo Hhi]. unfold rounded_mantissa.
  assert (0 < 2 ^ p) by (apply Z.pow_pos_nonneg; lia).
  rewrite !Z.pow_add_r in * by lia.
  assert (2 ^ 52 <= n / 2 ^ p) by (apply Z.div_le_lower_bound; lia).
  assert (n / 2 ^ p < 2 ^ 53) by (apply Z.div_lt_upper_bound; lia).
  destruct (2 * (n mod 2 ^ p) ?= 2 ^ p); [destruct (Z.odd _)| |]; lia.
Qed.

(** The float of an integer of more than 53 bits. *)
Lemma of_Z_big (n : Z) :
  2 ^ 53 <= n < 2 ^ 63 ->
  let p := Zdigits2 n - 53 in
  let m := rounded_mantissa n p in
  1 <= p <= 10
  /\ Prim2SF (F64.of_Z n)
     = if m =? 2 ^ 53 then S754_finite false 4503599627370496 (p + 1)
       else S754_finite false (Z.to_pos m) p.
Proof.
  intros Hn. cbv zeta.
  assert (Hpos : 0 < n) by lia.
  destruct (Zdigits2_bounds n Hpos) as [Hlo Hhi].
  assert (Hd : 54 <= Zdigits2 n <= 63).
  { split.
    - destruct (Z.le_gt_cases 54 (Zdigits2 n)) as [|Hlt]; [assumption|].
      assert (2 ^ Zdigits2 n <= 2 ^ 53) by (apply Z.pow_le_mono_r; lia). lia.
    - destruct (Z.le_gt_cases (Zdigits2 n) 63) as [|Hgt]; [assumption|].
      assert (2 ^ 63 <= 2 ^ (Zdigits2 n - 1)) by (apply Z.pow_le_mono_r; lia). lia. }
  split; [lia|].
  destruct n as [|n'|n']; try lia.
  unfold F64.of_Z. rewrite of_uint63_spec, Uint63.of_Z_spec.
  rewrite Z.mod_small by (change Uint63.wB with (2 ^ 63); lia).
  cbn [binary_normalize]. unfold binary_round.
  rewrite Z.add_0_r, fexp64_eq.
  cbn [Zdigits2] in *.
  replace (Z.max (Zpos (digits2_pos n') - 53) (-1074))
    with (Zpos (digits2_pos n') - 53) by lia.
  unfold shl_align. rewrite Z.sub_0_r.
  destruct (Zpos (digits2_pos n') - 53) as [|p|p] eqn:Hp; try lia.
  unfold binary_round_aux, shr_fexp. cbn [Zdigits2].
  rewrite Z.add_0_r, fexp64_eq.
  replace (Z.max (Zpos (digits2_pos n') - 53) (-1074) - 0) with (Zpos p) by lia.
  cbn [shr shr_record_of_loc].
  destruct (shr_iter_loc p (Zpos n') ltac:(lia)) as [Hq Hl].
  rewrite Hq, Hl, round_nearest_even_mantissa. rewrite Z.add_0_l.
  assert (Hb : 2 ^ 52 <= rounded_mantissa (Zpos n') (Zpos p) <= 2 ^ 53).
  { apply rounded_mantissa_bounds; [lia|].
    replace (52 + Zpos p) with (Zpos (digits2_pos n') - 1) by lia.
    replace (53 + Zpos p) with (Zpos (digits2_pos n')) by lia. lia. }
  destruct (Z.eqb_spec (rounded_mantissa (Zpos n') (Zpos p)) (2 ^ 53)) as [E|E].
  - rewrite E. change (Zdigits2 (2 ^ 53)) with 54. rewrite fexp64_eq.
    replace (Z.max (54 + Zpos p - 53) (-1074) - Zpos p) with 1 by lia.
    cbn [shr]. change (2 ^ 53) with 9007199254740992.
    cbn [SpecFloat.iter_pos shr_1 shr_m].
    destruct (Z.leb_spec (Zpos p + 1) (emax - prec)) as [_|Hgt]; [reflexivity|].
    change (emax - prec) with 971 in Hgt. lia.
  - set (m := rounded_mantissa (Zpos n') (Zpos p)) in *.
    assert (Hdm : Zdigits2 m = 53) by (apply Zdigits2_unique; lia).
    rewrite Hdm, fexp64_eq.
    replace (Z.max (53 + Zpos p - 53) (-1074) - Zpos p) with 0 by lia.
    cbn [shr shr_m].
    destruct m as [|m'|m'] eqn:Em; try lia.
    destruct (Z.leb_spec (Zpos p) (emax - prec)) as [_|Hgt]; [reflexivity|].
    change (emax - prec) with 971 in Hgt. lia.
Qed.

Lemma rounded_mantissa_mono (k n p : Z) :
  0 <= p -> k <= n -> rounded_mantissa k p <= rounded_mantissa n p.
Proof.
  intros Hp Hkn. unfold rounded_mantissa.
  assert (H2 : 0 < 2 ^ p) by (apply Z.pow_pos_nonneg; lia).
  pose proof (Z.div_mod k (2 ^ p) ltac:(lia)) as Ek.
  pose proof (Z.div_mod n (2 ^ p) ltac:(lia)) as En.
  pose proof (Z.mod_pos_bound k (2 ^ p) H2) as Bk.
  pose proof (Z.mod_pos_bound n (2 ^ p) H2) as Bn.
  pose proof (Z.div_le_mono k n (2 ^ p) H2 Hkn) as Hq.
  destruct (Z.eq_dec (k / 2 ^ p) (n / 2 ^ p)) as [Eq|Ne].
  - rewrite Eq in *.
    assert (k mod 2 ^ p <= n mod 2 ^ p) by lia.
    destruct (Z.compare_spec (2 * (k mod 2 ^ p)) (2 ^ p));
      destruct (Z.compare_spec (2 * (n mod 2 ^ p)) (2 ^ p));
      destruct (Z.odd (n / 2 ^ p)); lia.
  - assert (k / 2 ^ p + 1 <= n / 2 ^ p) by lia.
    destruct (Z.compare_spec (2 * (k mod 2 ^ p)) (2 ^ p));
      destruct (Z.compare_spec (2 * (n mod 2 ^ p)) (2 ^ p));
      destruct (Z.odd (k / 2 ^ p)); destruct (Z.odd (n / 2 ^ p)); lia.
Qed.

Lemma Zdigits2_mono (k n : Z) : 0 < k <= n -> Zdigits2 k <= Zdigits2 n.
Proof.
  intros Hkn.
  destruct (Zdigits2_bounds k ltac:(lia)) as [Hlo _].
  destruct (Zdigits2_bounds n ltac:(lia)) as [_ Hhi].
  destruct (Z.le_gt_cases (Zdigits2 k) (Zdigits2 n)) as [|Hgt]; [assumption|].
  assert (2 ^ Zdigits2 n <= 2 ^ (Zdigits2 k - 1))
    by (apply Z.pow_le_mono_r; lia). lia.
Qed.

Lemma digits_53_bounds (m : positive) :
  Zpos (digits2_pos m) = 53 -> 2 ^ 52 <= Zpos m < 2 ^ 53.
Proof. intros Hd. pose proof (digits2_bounds m) as Hb. now rewrite Hd in Hb. Qed.

(** The floats of two integers stand in the order of the integers: both
    have full mantissas, and the smaller integer has the smaller exponent
    or, at the same exponent, the smaller mantissa. *)
Lemma of_Z_monotone (k n : Z) :
  0 < k <= n -> n < 2 ^ 63 ->
  exists (mk mn : positive) (ek en : Z),
    Prim2SF (F64.of_Z k) = S754_finite false mk ek
    /\ Prim2SF (F64.of_Z n) = S754_finite false mn en
    /\ 2 ^ 52 <= Zpos mk < 2 ^ 53 /\ 2 ^ 52 <= Zpos mn < 2 ^ 53
    /\ -52 <= ek /\ en <= 11
    /\ (ek < en \/ (ek = en /\ Zpos mk <= Zpos mn)).
Proof.
  intros Hk Hn.
  destruct (Z.lt_ge_cases n (2 ^ 53)) as [Hn53|Hn53].
  - (* both exact *)
    destruct (of_Z_exact k) as (mk & a & Ek & Hdk & Ha & Hmk); [lia|].
    destruct (of_Z_exact n) as (mn & b & En & Hdn & Hb & Hmn); [lia|].
    exists mk, mn, (- a), (- b).
    pose proof (digits_53_bounds _ Hdk) as Bk.
    pose proof (digits_53_bounds _ Hdn) as Bn.
    repeat (split; [assumption || lia|]).
    assert (0 < 2 ^ a) by (apply Z.pow_pos_nonneg; lia).
    assert (0 < 2 ^ b) by (apply Z.pow_pos_nonneg; lia).
    destruct (Z.lt_trichotomy a b) as [Hlt|[Heq|Hgt]].
    + exfalso.
      assert (2 ^ b = 2 ^ (b - a - 1) * 2 ^ 1 * 2 ^ a)
        by (rewrite <- !Z.pow_add_r by lia; f_equal; lia).
      change (2 ^ 1) with 2 in *.
      assert (0 < 2 ^ (b - a - 1)) by (apply Z.pow_pos_nonneg; lia).
      change (2 ^ 53) with (2 * 2 ^ 52) in *. nia.
    + right. subst b. split; [reflexivity|]. nia.
    + left. lia.
  - destruct (of_Z_big n ltac:(lia)) as [Hpn En].
    set (pn := Zdigits2 n - 53) in *. set (Mn := rounded_mantissa n pn) in *.
    assert (HMn : 2 ^ 52 <= Mn <= 2 ^ 53).
    { apply rounded_mantissa_bounds; [lia|].
      destruct (Zdigits2_bounds n ltac:(lia)) as [Hlo Hhi].
      replace (52 + pn) with (Zdigits2 n - 1) by (unfold pn; lia).
      replace (53 + pn) with (Zdigits2 n) by (unfold pn; lia). lia. }
    destruct (Z.lt_ge_cases k (2 ^ 53)) as [Hk53|Hk53].
    + (* exact and rounded *)
      destruct (of_Z_exact k) as (mk & a & Ek & Hdk & Ha & Hmk); [lia|].
      pose proof (digits_53_bounds _ Hdk) as Bk.
      destruct (Z.eqb_spec Mn (2 ^ 53)) as [E|E].
      * exists mk, 4503599627370496%positive, (- a), (pn + 1).
        repeat (split; [assumption || lia|]). left. lia.
      * exists mk, (Z.to_pos Mn), (- a), pn.
        rewrite Z2Pos.id by lia.
        repeat (split; [assumption || lia|]). left. lia.
    + (* both rounded *)
      destruct (of_Z_big k ltac:(lia)) as [Hpk Ek].
      set (pk := Zdigits2 k - 53) in *. set (Mk := rounded_mantissa k pk) in *.
      assert (HMk : 2 ^ 52 <= Mk <= 2 ^ 53).
      { apply rounded_mantissa_bounds; [lia|].
        destruct (Zdigits2_bounds k ltac:(lia)) as [Hlo Hhi].
        replace (52 + pk) with (Zdigits2 k - 1) by (unfold pk; lia).
        replace (53 + pk) with (Zdigits2 k) by (unfold pk; lia). lia. }
      assert (Hp : pk <= pn) by (pose proof (Zdigits2_mono k n); lia).
      assert (Hmono : pk = pn -> Mk <= Mn).
      { intros E. unfold Mk, Mn. rewrite E. apply rounded_mantissa_mono; lia. }
      destruct (Z.eqb_spec Mk (2 ^ 53)) as [E1|E1];
        destruct (Z.eqb_spec Mn (2 ^ 53)) as [E2|E2].
      * exists 4503599627370496%positive, 4503599627370496%positive, (pk + 1), (pn + 1).
        repeat (split; [assumption || lia|]). lia.
      * exists 4503599627370496%positive, (Z.to_pos Mn), (pk + 1), pn.
        rewrite Z2Pos.id by lia.
        repeat (split; [assumption || lia|]).
        change (Z.pos 4503599627370496) with (2 ^ 52). lia.
      * exists (Z.to_pos Mk), 4503599627370496%positive, pk, (pn + 1).
        rewrite Z2Pos.id by lia.
        repeat (split; [assumption || lia|]). lia.
      * exists (Z.to_pos Mk), (Z.to_pos Mn), pk, pn.
        rewrite !Z2Pos.id by lia.
        repeat (split; [assumption || lia|]). lia.
Qed.

(** *** The fraction and the percentage *)

(** The quotient of two positive floats with full mantissas, the first
    not above the second, is at most 1. *)
Lemma SFdiv_normal_le_one (mk mn : positive) (ek en : Z) :
  2 ^ 52 <= Zpos mk < 2 ^ 53 -> 2 ^ 52 <= Zpos mn < 2 ^ 53 ->
  -52 <= ek -> en <= 11 ->
  ek < en \/ (ek = en /\ Zpos mk <= Zpos mn) ->
  SF_between_0_and 4503599627370496 (-52)
    (SF64div (S754_finite false mk ek) (S754_finite false mn en)).
Proof.
  intros Bk Bn Hek Hen Hle.
  assert (Hdk : Zpos (digits2_pos mk) = 53)
    by (apply (Zdigits2_unique (Zpos mk)); lia).
  assert (Hdn : Zpos (digits2_pos mn) = 53)
    by (apply (Zdigits2_unique (Zpos mn)); lia).
  unfold SF64div, SFdiv, SFdiv_core_binary. cbn [Zdigits2 xorb].
  rewrite Hdk, Hdn, fexp64_eq.
  replace (Z.min (Z.max (53 + ek - (53 + en) - 53) (-1074)) (ek - en))
    with (ek - en - 53) by lia.
  replace (ek - en - (ek - en - 53)) with 53 by lia.
  rewrite Z.shiftl_mul_pow2 by lia.
  pose proof (Z.div_eucl_eq (Zpos mk * 2 ^ 53) (Zpos mn) ltac:(lia)) as Hdiv.
  pose proof (Z.mod_pos_bound (Zpos mk * 2 ^ 53) (Zpos mn) ltac:(lia)) as Hmod.
  unfold Z.modulo in Hmod.
  destruct (Z.div_eucl (Zpos mk * 2 ^ 53) (Zpos mn)) as [q r].
  assert (Ht : 0 <= en - ek) by lia.
  assert (Hpow : 2 ^ (53 + (en - ek)) = 2 ^ 53 * 2 ^ (en - ek))
    by (apply Z.pow_add_r; lia).
  assert (H1 : 1 <= 2 ^ (en - ek)).
  { assert (0 < 2 ^ (en - ek)) by (apply Z.pow_pos_nonneg; lia). lia. }
  assert (Hbound : Zpos mk * 2 ^ 53 <= Zpos mn * 2 ^ (53 + (en - ek))).
  { rewrite Hpow. destruct Hle as [Hlt|[-> Hm]].
    - assert (2 <= 2 ^ (en - ek)).
      { change 2 with (2 ^ 1) at 1. apply Z.pow_le_mono_r; lia. }
      change (2 ^ 53) with (2 * 2 ^ 52) in Bk. nia.
    - rewrite Z.sub_diag. change (2 ^ 0) with 1. nia. }
  assert (Hq0 : 0 <= q) by nia.
  assert (Hbnd : Z.pos 4503599627370496 * 2 ^ (-52 - (ek - en - 53))
                 = 2 ^ (53 + (en - ek))).
  { change (Z.pos 4503599627370496) with (2 ^ 52).
    rewrite <- Z.pow_add_r by lia. f_equal. lia. }
  apply binary_round_aux_below.
  - reflexivity.
  - lia.
  - split; [lia|]. rewrite Hbnd. split; [exact Hq0|]. nia.
  - intros Hl. apply new_location_inexact in Hl. rewrite Hbnd. nia.
Qed.

Lemma ratio_of_Z_le_one (c n : Z) :
  0 <= c <= n -> 0 < n < 2 ^ 63 ->
  SF_between_0_and 4503599627370496 (-52)
    (Prim2SF (F64.of_Z c / F64.of_Z n)%float).
Proof.
  intros Hc Hn. rewrite FloatAxioms.div_spec.
  destruct (Z.eq_dec c 0) as [->|Hc0].
  - destruct (of_Z_monotone n n) as (m & _ & e & _ & En & _); [lia|lia|].
    rewrite En. reflexivity.
  - destruct (of_Z_monotone c n) as (mk & mn & ek & en & Ek & En & Bk & Bn & Hek & Hen & Hle);
      [lia|lia|].
    rewrite Ek, En. now apply SFdiv_normal_le_one.
Qed.

Lemma valid_mantissa_lt (x : float) (s : bool) (m : positive) (e : Z) :
  Prim2SF x = S754_finite s m e -> Zpos m < 2 ^ 53.
Proof.
  intros Hx. pose proof (Prim2SF_valid x) as Hv. rewrite Hx in Hv.
  unfold SpecFloat.valid_binary, bounded, canonical_mantissa in Hv.
  apply andb_prop in Hv as [Hc _]. apply Z.eqb_eq in Hc.
  rewrite fexp64_eq in Hc.
  destruct (digits2_bounds m) as [Hlo _].
  destruct (Z.lt_ge_cases (Zpos m) (2 ^ 53)) as [|Hge]; [assumption|].
  assert (Zpos (digits2_pos m) <= 53) by lia.
  assert (2 ^ (Zpos (digits2_pos m) - 1) <= 2 ^ 52)
    by (apply Z.pow_le_mono_r; lia).
  destruct (digits2_bounds m) as [_ Hhi].
  assert (2 ^ Zpos (digits2_pos m) <= 2 ^ 53) by (apply Z.pow_le_mono_r; lia).
  lia.
Qed.

(** [100 * q] for a float [0 <= q <= 1] is at most 100. *)
Lemma mul_100_le (q : float) :
  SF_between_0_and 4503599627370496 (-52) (Prim2SF q) ->
  SF_between_0_and 7036874417766400 (-46) (Prim2SF (F64.of_Z 100 * q)%float).
Proof.
  intros Hq. rewrite FloatAxioms.mul_spec.
  change (Prim2SF (F64.of_Z 100)) with (S754_finite false 7036874417766400 (-46)).
  destruct (Prim2SF q) as [s|s| |s m e] eqn:Eq; simpl in Hq; try contradiction.
  - destruct s; [contradiction|]. exact I.
  - destruct s; [contradiction|].
    pose proof (valid_mantissa_lt q _ _ _ Eq) as Hm.
    unfold SF64mul, SFmul. cbn [xorb].
    apply binary_round_aux_below.
    + reflexivity.
    + lia.
    + split; [lia|]. rewrite Pos2Z.inj_mul.
      replace (-46 - (-46 + e)) with (- e) by lia.
      assert (Zpos m <= 2 ^ (- e)).
      { destruct Hq as [Hlt|[-> Hle]]; [|exact Hle].
        assert (2 ^ 53 <= 2 ^ (- e)) by (apply Z.pow_le_mono_r; lia). lia. }
      nia.
    + intros Hl. now contradiction Hl.
Qed.

Lemma between_0_and_leb (p b : float) (mB : positive) (eB : Z) :
  Prim2SF b = S754_finite false mB eB ->
  SF_between_0_and mB eB (Prim2SF p) ->
  PrimFloat.leb 0 p = true /\ PrimFloat.leb p b = true.
Proof.
  intros Hb Hp. rewrite !FloatAxioms.leb_spec, Hb.
  change (Prim2SF 0%float) with (S754_zero false).
  destruct (Prim2SF p) as [s|s| |s m e]; simpl in Hp; try contradiction.
  - destruct s; [contradiction|]. split; reflexivity.
  - destruct s; [contradiction|]. split; [reflexivity|].
    unfold SFleb, SFcompare.
    destruct Hp as [Hlt|[-> Hle]].
    + apply Z.compare_lt_iff in Hlt. now rewrite Hlt.
    + rewrite Z.compare_refl.
      destruct (Pos.compare_cont Eq m mB) eqn:Hc; try reflexivity.
      change (Pos.compare m mB = Gt) in Hc.
      apply Pos.compare_gt_iff in Hc. lia.
Qed.

(** *** The two decimals *)

Lemma string_of_uint_digits (d : Decimal.uint) :
  all_digits (NilEmpty.string_of_uint d) = true.
Proof. induction d; simpl; auto. Qed.

Lemma str_nonneg_digits (n : Z) :
  0 <= n -> all_digits (PyStr.str n) = true /\ PyStr.str n <> EmptyString.
Proof.
  intros Hn. unfold PyStr.str.
  destruct n as [|p|p]; [split; [reflexivity|discriminate]| |lia].
  simpl. destruct (Pos.to_uint p) eqn:E; simpl;
    (split; [|discriminate]); try reflexivity;
    apply (string_of_uint_digits u).
Qed.

Lemma two_digits_spec (s : string) :
  two_digits s = true -> all_digits s = true /\ String.length s = 2%nat.
Proof.
  destruct s as [|a [|b [|c s]]]; simpl; try discriminate.
  intros H. rewrite andb_true_r. auto.
Qed.

Lemma round_half_even_nonneg (num den : Z) :
  0 <= num -> 0 < den -> 0 <= F64.round_half_even num den.
Proof.
  intros Hn Hd. unfold F64.round_half_even.
  assert (0 <= num / den) by (apply Z.div_pos; lia).
  destruct (2 * (num mod den) ?= den); [destruct (Z.even _)| |]; lia.
Qed.

Lemma hundredths_nonneg (m : positive) (e : Z) : 0 <= F64.hundredths m e.
Proof.
  unfold F64.hundredths. destruct e as [|p|p].
  - simpl. lia.
  - assert (0 < 2 ^ Z.pos p) by (apply Z.pow_pos_nonneg; lia). nia.
  - apply round_half_even_nonneg; [lia|]. apply Z.pow_pos_nonneg; lia.
Qed.

Lemma decimal2_shape (n : Z) :
  0 <= n ->
  exists whole frac : string,
    F64.decimal2 n = (whole ++ "." ++ frac)%string
    /\ all_digits whole = true /\ whole <> EmptyString
    /\ all_digits frac = true /\ String.length frac = 2%nat.
Proof.
  intros Hn. unfold F64.decimal2.
  exists (PyStr.str (n / 100)), (PyStr.zfill 2 (PyStr.str (n mod 100))).
  split; [reflexivity|].
  destruct (str_nonneg_digits (n / 100)) as [Hw Hne]; [apply Z.div_pos; lia|].
  destruct (two_digits_spec _ (zfill_2_two_digits (n mod 100)
              (Z.mod_pos_bound n 100 ltac:(lia)))) as [Hf Hl].
  auto.
Qed.

Lemma fmt2_shape (p : float) (mB : positive) (eB : Z) :
  SF_between_0_and mB eB (Prim2SF p) ->
  exists whole frac : string,
    F64.fmt2 p = (whole ++ "." ++ frac)%string
    /\ all_digits whole = true /\ whole <> EmptyString
    /\ all_digits frac = true /\ String.length frac = 2%nat.
Proof.
  unfold F64.fmt2. destruct (Prim2SF p) as [s|s| |s m e]; simpl; try contradiction.
  - destruct s; [contradiction|]. intros _.
    exists "0"%string, "00"%string. repeat split; discriminate.
  - destruct s; [contradiction|]. intros _.
    apply decimal2_shape, hundredths_nonneg.
Qed.

(** *** The reported accuracy *)


Lemma correct_le_length (y_true y_pred : list float) :
  (correct y_true y_pred <= length y_true)%nat.
Proof.
  unfold correct. etransitivity; [apply length_filter|].
  rewrite length_zip. lia.
Qed.



(** * Further properties *)

(** ** Tools *)

Lemma map_const_seq {B} (b : B) (s n : nat) :
  map (fun _ => b) (seq s n) = replicate n b.
Proof.
  revert s. induction n as [|n IH]; intros s; simpl; [|rewrite IH];
    reflexivity.
Qed.

(** ** Names of the image files *)

Lemma uint_of_zeros (k : nat) (s : string) (d : Decimal.uint) :
  NilEmpty.uint_of_string s = Some d ->
  exists d', NilEmpty.uint_of_string (PyStr.zeros k ++ s) = Some d'
             /\ Z.of_uint d' = Z.of_uint d.
Proof.
  intros Hs. induction k as [|k IH]; simpl.
  - eauto.
  - destruct IH as (d' & -> & Hd'). simpl. eexists. split; [reflexivity|].
    exact Hd'.
Qed.

Lemma NilZero_uint_nonempty (s : string) :
  s <> EmptyString -> NilZero.uint_of_string s = NilEmpty.uint_of_string s.
Proof. destruct s; [congruence | reflexivity]. Qed.

Lemma zeros_app_nonempty (k : nat) (s : string) :
  s <> EmptyString -> (PyStr.zeros k ++ s)%string <> EmptyString.
Proof. destruct k; simpl; [auto | discriminate]. Qed.

Lemma string_of_uint_nonempty (d : Decimal.uint) :
  d <> Decimal.Nil -> NilEmpty.string_of_uint d <> EmptyString.
Proof. destruct d; simpl; congruence. Qed.

Lemma string_of_uint_head (d : Decimal.uint) :
  match NilEmpty.string_of_uint d with
  | String c _ => is_digit c = true
  | EmptyString => True
  end.
Proof. destruct d; simpl; auto. Qed.

Lemma digit_not_minus (c : ascii) :
  is_digit c = true -> Ascii.eqb c "-" = false.
Proof.
  intros H. destruct (Ascii.eqb_spec c "-") as [->|];
    [discriminate H | reflexivity].
Qed.

Lemma int_of_zeros_digits (k : nat) (u : Decimal.uint) :
  u <> Decimal.Nil ->
  exists d',
    NilZero.uint_of_string (PyStr.zeros k ++ NilEmpty.string_of_uint u)
    = Some d'
    /\ Z.of_uint d' = Z.of_uint u.
Proof.
  intros Hu.
  rewrite NilZero_uint_nonempty
    by (apply zeros_app_nonempty, string_of_uint_nonempty, Hu).
  apply uint_of_zeros, NilEmpty.usu.
Qed.

Lemma zeros_app_head (k : nat) (s : string) :
  match s with String c _ => is_digit c = true | EmptyString => False end ->
  match (PyStr.zeros k ++ s)%string with
  | String c _ => Ascii.eqb c "-" = false
  | EmptyString => False
  end.
Proof.
  destruct k; simpl.
  - destruct s; [auto|]. apply digit_not_minus.
  - reflexivity.
Qed.

(** Zeros in front of a numeral do not change what it reads as. *)
Lemma int_of_unsigned (k : nat) (u : Decimal.uint) :
  u <> Decimal.Nil ->
  int_of_str (PyStr.zeros k ++ NilEmpty.string_of_uint u)
  = Some (Z.of_uint u).
Proof.
  intros Hu. unfold int_of_str, NilZero.int_of_string.
  pose proof (zeros_app_head k (NilEmpty.string_of_uint u)) as Hh.
  pose proof (string_of_uint_head u) as Hd.
  pose proof (string_of_uint_nonempty u Hu) as Hne.
  destruct (int_of_zeros_digits k u Hu) as (d' & Hd' & Hv).
  destruct (PyStr.zeros k ++ NilEmpty.string_of_uint u)%string as [|c r] eqn:E.
  - exfalso. apply Hh.
    destruct (NilEmpty.string_of_uint u); [congruence | exact Hd].
  - rewrite Hh by (destruct (NilEmpty.string_of_uint u);
                   [congruence | exact Hd]).
    rewrite Hd'. simpl. now rewrite <- Hv.
Qed.

Lemma int_of_signed (k : nat) (u : Decimal.uint) :
  u <> Decimal.Nil ->
  int_of_str (String "-" (PyStr.zeros k ++ NilEmpty.string_of_uint u))
  = Some (- Z.of_uint u).
Proof.
  intros Hu. unfold int_of_str, NilZero.int_of_string.
  destruct (int_of_zeros_digits k u Hu) as (d' & Hd' & Hv).
  change (Ascii.eqb "-" "-") with true. cbv iota.
  rewrite Hd'. simpl. now rewrite <- Hv.
Qed.

Lemma string_of_uint_NilZero (u : Decimal.uint) :
  u <> Decimal.Nil -> NilZero.string_of_uint u = NilEmpty.string_of_uint u.
Proof. destruct u; [congruence | reflexivity..]. Qed.

Lemma zeros_0 (s : string) : (PyStr.zeros 0 ++ s)%string = s.
Proof. reflexivity. Qed.

(** The padded field reads back as the id, for every integer and every
    width. *)
Lemma int_of_zfill_str (w : nat) (n : Z) :
  int_of_str (PyStr.zfill w (PyStr.str n)) = Some n.
Proof.
  unfold PyStr.str. destruct n as [|p|p]; cbn [Z.to_int].
  - change (NilZero.string_of_int (Decimal.Pos Decimal.zero))
      with (NilEmpty.string_of_uint (Decimal.D0 Decimal.Nil)).
    unfold PyStr.zfill.
    change (NilEmpty.string_of_uint (Decimal.D0 Decimal.Nil)) with "0"%string.
    destruct (w <=? String.length "0")%nat.
    + reflexivity.
    + change (PyStr.is_sign "0") with false. cbv iota.
      change "0"%string with (NilEmpty.string_of_uint (Decimal.D0 Decimal.Nil)).
      rewrite int_of_unsigned by discriminate. reflexivity.
  - pose proof (DecimalPos.Unsigned.to_uint_nonnil p) as Hnn.
    cbn [NilZero.string_of_int]. rewrite string_of_uint_NilZero by exact Hnn.
    assert (Hv : Z.of_uint (Pos.to_uint p) = Z.pos p).
    { change (Z.of_int (Z.to_int (Z.pos p)) = Z.pos p). apply DecimalZ.of_to. }
    unfold PyStr.zfill.
    pose proof (string_of_uint_head (Pos.to_uint p)) as Hd.
    pose proof (string_of_uint_nonempty _ Hnn) as Hne.
    destruct (w <=? _)%nat.
    + rewrite <- (zeros_0 (NilEmpty.string_of_uint _)).
      rewrite int_of_unsigned by exact Hnn. now rewrite Hv.
    + destruct (NilEmpty.string_of_uint (Pos.to_uint p)) as [|c r] eqn:E;
        [congruence|].
      assert (Hs : PyStr.is_sign c = false).
      { unfold PyStr.is_sign. rewrite (digit_not_minus c Hd).
        destruct (Ascii.eqb_spec c "+") as [->|];
          [discriminate Hd | reflexivity]. }
      rewrite Hs, <- E. rewrite int_of_unsigned by exact Hnn. now rewrite Hv.
  - pose proof (DecimalPos.Unsigned.to_uint_nonnil p) as Hnn.
    cbn [NilZero.string_of_int]. rewrite string_of_uint_NilZero by exact Hnn.
    assert (Hv : Z.of_uint (Pos.to_uint p) = Z.pos p).
    { change (Z.of_int (Z.to_int (Z.pos p)) = Z.pos p). apply DecimalZ.of_to. }
    unfold PyStr.zfill.
    destruct (w <=? _)%nat.
    + rewrite <- (zeros_0 (NilEmpty.string_of_uint _)).
      rewrite int_of_signed by exact Hnn. now rewrite Hv.
    + change (PyStr.is_sign "-") with true. cbv iota.
      rewrite int_of_signed by exact Hnn. now rewrite Hv.
Qed.

(** Reading both sides of an equation between two id fields. *)
Ltac field_to_id E :=
  apply (f_equal int_of_str) in E; rewrite !int_of_zfill_str in E;
  apply (inj Some) in E.

(** X1. The padded id field, [str(n).zfill(w)], determines the id:
    two integers with one field are equal, whatever the widths, also
    for negative ids and ids wider than the field. *)
Theorem zfill_str_injective (w w' : nat) (n n' : Z) :
  PyStr.zfill w (PyStr.str n) = PyStr.zfill w' (PyStr.str n') -> n = n'.
Proof.
  intros E. apply (f_equal int_of_str) in E.
  rewrite !int_of_zfill_str in E.
  now apply (inj Some) in E.
Qed.

Lemma zfill_str_injective_witness :
  PyStr.zfill 3 (PyStr.str 25) = "025"%string /\ 25 = 25.
Proof.
  split; [reflexivity | exact (zfill_str_injective 3 3 25 25 eq_refl)].
Defined.

Lemma string_app_inv_head (s a b : string) :
  (s ++ a = s ++ b)%string -> a = b.
Proof. induction s as [|c s IH]; simpl; [auto | intros [= E]; auto]. Qed.

Lemma string_app_inj_length (a a' b b' : string) :
  String.length a = String.length a' ->
  (a ++ b = a' ++ b')%string -> a = a' /\ b = b'.
Proof.
  revert a'. induction a as [|c a IH]; intros [|c' a'] Hl E;
    try discriminate Hl; simpl in *.
  - auto.
  - injection E as -> E. injection Hl as Hl.
    destruct (IH _ Hl E) as [-> ->]. auto.
Qed.

(** Two digit strings followed by the same separator, which is no digit,
    end at the same place. *)
Lemma digits_then_separator (c : ascii) (s1 s2 t1 t2 : string) :
  is_digit c = false ->
  all_digits s1 = true -> all_digits s2 = true ->
  (s1 ++ String c t1 = s2 ++ String c t2)%string -> s1 = s2 /\ t1 = t2.
Proof.
  intros Hc. revert s2.
  induction s1 as [|a s1 IH]; intros [|a' s2] H1 H2 E; simpl in *.
  - injection E as ->. auto.
  - injection E as <- _. apply andb_prop in H2 as [H2 _]. congruence.
  - injection E as -> _. apply andb_prop in H1 as [H1 _]. congruence.
  - injection E as -> E.
    apply andb_prop in H1 as [_ H1]. apply andb_prop in H2 as [_ H2].
    destruct (IH _ H1 H2 E) as [-> ->]. auto.
Qed.

Lemma all_digits_app (s t : string) :
  all_digits s = true -> all_digits t = true -> all_digits (s ++ t) = true.
Proof.
  induction s as [|c s IH]; simpl; [auto|].
  intros H Ht. apply andb_prop in H as [-> H]. simpl. auto.
Qed.

Lemma all_digits_zeros (k : nat) : all_digits (PyStr.zeros k) = true.
Proof. induction k; simpl; auto. Qed.

Lemma zfill_nonneg_digits (w : nat) (n : Z) :
  0 <= n -> all_digits (PyStr.zfill w (PyStr.str n)) = true.
Proof.
  intros Hn. rewrite zfill_nonneg by exact Hn.
  apply all_digits_app; [apply all_digits_zeros | now apply str_nonneg_digits].
Qed.

Section EnumeratorFacts.

Variable path : string.

(** Two equal names have equal prefixes and equal id fields. *)
Lemma file_name_fields (pre pre' : string) (im_id im_id' v_id v_id' : Z) :
  String.length pre = String.length pre' ->
  0 <= im_id -> 0 <= im_id' -> 0 <= v_id -> 0 <= v_id' ->
  file_name path pre im_id v_id = file_name path pre' im_id' v_id' ->
  pre = pre'
  /\ PyStr.zfill 3 (PyStr.str im_id) = PyStr.zfill 3 (PyStr.str im_id')
  /\ PyStr.zfill 2 (PyStr.str v_id) = PyStr.zfill 2 (PyStr.str v_id').
Proof.
  intros Hl Hi Hi' Hv Hv' E. unfold file_name in E.
  apply string_app_inv_head in E.
  apply string_app_inj_length in E as [-> E]; [|exact Hl].
  apply (digits_then_separator "-") in E as [Eim E];
    [|reflexivity|now apply zfill_nonneg_digits..].
  apply (digits_then_separator ".") in E as [Ev _];
    [|reflexivity|now apply zfill_nonneg_digits..].
  auto.
Qed.

(** X2. One file name stands for one picture: two names built from
    prefixes of one length and ids that are not negative agree only
    if the prefixes, the subject ids and the view ids agree. *)
Theorem file_name_injective (pre pre' : string)
    (im_id im_id' v_id v_id' : Z) :
  String.length pre = String.length pre' ->
  0 <= im_id -> 0 <= im_id' -> 0 <= v_id -> 0 <= v_id' ->
  file_name path pre im_id v_id = file_name path pre' im_id' v_id' ->
  pre = pre' /\ im_id = im_id' /\ v_id = v_id'.
Proof.
  intros Hl Hi Hi' Hv Hv' E.
  apply file_name_fields in E as (Hpre & Eim & Ev); try assumption.
  field_to_id Eim. field_to_id Ev. auto.
Qed.

Lemma elem_of_build_list_fn (pre : string) (img_ids view_ids : list Z)
    (fn : string) :
  fn ∈ build_list_fn path pre img_ids view_ids
  <-> exists im_id v_id,
        im_id ∈ img_ids /\ v_id ∈ view_ids
        /\ fn = file_name path pre im_id v_id.
Proof.
  rewrite build_list_fn_flat_map, list_elem_of_In, in_flat_map. split.
  - intros (im & Him & Hfn). apply in_map_iff in Hfn as (v & <- & Hv).
    exists im, v. rewrite !list_elem_of_In. auto.
  - intros (im & v & Him & Hv & ->). exists im. rewrite <- list_elem_of_In.
    split; [exact Him|]. apply in_map_iff. exists v.
    rewrite <- list_elem_of_In. auto.
Qed.

Lemma build_list_fn_NoDup (pre : string) (img_ids view_ids : list Z) :
  Forall (Z.le 0) img_ids -> Forall (Z.le 0) view_ids ->
  NoDup img_ids -> NoDup view_ids ->
  NoDup (build_list_fn path pre img_ids view_ids).
Proof.
  intros Hi Hv Ni Nv. rewrite build_list_fn_flat_map.
  induction Ni as [|im ims Hnin Ni IH]; simpl; [constructor|].
  apply Forall_cons in Hi as [Him Hi].
  apply NoDup_app. split; [|split].
  - apply (NoDup_fmap_2_strong (file_name path pre im)); [|exact Nv].
    intros v v' Hin Hin' E.
    rewrite Forall_forall in Hv.
    apply file_name_fields in E as (_ & _ & Ev); auto.
    now field_to_id Ev.
  - intros fn Hfn Hfn'.
    apply list_elem_of_fmap in Hfn as (v & -> & Hin).
    rewrite <- build_list_fn_flat_map in Hfn'.
    apply elem_of_build_list_fn in Hfn' as (im' & v' & Him' & Hv' & E).
    rewrite Forall_forall in Hv, Hi.
    apply file_name_fields in E as (_ & Eim & _); auto.
    field_to_id Eim. subst im'. contradiction.
  - apply IH, Hi.
Qed.

(** X3. No picture is listed twice: for ids that are not negative and
    do not repeat, the list of the 'M-' names followed by the 'W-'
    names, as [build_data_matrix] walks it, has no duplicate. *)
Theorem list_fn_NoDup (img_ids view_ids : list Z) :
  Forall (Z.le 0) img_ids -> Forall (Z.le 0) view_ids ->
  NoDup img_ids -> NoDup view_ids ->
  NoDup (build_list_fn path "M-" img_ids view_ids
         ++ build_list_fn path "W-" img_ids view_ids).
Proof.
  intros Hi Hv Ni Nv. apply NoDup_app. split; [|split].
  - now apply build_list_fn_NoDup.
  - intros fn Hm Hw.
    apply elem_of_build_list_fn in Hm as (im & v & Him & Hvm & ->).
    apply elem_of_build_list_fn in Hw as (im' & v' & Him' & Hv' & E).
    rewrite Forall_forall in Hv, Hi.
    apply file_name_fields in E as (E & _); auto. discriminate E.
  - now apply build_list_fn_NoDup.
Qed.

(** X4. Id ranges with no common id give file lists with no common
    file: no picture of the test list is in the training list. *)
Theorem train_and_test_files_disjoint
    (train_ids test_ids view_ids : list Z) (fn : string) :
  Forall (Z.le 0) train_ids -> Forall (Z.le 0) test_ids ->
  Forall (Z.le 0) view_ids ->
  Forall (fun i => i ∉ test_ids) train_ids ->
  fn ∈ build_list_fn path "M-" train_ids view_ids
       ++ build_list_fn path "W-" train_ids view_ids ->
  fn ∉ build_list_fn path "M-" test_ids view_ids
       ++ build_list_fn path "W-" test_ids view_ids.
Proof.
  intros Htr Hte Hv Hdis Hm Hw.
  rewrite Forall_forall in Htr, Hte, Hv, Hdis.
  apply elem_of_app in Hm, Hw.
  destruct Hm as [Hm|Hm], Hw as [Hw|Hw];
    apply elem_of_build_list_fn in Hm as (im & v & Him & Hvm & ->);
    apply elem_of_build_list_fn in Hw as (im' & v' & Him' & Hvw & E);
    apply file_name_fields in E as (_ & Eim & _); auto;
    field_to_id Eim; subst im'; exact (Hdis _ Him Him').
Qed.

End EnumeratorFacts.

Lemma file_name_injective_witness :
  file_name "p/" "M-" 1 2 = "p/M-001-02.bmp"%string
  /\ ("M-"%string = "M-"%string /\ 1 = 1 /\ 2 = 2).
Proof.
  split; [reflexivity|].
  apply (file_name_injective "p/" "M-" "M-" 1 1 2 2);
    [reflexivity | lia | lia | lia | lia | reflexivity].
Defined.

Lemma Forall_nonneg_decide (l : list Z) :
  forallb (Z.leb 0) l = true -> Forall (Z.le 0) l.
Proof.
  intros Hb. apply Forall_forall. intros x Hx.
  rewrite forallb_forall in Hb. apply Z.leb_le, Hb, list_elem_of_In, Hx.
Defined.

Lemma list_fn_NoDup_witness :
  NoDup (build_list_fn Notebook.path "M-" Notebook.train_ids Notebook.view_ids
         ++ build_list_fn Notebook.path "W-" Notebook.train_ids
                          Notebook.view_ids).
Proof.
  apply list_fn_NoDup.
  - apply Forall_nonneg_decide. reflexivity.
  - apply Forall_nonneg_decide. reflexivity.
  - apply (bool_decide_unpack _). vm_compute. exact I.
  - apply (bool_decide_unpack _). vm_compute. exact I.
Defined.

Lemma train_and_test_files_disjoint_witness :
  "../../data/AR/M-001-01.bmp"%string
  ∉ build_list_fn Notebook.path "M-" Notebook.test_ids Notebook.view_ids
    ++ build_list_fn Notebook.path "W-" Notebook.test_ids Notebook.view_ids.
Proof.
  apply (train_and_test_files_disjoint Notebook.path Notebook.train_ids).
  - apply Forall_nonneg_decide. reflexivity.
  - apply Forall_nonneg_decide. reflexivity.
  - apply Forall_nonneg_decide. reflexivity.
  - apply (bool_decide_unpack _). vm_compute. exact I.
  - apply list_elem_of_In. vm_compute. left. reflexivity.
Defined.

(** ** Loader: failure modes *)

Section LoaderFacts.

Context {A : Type} `{Scalar A}.

(** A slice beyond the last channel is refused, as soon as the array has
    a pixel. *)
Lemma channel_out_of_range (rgb : image) (c k : nat) :
  wf rgb -> channels c rgb -> (c <= k)%nat ->
  (0 < nrows rgb * ncols rgb)%nat ->
  channel rgb k = Raise IndexError.
Proof.
  intros Hwf Hch Hk Hpos. unfold channel.
  destruct rgb as [w [|r rs]]; unfold nrows in Hpos; simpl in *; [lia|].
  apply Forall_cons in Hwf as [Hr _]. apply Forall_cons in Hch as [Hc _].
  simpl in Hr. destruct r as [|px r]; [simpl in Hr; lia|].
  apply Forall_cons in Hc as [Hpx _].
  cbn [rmapM]. rewrite (lookup_ge_None_2 px k) by lia. reflexivity.
Qed.

Lemma rgb2gray_too_few_channels (rgb : image) (c : nat) :
  wf rgb -> channels c rgb -> (c < 3)%nat ->
  (0 < nrows rgb * ncols rgb)%nat ->
  rgb2gray (A:=A) rgb = Raise IndexError.
Proof.
  intros Hwf Hch Hc Hpos. unfold rgb2gray.
  destruct c as [|[|[|c]]]; [| | |lia].
  - rewrite (channel_out_of_range rgb 0 0) by (auto; lia). reflexivity.
  - rewrite (channel_Ok rgb 1 0) by (auto; lia).
    rewrite (channel_out_of_range rgb 1 1) by (auto; lia). reflexivity.
  - rewrite (channel_Ok rgb 2 0), (channel_Ok rgb 2 1) by (auto; lia).
    cbn [rbind]. rewrite !scale_map_matrix, madd_map_matrix.
    rewrite (channel_out_of_range rgb 2 2) by (auto; lia). reflexivity.
Qed.

Variable D : nat.
Variable imread : string -> result image.

(** X5. What [vectorize_img] does with a file that decodes to a
    rectangular array of at least one pixel, every pixel of [c]
    channels: [IndexError] for fewer than three channels; otherwise
    [ValueError] unless the picture has exactly [D] pixels; otherwise
    the one row of the grey levels in row-major order. *)
Theorem vectorize_img_outcome (fn : string) (rgb : image) (c : nat) :
  imread fn = Ok rgb ->
  wf rgb -> channels c rgb -> (0 < nrows rgb * ncols rgb)%nat ->
  vectorize_img (A:=A) D imread fn
  = if (c <? 3)%nat then Raise IndexError
    else if (nrows rgb * ncols rgb =? D)%nat
         then Ok (Matrix D [map pixel_gray (concat (rows rgb))])
         else Raise ValueError.
Proof.
  intros Hrd Hwf Hch Hpos. unfold vectorize_img. rewrite Hrd. cbn [rbind].
  destruct (Nat.ltb_spec c 3) as [Hc|Hc].
  - now rewrite (rgb2gray_too_few_channels rgb c).
  - rewrite (rgb2gray_Ok rgb c) by assumption. cbn [rbind].
    unfold reshape_row, map_matrix, nrows. cbn [rows ncols].
    rewrite length_map. fold (nrows rgb).
    destruct (nrows rgb * ncols rgb =? D)%nat; [|reflexivity].
    rewrite <- concat_map. reflexivity.
Qed.

(** X6. A fourth channel (the transparency of a 32-bit bitmap) has no
    part in the grey picture: [rgb2gray] returns the same on the array
    and on its first three channels. *)
Theorem rgb2gray_ignores_alpha (rgb : image) (c : nat) :
  channels c rgb -> (3 <= c)%nat ->
  rgb2gray (A:=A) rgb = rgb2gray (map_matrix (take 3) rgb).
Proof.
  intros Hch Hc.
  assert (Hch' : channels 3 (map_matrix (take 3) rgb)).
  { unfold channels, map_matrix in *. cbn [rows].
    apply Forall_map. eapply Forall_impl; [exact Hch|].
    intros r Hr. apply Forall_map. eapply Forall_impl; [exact Hr|].
    intros px Hpx. rewrite length_take, Hpx. apply Nat.min_l, Hc. }
  rewrite (rgb2gray_Ok rgb c), (rgb2gray_Ok _ 3) by (auto; lia).
  f_equal. unfold map_matrix. cbn [rows ncols]. f_equal.
  rewrite map_map. apply map_ext. intros r. rewrite map_map.
  apply map_ext. intros px.
  unfold pixel_gray, channel_value.
  now rewrite !lookup_take_lt by lia.
Qed.

End LoaderFacts.

Lemma vectorize_img_outcome_witness :
  vectorize_img (A:=float) 2 Small.imread "p/M-001-01.bmp"
  = Ok (Matrix 2 [map pixel_gray [[10; 20; 30]; [40; 50; 60]]])
  /\ vectorize_img (A:=float) 3 Small.imread "p/M-001-01.bmp"
     = Raise ValueError.
Proof.
  split.
  - apply (vectorize_img_outcome 2 Small.imread "p/M-001-01.bmp"
             (Matrix 2 [[ [10; 20; 30]; [40; 50; 60] ]]) 3);
      [reflexivity | repeat constructor | repeat constructor | simpl; lia].
  - apply (vectorize_img_outcome 3 Small.imread "p/M-001-01.bmp"
             (Matrix 2 [[ [10; 20; 30]; [40; 50; 60] ]]) 3);
      [reflexivity | repeat constructor | repeat constructor | simpl; lia].
Defined.

Lemma rgb2gray_ignores_alpha_witness :
  rgb2gray (A:=float) (Matrix 1 [[ [10; 20; 30; 255] ]])
  = rgb2gray (Matrix 1 [[ [10; 20; 30] ]]).
Proof.
  apply (rgb2gray_ignores_alpha (Matrix 1 [[ [10; 20; 30; 255] ]]) 4);
    [repeat constructor | lia].
Defined.

(** ** Grey levels *)

Lemma sums_in_range_spec (tr tg tb : list float) (r g b : float) :
  sums_in_range tr tg tb = true -> In r tr -> In g tg -> In b tb ->
  PrimFloat.leb 0 (r + g + b) = true /\ PrimFloat.leb (r + g + b) 255 = true.
Proof.
  unfold sums_in_range. intros Hc Hr Hg Hb.
  rewrite forallb_forall in Hc. specialize (Hc r Hr).
  rewrite forallb_forall in Hc. specialize (Hc g Hg).
  rewrite forallb_forall in Hc. specialize (Hc b Hb).
  now apply andb_prop in Hc.
Qed.

(** The 256 x 256 x 256 sums, each one evaluated. *)
Lemma gray_levels_checked :
  sums_in_range (channel_products 0.299) (channel_products 0.587)
                (channel_products 0.114) = true.
Proof. vm_compute. reflexivity. Qed.

Lemma channel_products_In (v : Z) (w : float) :
  uint8 v -> In (F64.of_Z v * w)%float (channel_products w).
Proof.
  intros Hv. unfold channel_products. apply in_map_iff.
  exists (Z.to_nat v). split.
  - now rewrite Z2Nat.id by apply Hv.
  - apply in_seq. unfold uint8 in Hv. lia.
Qed.

Lemma weighted_sum_in_range (R G B : Z) :
  uint8 R -> uint8 G -> uint8 B ->
  PrimFloat.leb 0 (weighted_sum R G B) = true
  /\ PrimFloat.leb (weighted_sum R G B) 255 = true.
Proof.
  intros HR HG HB.
  exact (sums_in_range_spec _ _ _ _ _ _ gray_levels_checked
           (channel_products_In R 0.299 HR) (channel_products_In G 0.587 HG)
           (channel_products_In B 0.114 HB)).
Qed.

(** X7. The grey picture of an 8-bit colour picture stays in the 8-bit
    range: every entry that [rgb2gray] returns, computed in float64 with
    the roundings of the three products and the two sums, is at least 0
    and at most 255 (and so is no nan). *)
Theorem rgb2gray_uint8_range (rgb : image) (c : nat) (gray : matrix float)
    (i j : nat) (x : float) :
  channels c rgb -> (3 <= c)%nat ->
  Forall (Forall (Forall uint8)) (rows rgb) ->
  rgb2gray rgb = Ok gray ->
  entry gray i j = Some x ->
  PrimFloat.leb 0 x = true /\ PrimFloat.leb x 255 = true.
Proof.
  intros Hch Hc Hu Hg Hx.
  rewrite (rgb2gray_Ok rgb c Hch Hc) in Hg.
  apply Ok_inj in Hg. subst gray.
  rewrite entry_map_matrix in Hx.
  destruct (entry rgb i j) as [px|] eqn:Hpx; [|discriminate].
  cbn in Hx. apply (inj Some) in Hx. subst x. unfold entry in Hpx.
  destruct (rows rgb !! i) as [r|] eqn:Hr; [|discriminate]. cbn in Hpx.
  rewrite Forall_forall in Hu.
  specialize (Hu r (list_elem_of_lookup_2 _ _ _ Hr)).
  rewrite Forall_forall in Hu.
  specialize (Hu px (list_elem_of_lookup_2 _ _ _ Hpx)).
  unfold channels in Hch. rewrite Forall_forall in Hch.
  specialize (Hch r (list_elem_of_lookup_2 _ _ _ Hr)).
  rewrite Forall_forall in Hch.
  specialize (Hch px (list_elem_of_lookup_2 _ _ _ Hpx)).
  assert (Hk : forall k, (k < 3)%nat -> uint8 (channel_value k px)).
  { intros k Hk. unfold channel_value.
    destruct (lookup_lt_is_Some_2 px k ltac:(lia)) as [v Hv].
    rewrite Hv. cbn. rewrite Forall_forall in Hu.
    apply Hu, (list_elem_of_lookup_2 _ _ _ Hv). }
  apply weighted_sum_in_range; apply Hk; lia.
Qed.

Lemma rgb2gray_uint8_range_witness :
  rgb2gray (Matrix 2 [[ [255; 255; 255]; [0; 0; 0] ]])
  = Ok (Matrix 2 [[255%float; 0%float]])
  /\ PrimFloat.leb 0 255 = true /\ PrimFloat.leb 255 255 = true.
Proof.
  assert (Hg : rgb2gray (Matrix 2 [[ [255; 255; 255]; [0; 0; 0] ]])
               = Ok (Matrix 2 [[255%float; 0%float]]))
    by (vm_compute; reflexivity).
  split; [exact Hg|].
  apply (rgb2gray_uint8_range (Matrix 2 [[ [255; 255; 255]; [0; 0; 0] ]]) 3
           (Matrix 2 [[255%float; 0%float]]) 0 0 255%float);
    [repeat constructor | lia | | exact Hg | reflexivity].
  repeat constructor; unfold uint8; lia.
Defined.

(** ** Building the sample matrix: which files, which failure *)

Section BuildFacts.

Context {A : Type} `{Scalar A}.

Variable path : string.
Variable D : nat.

Lemma vectorize_img_ext (imread imread' : string -> result image)
    (fn : string) :
  imread fn = imread' fn ->
  vectorize_img (A:=A) D imread fn = vectorize_img D imread' fn.
Proof. intros E. unfold vectorize_img. now rewrite E. Qed.

Lemma fill_rows_ext (imread imread' : string -> result image)
    (list_fn : list string) (range : list nat) (X : matrix A) :
  (forall fn, fn ∈ list_fn -> imread fn = imread' fn) ->
  fill_rows D imread list_fn range X = fill_rows D imread' list_fn range X.
Proof.
  intros Hag. revert X.
  induction range as [|i range IH]; intros X; cbn [fill_rows].
  - reflexivity.
  - destruct (list_fn !! i) as [fn|] eqn:Hfn; [|reflexivity]. cbn [rbind].
    assert (Hin : fn ∈ list_fn) by (eapply list_elem_of_lookup_2, Hfn).
    rewrite (vectorize_img_ext imread imread' fn (Hag fn Hin)).
    destruct (vectorize_img D imread' fn) as [v|e]; [|reflexivity].
    cbn [rbind].
    destruct (set_row X i v) as [X'|e]; [|reflexivity]. cbn [rbind].
    apply IH.
Qed.

Lemma fill_rows_first_failure (imread : string -> result image)
    (list_fn : list string) (range1 : list nat) (i : nat) (range2 : list nat)
    (X : matrix A) (fn : string) (e : exn) :
  ncols X = D ->
  Forall (fun i' => (i' < nrows X)%nat
                    /\ exists fn' v, list_fn !! i' = Some fn'
                                     /\ vectorize_img (A:=A) D imread fn' = Ok v)
         range1 ->
  list_fn !! i = Some fn ->
  vectorize_img (A:=A) D imread fn = Raise e ->
  fill_rows D imread list_fn (range1 ++ i :: range2) X = Raise e.
Proof.
  intros HD Hok Hi Hfail. revert X HD Hok.
  induction range1 as [|i' range1 IH]; intros X HD Hok;
    cbn [fill_rows app].
  - rewrite Hi. cbn [rbind]. now rewrite Hfail.
  - apply Forall_cons in Hok as [(Hlt & fn' & v & Hfn' & Hv) Hok].
    rewrite Hfn'. cbn [rbind]. rewrite Hv. cbn [rbind].
    destruct (vectorize_img_shape _ _ _ _ Hv) as [r ->].
    rewrite set_row_Ok by assumption. cbn [rbind].
    apply IH; [reflexivity|].
    eapply Forall_impl; [exact Hok|].
    intros j (Hj & Hrest). split; [|exact Hrest].
    unfold nrows in *. cbn [rows]. now rewrite length_insert.
Qed.

Variable imread : string -> result image.
Variable P : matrix A.

(** X8. [build_data_matrix] returns exactly when the projection has [D]
    rows and every file of the list, 'M-' names then 'W-' names,
    vectorizes. *)
Theorem build_data_matrix_returns_iff (img_ids view_ids : list Z) :
  (exists X y, build_data_matrix path D imread P img_ids view_ids = Ok (X, y))
  <-> nrows P = D
      /\ Forall (fun fn => exists v, vectorize_img (A:=A) D imread fn = Ok v)
                (build_list_fn path "M-" img_ids view_ids
                 ++ build_list_fn path "W-" img_ids view_ids).
Proof.
  split.
  - intros (X & y & Hb). split.
    + now destruct (build_data_matrix_shape _ _ _ _ _ _ _ _ Hb) as (_ & _ & ?).
    + destruct (build_data_matrix_Ok _ _ _ _ _ _ _ _ Hb)
        as (X_full & _ & _ & _ & Hrows & _).
      induction Hrows; constructor; eauto.
  - intros [HP Hall]. now apply build_data_matrix_returns.
Qed.

(** X9. The loop stops at the first file that does not vectorize:
    [build_data_matrix] raises the exception of that file, whatever
    the files after it and the projection are. *)
Theorem build_data_matrix_first_failure (img_ids view_ids : list Z)
    (l1 : list string) (fn : string) (l2 : list string) (e : exn) :
  build_list_fn path "M-" img_ids view_ids
  ++ build_list_fn path "W-" img_ids view_ids = l1 ++ fn :: l2 ->
  Forall (fun fn' => exists v, vectorize_img (A:=A) D imread fn' = Ok v) l1 ->
  vectorize_img (A:=A) D imread fn = Raise e ->
  build_data_matrix path D imread P img_ids view_ids = Raise e.
Proof.
  intros Hl Hok Hfail. unfold build_data_matrix. cbv zeta.
  assert (Hlen : (length img_ids * length view_ids * 2)%nat
                 = (length l1 + S (length l2))%nat).
  { apply (f_equal length) in Hl.
    rewrite !length_app, !build_list_fn_length in Hl. simpl in Hl. lia. }
  rewrite Hl, length_app. cbn [length].
  rewrite seq_app. cbn [seq Nat.add].
  rewrite (fill_rows_first_failure imread _ _ _ _ _ fn e); auto.
  - apply Forall_forall. intros i Hi.
    apply list_elem_of_In, in_seq in Hi.
    destruct (np_zeros_shape (A:=A) (length img_ids * length view_ids * 2) D)
      as [Hr _].
    split; [rewrite Hr; lia|].
    destruct (lookup_lt_is_Some_2 l1 i ltac:(lia)) as [fn' Hfn'].
    rewrite Forall_forall in Hok.
    destruct (Hok fn' (list_elem_of_lookup_2 _ _ _ Hfn')) as [v Hv].
    exists fn', v. split; [|exact Hv].
    now rewrite lookup_app_l by lia.
  - rewrite lookup_app_r by lia. now rewrite Nat.sub_diag.
Qed.

(** Only the listed files are read: two file systems that agree on them
    give the same result. *)
Lemma build_data_matrix_ext (imread' : string -> result image)
    (img_ids view_ids : list Z) :
  (forall fn, fn ∈ build_list_fn path "M-" img_ids view_ids
                   ++ build_list_fn path "W-" img_ids view_ids ->
              imread fn = imread' fn) ->
  build_data_matrix path D imread P img_ids view_ids
  = build_data_matrix path D imread' P img_ids view_ids.
Proof.
  intros Hag. unfold build_data_matrix. cbv zeta.
  now rewrite (fill_rows_ext imread imread').
Qed.

(** Nothing to read: the empty sample matrix and no label. *)
Lemma build_data_matrix_no_image (img_ids view_ids : list Z) :
  (length img_ids * length view_ids = 0)%nat -> nrows P = D ->
  build_data_matrix path D imread P img_ids view_ids
  = Ok (Matrix (ncols P) [], []).
Proof.
  intros H0 HP. unfold build_data_matrix. cbv zeta.
  rewrite length_app, !build_list_fn_length, H0. cbn.
  unfold np_dot. cbn. rewrite HP, Nat.eqb_refl. reflexivity.
Qed.

Lemma build_data_matrix_rows (img_ids view_ids : list Z) (X : matrix A)
    (y : list A) :
  build_data_matrix path D imread P img_ids view_ids = Ok (X, y) ->
  nrows X = (2 * (length img_ids * length view_ids))%nat
  /\ length y = (2 * (length img_ids * length view_ids))%nat.
Proof.
  intros Hb.
  destruct (build_data_matrix_Ok _ _ _ _ _ _ _ _ Hb)
    as (X_full & _ & Hn & Hl & _ & Hdot & Hy).
  cbv zeta in *. split.
  - apply np_dot_Ok in Hdot as [_ ->]. unfold nrows in *. cbn [rows].
    rewrite length_map. lia.
  - rewrite Hy, length_app, !length_replicate. lia.
Qed.

End BuildFacts.

Lemma build_data_matrix_first_failure_witness :
  build_data_matrix (A:=float) Small.path Small.D Small.imread
                    Small.ProjectionMatrix [1; 3] [1]
  = Raise IOError.
Proof.
  apply (build_data_matrix_first_failure Small.path Small.D Small.imread
           Small.ProjectionMatrix [1; 3] [1]
           ["p/M-001-01.bmp"%string] "p/M-003-01.bmp"%string
           ["p/W-001-01.bmp"%string; "p/W-003-01.bmp"%string]).
  - reflexivity.
  - constructor; [|constructor]. eexists. vm_compute. reflexivity.
  - reflexivity.
Defined.

(** ** The cell: shapes, and what the training side depends on *)

Section CellFacts.

Context {A : Type} `{Scalar A}.

Variable rng_state : Type.
Variable np_random_seed : Z -> rng_state.
Variable np_random_randn : nat -> nat -> rng_state -> matrix A * rng_state.
Variable path : string.
Variable train_ids test_ids view_ids : list Z.
Variable D d : nat.

(** X10. What the cell hands to the classifier is consistent: the two
    feature matrices are rectangular with the projection's column
    count, each has one row per listed picture and as many rows as
    labels, and the two statistics have one entry per column. *)
Theorem cell_data_shapes (imread : string -> result image)
    (rng0 : rng_state) (g : dataset) :
  cell_data rng_state np_random_seed np_random_randn imread path
            train_ids test_ids view_ids D d rng0 = Ok g ->
  let c := ncols (g_ProjectionMatrix g) in
  let n_train := (2 * (length train_ids * length view_ids))%nat in
  let n_test := (2 * (length test_ids * length view_ids))%nat in
  nrows (g_ProjectionMatrix g) = D
  /\ wf (g_X_train g) /\ ncols (g_X_train g) = c
  /\ nrows (g_X_train g) = n_train /\ length (g_y_train g) = n_train
  /\ wf (g_X_test g) /\ ncols (g_X_test g) = c
  /\ nrows (g_X_test g) = n_test /\ length (g_y_test g) = n_test
  /\ length (g_x_mean g) = c /\ length (g_x_var g) = c.
Proof.
  intros Hg.
  destruct (cell_data_Ok _ _ _ _ _ _ _ _ _ _ _ _ Hg)
    as (Xtr & Xte & HP & Htr & Hte & Hm & Hv & Hftr & Hfte).
  rewrite <- HP in Htr, Hte.
  destruct (build_data_matrix_shape _ _ _ _ _ _ _ _ Htr) as (Wtr & Ctr & HD).
  destruct (build_data_matrix_shape _ _ _ _ _ _ _ _ Hte) as (Wte & Cte & _).
  destruct (build_data_matrix_rows _ _ _ _ _ _ _ _ Htr) as [Ntr Ltr].
  destruct (build_data_matrix_rows _ _ _ _ _ _ _ _ Hte) as [Nte Lte].
  assert (Lm : length (g_x_mean g) = ncols Xtr)
    by (rewrite Hm; apply mean_axis0_length).
  assert (Lv : length (g_x_var g) = ncols Xtr)
    by (rewrite Hv; apply var_axis0_length).
  assert (Lm' : ncols Xte = length (g_x_mean g)) by congruence.
  assert (Lv' : ncols Xte = length (g_x_var g)) by congruence.
  destruct (feature_extraction_shape _ _ _ _ Wtr (eq_sym Lm) (eq_sym Lv) Hftr)
    as (W1 & C1 & N1).
  destruct (feature_extraction_shape _ _ _ _ Wte Lm' Lv' Hfte)
    as (W2 & C2 & N2).
  cbv zeta. repeat split; congruence.
Qed.

(** X11. The training side of the cell is a function of the training
    files alone: on two file systems that agree on the training list,
    two completed runs have the same projection, training features,
    training labels and feature statistics, whatever the test pictures
    are. *)
Theorem training_side_ignores_other_files
    (imread imread' : string -> result image) (rng0 : rng_state)
    (g g' : dataset) :
  (forall fn, fn ∈ build_list_fn path "M-" train_ids view_ids
                   ++ build_list_fn path "W-" train_ids view_ids ->
              imread fn = imread' fn) ->
  cell_data rng_state np_random_seed np_random_randn imread path
            train_ids test_ids view_ids D d rng0 = Ok g ->
  cell_data rng_state np_random_seed np_random_randn imread' path
            train_ids test_ids view_ids D d rng0 = Ok g' ->
  g_ProjectionMatrix g = g_ProjectionMatrix g'
  /\ g_X_train g = g_X_train g' /\ g_y_train g = g_y_train g'
  /\ g_x_mean g = g_x_mean g' /\ g_x_var g = g_x_var g'.
Proof.
  intros Hag Hg Hg'.
  destruct (cell_data_Ok _ _ _ _ _ _ _ _ _ _ _ _ Hg)
    as (Xtr & Xte & HP & Htr & _ & Hm & Hv & Hftr & _).
  destruct (cell_data_Ok _ _ _ _ _ _ _ _ _ _ _ _ Hg')
    as (Xtr' & Xte' & HP' & Htr' & _ & Hm' & Hv' & Hftr' & _).
  rewrite (build_data_matrix_ext _ _ imread _ imread' _ _ Hag) in Htr.
  rewrite Htr in Htr'. apply Ok_inj, pair_equal_spec in Htr' as [-> Hy].
  rewrite <- Hm' in Hm. rewrite <- Hv' in Hv.
  rewrite Hm, Hv, Hftr' in Hftr. apply Ok_inj in Hftr.
  repeat split; congruence.
Qed.

End CellFacts.

Lemma cell_data_shapes_witness :
  exists g : dataset,
    Small.data = Ok g
    /\ nrows (g_X_train g) = 2%nat /\ length (g_y_train g) = 2%nat
    /\ nrows (g_X_test g) = 2%nat /\ length (g_y_test g) = 2%nat
    /\ length (g_x_mean g) = ncols (g_X_test g).
Proof.
  eexists.
  assert (Hrun : Small.data = Ok _) by (vm_compute; reflexivity).
  destruct (cell_data_shapes Small.rng_state Small.np_random_seed
              Small.np_random_randn Small.path Small.train_ids Small.test_ids
              Small.view_ids Small.D Small.d Small.imread 0 _ Hrun)
    as (_ & _ & _ & Ntr & Ltr & _ & Cte & Nte & Lte & Lm & _).
  split; [exact Hrun|]. split; [exact Ntr|]. split; [exact Ltr|].
  split; [exact Nte|]. split; [exact Lte|]. now rewrite Lm, Cte.
Defined.

Lemma training_side_ignores_other_files_witness :
  exists g g' : dataset,
    Small.data = Ok g
    /\ cell_data Small.rng_state Small.np_random_seed Small.np_random_randn
                 Stored.imread Small.path Small.train_ids Small.test_ids
                 Small.view_ids Small.D Small.d 0 = Ok g'
    /\ g_X_train g = g_X_train g' /\ g_x_mean g = g_x_mean g'
    /\ g_x_var g = g_x_var g'.
Proof.
  eexists. eexists.
  assert (Hrun : Small.data = Ok _) by (vm_compute; reflexivity).
  assert (Hrun' : cell_data Small.rng_state Small.np_random_seed
                    Small.np_random_randn Stored.imread Small.path
                    Small.train_ids Small.test_ids Small.view_ids
                    Small.D Small.d 0 = Ok _) by (vm_compute; reflexivity).
  assert (Hag : forall fn,
             fn ∈ build_list_fn Small.path "M-" Small.train_ids Small.view_ids
                  ++ build_list_fn Small.path "W-" Small.train_ids
                                   Small.view_ids ->
             Small.imread fn = Stored.imread fn).
  { intros fn Hfn. apply list_elem_of_In in Hfn. vm_compute in Hfn.
    destruct Hfn as [<-|[<-|[]]]; reflexivity. }
  destruct (training_side_ignores_other_files Small.rng_state
              Small.np_random_seed Small.np_random_randn Small.path
              Small.train_ids Small.test_ids Small.view_ids Small.D Small.d
              Small.imread Stored.imread 0 _ _ Hag Hrun Hrun')
    as (_ & HX & _ & Hm & Hv).
  split; [exact Hrun|]. split; [exact Hrun'|]. auto.
Defined.

(** ** An empty training range *)

Lemma sub_nan_div (x v : float) : ((x - nan) / v)%float = nan.
Proof.
  apply Prim2SF_inj.
  rewrite FloatAxioms.div_spec, FloatAxioms.sub_spec.
  change (Prim2SF nan) with S754_nan.
  destruct (Prim2SF x); reflexivity.
Qed.

Lemma mean_axis0_no_rows (c : nat) :
  mean_axis0 (Matrix c ([] : list (list float))) = replicate c nan.
Proof.
  unfold mean_axis0. cbn [ncols].
  rewrite (map_ext _ (fun _ => nan)) by reflexivity. apply map_const_seq.
Qed.

Lemma var_axis0_no_rows (c : nat) :
  var_axis0 (Matrix c ([] : list (list float))) = replicate c nan.
Proof.
  unfold var_axis0. cbn [ncols].
  rewrite (map_ext _ (fun _ => nan)) by reflexivity. apply map_const_seq.
Qed.

Section EmptyTraining.

Variable rng_state : Type.
Variable np_random_seed : Z -> rng_state.
Variable np_random_randn : nat -> nat -> rng_state -> matrix float * rng_state.
Variable imread : string -> result image.
Variable path : string.
Variable test_ids view_ids : list Z.
Variable D d : nat.

(** X12. With an empty [train_ids], the data part of the cell (from
    [np.random.seed(1)] to [X_test_full = None]) completes whenever the
    test matrix can be built, since nothing in it looks at the number
    of training rows; it leaves a training matrix without rows, no
    training label, statistics that are nan in every column (0/0 in
    float64) and a test matrix whose every entry is nan.  (The
    classifier comes after that and is not part of the statement.) *)
Theorem empty_training_range_gives_nan (rng0 : rng_state)
    (X_test_full : matrix float) (y_test : list float) :
  let P := fst (generate_projection rng_state np_random_seed
                                    np_random_randn D d rng0) in
  build_data_matrix path D imread P test_ids view_ids
  = Ok (X_test_full, y_test) ->
  exists g : dataset,
    cell_data rng_state np_random_seed np_random_randn imread path
              [] test_ids view_ids D d rng0 = Ok g
    /\ g_X_train g = Matrix (ncols P) [] /\ g_y_train g = []
    /\ g_x_mean g = replicate (ncols P) nan
    /\ g_x_var g = replicate (ncols P) nan
    /\ g_y_test g = y_test
    /\ nrows (g_X_test g) = nrows X_test_full
    /\ forall i j x, entry (g_X_test g) i j = Some x -> x = nan.
Proof.
  cbv zeta. intros Hte.
  set (P := fst (generate_projection rng_state np_random_seed
                                     np_random_randn D d rng0)) in *.
  destruct (build_data_matrix_shape _ _ _ _ _ _ _ _ Hte) as (Wte & Cte & HD).
  pose proof (build_data_matrix_no_image path D imread P [] view_ids
                eq_refl HD) as Htr.
  destruct (cell_data_total rng_state np_random_seed np_random_randn imread
              path [] test_ids view_ids D d rng0 _ _ _ _ Htr Hte)
    as (X_train & X_test & Hftr & Hfte & Hg).
  rewrite mean_axis0_no_rows, var_axis0_no_rows in Hftr, Hfte, Hg.
  fold P in Hg.
  rewrite feature_extraction_Ok in Hftr
    by (cbn [ncols]; now rewrite length_replicate).
  cbn [ncols rows map] in Hftr. apply Ok_inj in Hftr.
  assert (Lm : ncols X_test_full = length (replicate (ncols P) nan))
    by now rewrite length_replicate.
  destruct (feature_extraction_shape _ _ _ _ Wte Lm Lm Hfte)
    as (W2 & C2 & N2).
  eexists. split; [exact Hg|]. cbn [g_X_train g_y_train g_x_mean g_x_var
                                    g_y_test g_X_test].
  split; [now symmetry|]. split; [reflexivity|]. split; [reflexivity|].
  split; [reflexivity|]. split; [reflexivity|]. split; [exact N2|].
  intros i j x Hx.
  destruct (wf_entry_lt _ _ _ _ W2 Hx) as [Hi Hj].
  destruct (wf_entry_is_Some X_test_full i j Wte ltac:(lia) ltac:(lia))
    as [x0 Hx0].
  destruct (feature_extraction_entry _ _ _ _ _ _ _ Wte Lm Lm Hfte Hx0)
    as (mj & vj & Hmj & Hvj & Hy).
  apply lookup_replicate in Hmj as [-> _].
  rewrite Hx in Hy. apply (inj Some) in Hy. subst x.
  apply sub_nan_div.
Qed.

End EmptyTraining.

Lemma empty_training_range_witness :
  exists g : dataset,
    cell_data Small.rng_state Small.np_random_seed Small.np_random_randn
              Small.imread Small.path [] Small.test_ids Small.view_ids
              Small.D Small.d 0 = Ok g
    /\ g_x_mean g = [nan; nan] /\ g_x_var g = [nan; nan]
    /\ nrows (g_X_test g) = 2%nat
    /\ entry (g_X_test g) 0 0 = Some nan.
Proof.
  assert (Hte : build_data_matrix Small.path Small.D Small.imread
                  Small.ProjectionMatrix Small.test_ids Small.view_ids
                = Ok (_, _)) by (vm_compute; reflexivity).
  destruct (empty_training_range_gives_nan Small.rng_state
              Small.np_random_seed Small.np_random_randn Small.imread
              Small.path Small.test_ids Small.view_ids Small.D Small.d 0
              _ _ Hte)
    as (g & Hg & _ & _ & _ & _ & _ & _ & _).
  exists g. split; [exact Hg|].
  assert (Hrun : cell_data Small.rng_state Small.np_random_seed
                   Small.np_random_randn Small.imread Small.path []
                   Small.test_ids Small.view_ids Small.D Small.d 0 = Ok _)
    by (vm_compute; reflexivity).
  rewrite Hrun in Hg. apply Ok_inj in Hg. subst g.
  repeat split.
Defined.

(** ** Exact scores *)

(** *** Exact quotients *)

(** Two floats with one full mantissa: the quotient is the power of two
    between their exponents, with nothing to round. *)
Lemma SFdiv_same_mantissa (m : positive) (ek t : Z) :
  2 ^ 52 <= Zpos m < 2 ^ 53 -> 0 <= t <= 1 ->
  SF64div (S754_finite false m ek) (S754_finite false m (ek + t))
  = binary_round_aux prec emax false (2 ^ 53) (- t - 53) loc_Exact.
Proof.
  intros Bm Ht.
  assert (Hd : Zpos (digits2_pos m) = 53)
    by (apply (Zdigits2_unique (Zpos m)); lia).
  unfold SF64div, SFdiv, SFdiv_core_binary. cbn [Zdigits2 xorb].
  rewrite Hd, fexp64_eq.
  replace (Z.min (Z.max (53 + ek - (53 + (ek + t)) - 53) (-1074)) (ek - (ek + t)))
    with (- t - 53) by lia.
  replace (ek - (ek + t) - (- t - 53)) with 53 by lia.
  rewrite Z.shiftl_mul_pow2 by lia.
  pose proof (Z.div_mul (2 ^ 53) (Zpos m) ltac:(lia)) as Hq.
  pose proof (Z.mod_mul (2 ^ 53) (Zpos m) ltac:(lia)) as Hr.
  rewrite (Z.mul_comm (2 ^ 53)) in Hq, Hr.
  unfold Z.div, Z.modulo in Hq, Hr.
  destruct (Z.div_eucl (Zpos m * 2 ^ 53) (Zpos m)) as [q r].
  subst q r.
  assert (Hl : new_location (Zpos m) 0 = loc_Exact).
  { unfold new_location, new_location_even, new_location_odd.
    destruct (IntDef.Z.even (Zpos m)); reflexivity. }
  rewrite Hl. reflexivity.
Qed.

Lemma of_Z_full_mantissa (n : Z) :
  0 < n < 2 ^ 63 ->
  exists (m : positive) (e : Z),
    Prim2SF (F64.of_Z n) = S754_finite false m e
    /\ 2 ^ 52 <= Zpos m < 2 ^ 53.
Proof.
  intros Hn.
  destruct (of_Z_monotone n n) as (m & _ & e & _ & En & _ & Bm & _); [lia|lia|].
  eauto.
Qed.

(** [n / n] is 1. *)
Lemma of_Z_div_self (n : Z) :
  0 < n < 2 ^ 63 -> (F64.of_Z n / F64.of_Z n)%float = 1%float.
Proof.
  intros Hn. apply Prim2SF_inj. rewrite FloatAxioms.div_spec.
  destruct (of_Z_full_mantissa n Hn) as (m & e & -> & Bm).
  rewrite <- (Z.add_0_r e) at 2.
  rewrite SFdiv_same_mantissa by lia. reflexivity.
Qed.

(** [0 / n] is 0. *)
Lemma of_Z_zero_div (n : Z) :
  0 < n < 2 ^ 63 -> (F64.of_Z 0 / F64.of_Z n)%float = 0%float.
Proof.
  intros Hn. apply Prim2SF_inj. rewrite FloatAxioms.div_spec.
  destruct (of_Z_full_mantissa n Hn) as (m & e & -> & Bm).
  reflexivity.
Qed.

(** The float of [2 * k] is twice the float of [k]: the same mantissa,
    the next exponent. *)
Lemma of_Z_double (k : Z) :
  0 < k -> 2 * k < 2 ^ 63 ->
  exists (m : positive) (e : Z),
    Prim2SF (F64.of_Z k) = S754_finite false m e
    /\ Prim2SF (F64.of_Z (2 * k)) = S754_finite false m (e + 1)
    /\ 2 ^ 52 <= Zpos m < 2 ^ 53.
Proof.
  intros Hk H2k.
  destruct (Z.lt_ge_cases k (2 ^ 53)) as [Hsmall|Hbig].
  - destruct (of_Z_exact k ltac:(lia)) as (m & a & Ek & Hd & Ha & Hm).
    pose proof (digits_53_bounds m Hd) as Bm.
    destruct (Z.lt_ge_cases (2 * k) (2 ^ 53)) as [Hs2|Hb2].
    + destruct (of_Z_exact (2 * k) ltac:(lia)) as (m' & a' & Ek' & Hd' & Ha' & Hm').
      pose proof (digits_53_bounds m' Hd') as Bm'.
      assert (Haa : a = a' + 1).
      { destruct (Z.lt_trichotomy a (a' + 1)) as [Hlt|[Heq|Hgt]]; [|exact Heq|].
        - assert (2 ^ a <= 2 ^ a') by (apply Z.pow_le_mono_r; lia). nia.
        - assert (2 ^ (a' + 2) <= 2 ^ a) by (apply Z.pow_le_mono_r; lia).
          rewrite Z.pow_add_r in H by lia. change (2 ^ 2) with 4 in H. nia. }
      assert (Hmm : m' = m).
      { apply Pos2Z.inj. rewrite Hm, Hm', Haa, Z.pow_add_r by lia.
        change (2 ^ 1) with 2. lia. }
      exists m, (- a). rewrite Ek, Ek', Hmm.
      split; [reflexivity|]. split; [|exact Bm]. f_equal. lia.
    + assert (Ha0 : a = 0).
      { destruct (Z.eq_dec a 0) as [|Hne]; [assumption|].
        assert (2 ^ 1 <= 2 ^ a) by (apply Z.pow_le_mono_r; lia).
        change (2 ^ 1) with 2 in H. nia. }
      subst a. change (2 ^ 0) with 1 in Hm. rewrite Z.mul_1_r in Hm.
      destruct (of_Z_big (2 * k) ltac:(lia)) as [_ Eb].
      assert (Hdig : Zdigits2 (2 * k) = 54)
        by (apply Zdigits2_unique; [change (2 ^ (54 - 1)) with (2 ^ 53);
                                    change (2 ^ 54) with (2 * 2 ^ 53); lia | lia]).
      rewrite Hdig in Eb. change (54 - 53) with 1 in Eb.
      assert (Hrm : rounded_mantissa (2 * k) 1 = k).
      { unfold rounded_mantissa. change (2 ^ 1) with 2.
        rewrite (Z.mul_comm 2 k), Z.div_mul, Z.mod_mul by lia. reflexivity. }
      rewrite Hrm in Eb.
      assert (Hne : (k =? 2 ^ 53) = false) by (apply Z.eqb_neq; lia).
      rewrite Hne in Eb.
      exists m, 0. rewrite Ek, Eb. split; [reflexivity|]. split; [|exact Bm].
      f_equal. apply Pos2Z.inj. rewrite Z2Pos.id by lia. lia.
  - destruct (of_Z_big k ltac:(lia)) as [Hp Ek].
    destruct (of_Z_big (2 * k) ltac:(lia)) as [Hp' Ek'].
    destruct (Zdigits2_bounds k ltac:(lia)) as [Hlo Hhi].
    assert (Hdig : Zdigits2 (2 * k) = Zdigits2 k + 1).
    { apply Zdigits2_unique; [|lia].
      replace (Zdigits2 k + 1 - 1) with (Zdigits2 k - 1 + 1) by lia.
      rewrite !Z.pow_add_r by lia. change (2 ^ 1) with 2. lia. }
    rewrite Hdig in Ek', Hp'.
    set (p := Zdigits2 k - 53) in *.
    replace (Zdigits2 k + 1 - 53) with (p + 1) in Ek', Hp' by (unfold p; lia).
    assert (H2p : 0 < 2 ^ p) by (apply Z.pow_pos_nonneg; lia).
    assert (Hrm : rounded_mantissa (2 * k) (p + 1) = rounded_mantissa k p).
    { unfold rounded_mantissa. rewrite Z.pow_add_r by lia. change (2 ^ 1) with 2.
      rewrite (Z.mul_comm (2 ^ p) 2).
      rewrite Z.div_mul_cancel_l by lia.
      rewrite Z.mul_mod_distr_l by lia.
      destruct (Z.compare_spec (2 * (2 * (k mod 2 ^ p))) (2 * 2 ^ p));
        destruct (Z.compare_spec (2 * (k mod 2 ^ p)) (2 ^ p));
        try lia; reflexivity. }
    rewrite Hrm in Ek'.
    pose proof (rounded_mantissa_bounds k p ltac:(lia)) as Hb.
    assert (Hrange : 2 ^ (52 + p) <= k < 2 ^ (53 + p)).
    { replace (52 + p) with (Zdigits2 k - 1) by (unfold p; lia).
      replace (53 + p) with (Zdigits2 k) by (unfold p; lia). lia. }
    specialize (Hb Hrange).
    destruct (rounded_mantissa k p =? 2 ^ 53) eqn:Hc.
    + exists 4503599627370496%positive, (p + 1). rewrite Ek, Ek'.
      split; [reflexivity|]. split; [reflexivity|]. 
      change (Z.pos 4503599627370496) with (2 ^ 52). 
      change (2 ^ 53) with (2 * 2 ^ 52). lia.
    + apply Z.eqb_neq in Hc.
      exists (Z.to_pos (rounded_mantissa k p)), p. rewrite Ek, Ek'.
      split; [reflexivity|]. split; [reflexivity|].
      rewrite Z2Pos.id by lia. lia.
Qed.

(** [k / (2 k)] is one half. *)
Lemma of_Z_div_double (k : Z) :
  0 < k -> 2 * k < 2 ^ 63 ->
  (F64.of_Z k / F64.of_Z (2 * k))%float = 0.5%float.
Proof.
  intros Hk H2k. apply Prim2SF_inj. rewrite FloatAxioms.div_spec.
  destruct (of_Z_double k Hk H2k) as (m & e & -> & -> & Bm).
  rewrite SFdiv_same_mantissa by lia. reflexivity.
Qed.

(** *** Extreme scores *)

Lemma correct_cons (a b : float) (y_true y_pred : list float) :
  correct (a :: y_true) (b :: y_pred)
  = ((if PrimFloat.eqb a b then 1 else 0) + correct y_true y_pred)%nat.
Proof.
  unfold correct. cbn [zip zip_with]. rewrite filter_cons. cbn [fst snd s_eqb float_scalar].
  destruct (PrimFloat.eqb a b) eqn:E.
  - rewrite decide_True by reflexivity. reflexivity.
  - rewrite decide_False by discriminate. reflexivity.
Qed.

Lemma correct_all (y_true y_pred : list float) :
  Forall2 (fun a b => PrimFloat.eqb a b = true) y_true y_pred ->
  correct y_true y_pred = length y_true.
Proof.
  induction 1 as [|a b l l' Hab _ IH]; [reflexivity|].
  rewrite correct_cons, Hab, IH. reflexivity.
Qed.

Lemma correct_none (y_true y_pred : list float) :
  Forall2 (fun a b => PrimFloat.eqb a b = false) y_true y_pred ->
  correct y_true y_pred = 0%nat.
Proof.
  induction 1 as [|a b l l' Hab _ IH]; [reflexivity|].
  rewrite correct_cons, Hab, IH. reflexivity.
Qed.

Lemma correct_app (a b c e : list float) :
  length a = length c ->
  correct (a ++ b) (c ++ e) = (correct a c + correct b e)%nat.
Proof.
  revert c. induction a as [|x a IH]; intros [|z c] Hl; try discriminate Hl.
  - reflexivity.
  - cbn [app]. rewrite !correct_cons, IH by (simpl in Hl; lia). lia.
Qed.

Lemma correct_replicate (a b : float) (k : nat) :
  correct (replicate k a) (replicate k b)
  = if PrimFloat.eqb a b then k else 0%nat.
Proof.
  induction k as [|k IH]; cbn [replicate].
  - now destruct (PrimFloat.eqb a b).
  - rewrite correct_cons, IH. now destruct (PrimFloat.eqb a b).
Qed.

Lemma accuracy_line_value (y_test y_pred : list float) :
  length y_test = length y_pred ->
  accuracy_line y_test y_pred
  = Ok ("Accuracy: "
        ++ F64.fmt2 (F64.of_Z 100
                     * (F64.of_Z (Z.of_nat (correct y_test y_pred))
                        / F64.of_Z (Z.of_nat (length y_test))))%float
        ++ " %")%string.
Proof.
  intros Hl. unfold accuracy_line, accuracy_percent, accuracy_score.
  apply Nat.eqb_eq in Hl. rewrite Hl. reflexivity.
Qed.

(** X13. Class labels predicted right at every position are reported
    as exactly "Accuracy: 100.00 %", for every length from 1 up to
    2^63 - 1: the quotient n/n is 1 in float64 also where n itself is
    rounded. *)
Theorem accuracy_all_correct (y_test y_pred : list float) :
  forallb class_label y_test = true ->
  forallb class_label y_pred = true ->
  Forall2 (fun a b => PrimFloat.eqb a b = true) y_test y_pred ->
  (0 < length y_test)%nat -> Z.of_nat (length y_test) < 2 ^ 63 ->
  accuracy_line y_test y_pred = Ok "Accuracy: 100.00 %"%string.
Proof.
  intros _ _ Hall Hpos Hbig.
  rewrite accuracy_line_value by (eapply Forall2_length, Hall).
  rewrite correct_all by exact Hall.
  rewrite of_Z_div_self by lia. reflexivity.
Qed.

Lemma accuracy_all_correct_witness :
  accuracy_line [1%float; 0%float; 1%float] [1%float; 0%float; 1%float]
  = Ok "Accuracy: 100.00 %"%string.
Proof.
  apply accuracy_all_correct;
    [reflexivity | reflexivity | repeat constructor | simpl; lia
    | reflexivity].
Defined.

(** X14. Class labels predicted wrong at every position are reported
    as exactly "Accuracy: 0.00 %", for every length from 1 up to
    2^63 - 1. *)
Theorem accuracy_none_correct (y_test y_pred : list float) :
  forallb class_label y_test = true ->
  forallb class_label y_pred = true ->
  Forall2 (fun a b => PrimFloat.eqb a b = false) y_test y_pred ->
  (0 < length y_test)%nat -> Z.of_nat (length y_test) < 2 ^ 63 ->
  accuracy_line y_test y_pred = Ok "Accuracy: 0.00 %"%string.
Proof.
  intros _ _ Hall Hpos Hbig.
  rewrite accuracy_line_value by (eapply Forall2_length, Hall).
  rewrite correct_none by exact Hall.
  change (Z.of_nat 0) with 0.
  rewrite of_Z_zero_div by lia. reflexivity.
Qed.

Lemma accuracy_none_correct_witness :
  accuracy_line [1%float; 0%float] [0%float; 1%float]
  = Ok "Accuracy: 0.00 %"%string.
Proof.
  apply accuracy_none_correct;
    [reflexivity | reflexivity | repeat constructor | simpl; lia
    | reflexivity].
Defined.

(** X15. On the labels that [build_data_matrix] returns, a classifier
    that answers one class, 0 or 1, for every picture is reported at
    exactly "Accuracy: 50.00 %": the classes are balanced and k/(2k)
    is one half in float64. *)
Theorem one_class_prediction_scores_half (path : string) (D : nat)
    (imread : string -> result image) (P : matrix float)
    (img_ids view_ids : list Z) (X : matrix float) (y : list float) (c : float) :
  build_data_matrix path D imread P img_ids view_ids = Ok (X, y) ->
  (0 < length y)%nat -> Z.of_nat (length y) < 2 ^ 63 ->
  c = 0%float \/ c = 1%float ->
  accuracy_line y (replicate (length y) c) = Ok "Accuracy: 50.00 %"%string.
Proof.
  intros Hb Hpos Hbig Hc.
  destruct (build_data_matrix_Ok _ _ _ _ _ _ _ _ Hb)
    as (_ & _ & _ & _ & _ & _ & Hy).
  cbv zeta in Hy. set (k := (length img_ids * length view_ids)%nat) in *.
  cbn [s_zero s_one float_scalar] in Hy.
  assert (Hlen : length y = (k + k)%nat).
  { rewrite Hy, length_app, !length_replicate. reflexivity. }
  rewrite accuracy_line_value by now rewrite length_replicate.
  assert (Hcorrect : correct y (replicate (length y) c) = k).
  { rewrite Hlen, replicate_add, Hy, correct_app
      by now rewrite !length_replicate.
    rewrite !correct_replicate.
    destruct Hc as [-> | ->].
    - change (PrimFloat.eqb 0 0) with true.
      change (PrimFloat.eqb 1 0) with false. cbv iota. lia.
    - change (PrimFloat.eqb 0 1) with false.
      change (PrimFloat.eqb 1 1) with true. cbv iota. lia. }
  rewrite Hcorrect, Hlen.
  replace (Z.of_nat (k + k)) with (2 * Z.of_nat k) by lia.
  rewrite of_Z_div_double by lia. reflexivity.
Qed.

Lemma one_class_prediction_witness :
  exists (X : matrix float) (y : list float),
    build_data_matrix Small.path Small.D Small.imread Small.ProjectionMatrix
                      Small.test_ids Small.view_ids = Ok (X, y)
    /\ accuracy_line y (replicate (length y) 0%float)
       = Ok "Accuracy: 50.00 %"%string.
Proof.
  eexists. eexists.
  assert (Hb : build_data_matrix Small.path Small.D Small.imread
                 Small.ProjectionMatrix Small.test_ids Small.view_ids
               = Ok (_, _)) by (vm_compute; reflexivity).
  split; [exact Hb|].
  apply (one_class_prediction_scores_half _ _ _ _ _ _ _ _ 0%float Hb);
    [simpl; lia | reflexivity | left; reflexivity].
Defined.

(** ** Transposition *)

Section TransposeFacts.
Context {A : Type}.

Lemma transpose_wf (X : matrix A) : wf X -> wf (transpose X).
Proof.
  intros Hwf. unfold wf, transpose. cbn [rows ncols].
  apply Forall_map, Forall_forall. intros j Hj.
  apply list_elem_of_In, in_seq in Hj. cbn. apply column_length; [assumption|lia].
Qed.

Lemma entry_transpose (X : matrix A) (i j : nat) :
  wf X -> entry (transpose X) j i = entry X i j.
Proof.
  intros Hwf. unfold entry at 1, transpose. cbn [rows].
  rewrite list_lookup_fmap.
  destruct (Nat.lt_ge_cases j (ncols X)) as [Hj|Hj].
  - rewrite lookup_seq_lt by assumption. cbn. now apply column_lookup.
  - rewrite lookup_seq_ge by assumption. cbn.
    destruct (entry X i j) as [x|] eqn:Hx; [|reflexivity].
    apply wf_entry_lt in Hx; [lia | assumption].
Qed.

(** X16. [.T] of a rectangular array is rectangular, has the two
    dimensions and the two indices of every entry swapped, and taken
    twice gives the array back, also for an array with no row. *)
Theorem transpose_involutive (X : matrix A) :
  wf X ->
  wf (transpose X)
  /\ nrows (transpose X) = ncols X /\ ncols (transpose X) = nrows X
  /\ (forall i j, entry (transpose X) j i = entry X i j)
  /\ transpose (transpose X) = X.
Proof.
  intros Hwf.
  assert (Hn : nrows (transpose X) = ncols X).
  { unfold nrows, transpose. cbn [rows]. now rewrite length_map, length_seq. }
  split; [now apply transpose_wf|]. split; [exact Hn|].
  split; [reflexivity|]. split; [intros i j; now apply entry_transpose|].
  apply matrix_eq_entries.
  - now apply transpose_wf, transpose_wf.
  - exact Hwf.
  - exact Hn.
  - unfold nrows at 1, transpose at 1. cbn [rows].
    now rewrite length_map, length_seq.
  - intros i j. rewrite entry_transpose by now apply transpose_wf.
    now apply entry_transpose.
Qed.

End TransposeFacts.

Lemma transpose_involutive_witness :
  transpose (Matrix 3 [[1; 2; 3]; [4; 5; 6]]) = Matrix 2 [[1; 4]; [2; 5]; [3; 6]]
  /\ transpose (transpose (Matrix 3 [[1; 2; 3]; [4; 5; 6]]))
     = Matrix 3 [[1; 2; 3]; [4; 5; 6]].
Proof.
  split; [reflexivity|].
  apply (transpose_involutive (Matrix 3 [[1; 2; 3]; [4; 5; 6]])).
  repeat constructor.
Defined.

(** ** The cells on stored features *)






Lemma accuracy_line_Ok_length {A} `{Scalar A} (y_test y_pred : list A)
    (line : string) :
  accuracy_line y_test y_pred = Ok line -> length y_test = length y_pred.
Proof.
  unfold accuracy_line, accuracy_percent, accuracy_score.
  destruct (Nat.eqb_spec (length y_test) (length y_pred)); [auto|discriminate].
Qed.

Lemma fit_predict_report_Ok {A} `{Scalar A} (clf : estimator) (s : split)
    (y_pred : list A) (line : string) :
  fit_predict_report clf s = Ok (y_pred, line) ->
  exists model, fit clf (X_train s) (y_train s) = Ok model
                /\ predict clf model (X_test s) = Ok y_pred
                /\ accuracy_line (y_test s) y_pred = Ok line.
Proof.
  unfold fit_predict_report. intros Hr.
  apply rbind_Ok in Hr as (model & Hfit & Hr).
  apply rbind_Ok in Hr as (y_pred' & Hp & Hr).
  apply rbind_Ok in Hr as (line' & Hl & Hr).
  apply Ok_inj, pair_equal_spec in Hr as [-> ->]. eauto.
Qed.


Lemma accuracy_line_report (y_test y_pred : list float) (line : string) :
  accuracy_line y_test y_pred = Ok line ->
  report_on (length y_test) y_pred line.
Proof.
  intros Hl. pose proof (accuracy_line_Ok_length _ _ _ Hl) as Hlen.
  split; [auto|]. split.
  - intros H0. destruct y_test; [|discriminate H0].
    destruct y_pred; [|discriminate Hlen].
    apply Ok_inj in Hl. now rewrite <- Hl.
  - intros Hpos Hbig.
    pose proof (correct_le_length y_test y_pred) as Hc.
    assert (Hq : SF_between_0_and 4503599627370496 (-52)
                   (Prim2SF (F64.of_Z (Z.of_nat (correct y_test y_pred))
                             / F64.of_Z (Z.of_nat (length y_test)))%float)).
    { apply ratio_of_Z_le_one; [lia|]. split; [lia | exact Hbig]. }
    apply mul_100_le in Hq.
    destruct (between_0_and_leb _ 100%float _ _ eq_refl Hq) as [H0 H100].
    destruct (fmt2_shape _ _ _ Hq) as (whole & frac & Hf & Hd).
    rewrite accuracy_line_value in Hl by exact Hlen. apply Ok_inj in Hl.
    eexists. exists whole, frac.
    split; [exact H0|]. split; [exact H100|]. split; [exact Hf|].
    split; [now symmetry | exact Hd].
Qed.

(** X17. The report that the second, fifth and sixth cells share: when
    it completes, there is one prediction per test label; the line is
    "Accuracy: nan %" on an empty test set, and otherwise (below 2^63
    labels) a value in [[0, 100]] with exactly two decimals. *)
Theorem fit_predict_report_line (clf : estimator) (s : split)
    (y_pred : list float) (line : string) :
  fit_predict_report clf s = Ok (y_pred, line) ->
  report_on (length (y_test s)) y_pred line.
Proof.
  intros Hr. apply fit_predict_report_Ok in Hr as (model & _ & _ & Hl).
  now apply accuracy_line_report.
Qed.

Lemma fit_predict_report_line_witness :
  exists y_pred : list float,
    fit_predict_report (Stored.SVC [])
      (Split (Matrix 1 [[0%float]; [0%float]]) [0%float; 1%float]
             (Matrix 1 [[0%float]; [0%float]]) [0%float; 1%float])
    = Ok (y_pred, "Accuracy: 50.00 %"%string)
    /\ length y_pred = 2%nat.
Proof.
  eexists.
  assert (Hr : fit_predict_report (Stored.SVC [])
                 (Split (Matrix 1 [[0%float]; [0%float]]) [0%float; 1%float]
                        (Matrix 1 [[0%float]; [0%float]]) [0%float; 1%float])
               = Ok (_, "Accuracy: 50.00 %"%string))
    by (vm_compute; reflexivity).
  split; [exact Hr|].
  exact (proj1 (fit_predict_report_line _ _ _ _ Hr)).
Defined.

Section CellReports.

Variable rng_state : Type.
Variable np_random_seed : Z -> rng_state.
Variable np_random_randn : nat -> nat -> rng_state -> matrix float * rng_state.
Variable LogisticRegression : float -> estimator (A:=float).
Variable SVC : list (string * kwarg) -> estimator (A:=float).
Variable imread : string -> result image.
Variable array_str : list Z -> string.
Variable path : string.
Variable train_ids test_ids view_ids : list Z.
Variable D d : nat.

Lemma cell_data_test_labels (rng0 : rng_state) (g : dataset) :
  cell_data rng_state np_random_seed np_random_randn imread path
            train_ids test_ids view_ids D d rng0 = Ok g ->
  length (g_y_test g) = (2 * (length test_ids * length view_ids))%nat.
Proof.
  intros Hg.
  destruct (cell_data_Ok _ _ _ _ _ _ _ _ _ _ _ _ Hg)
    as (Xtr & Xte & _ & _ & Hte & _).
  now destruct (build_data_matrix_rows _ _ _ _ _ _ _ _ Hte).
Qed.

(** X18. The output of the first cell, when it completes, is that of
    two prints, in this order: what [print(train_ids)] writes (the
    array as numpy renders it, on as many lines as that takes) and
    then one line, the report on the 2 * |test_ids| * |view_ids| test
    pictures. *)
Theorem first_cell_output (rng0 : rng_state) (y_pred : list float)
    (out : list string) :
  cell rng_state np_random_seed np_random_randn LogisticRegression imread
       array_str path train_ids test_ids view_ids D d rng0
  = Ok (y_pred, out) ->
  exists line : string,
    out = [array_str train_ids; line]
    /\ report_on (2 * (length test_ids * length view_ids)) y_pred line.
Proof.
  unfold cell. intros Hc. apply rbind_Ok in Hc as (g & Hg & Hc).
  unfold cell_classify in Hc. cbv zeta in Hc.
  apply rbind_Ok in Hc as (model & _ & Hc).
  apply rbind_Ok in Hc as (yp & _ & Hc).
  apply rbind_Ok in Hc as (line & Hl & Hc).
  apply Ok_inj, pair_equal_spec in Hc as [-> <-].
  exists line. split; [reflexivity|].
  rewrite <- (cell_data_test_labels _ _ Hg). now apply accuracy_line_report.
Qed.

(** X19. The second and the sixth cell, run on the globals that the
    first cell leaves: each reports on the same
    2 * |test_ids| * |view_ids| test pictures. *)
Theorem later_cells_report_on_first_cell_data (rng0 : rng_state)
    (g : dataset) :
  cell_data rng_state np_random_seed np_random_randn imread path
            train_ids test_ids view_ids D d rng0 = Ok g ->
  let n_test := (2 * (length test_ids * length view_ids))%nat in
  (forall y_pred line,
      cell_svm SVC (split_of g) = Ok (y_pred, line) ->
      report_on n_test y_pred line)
  /\ (forall y_pred line,
        cell_logreg LogisticRegression (split_of g) = Ok (y_pred, line) ->
        report_on n_test y_pred line).
Proof.
  intros Hg. cbv zeta. rewrite <- (cell_data_test_labels _ _ Hg).
  split; intros y_pred line Hr;
    apply fit_predict_report_Ok in Hr as (model & _ & _ & Hl);
    now apply accuracy_line_report.
Qed.

End CellReports.

Lemma first_cell_output_witness :
  Small.run = Ok ([0%float; 0%float], ["[1]"; "Accuracy: 50.00 %"]%string)
  /\ exists line : string,
       ["[1]"; "Accuracy: 50.00 %"]%string = [Small.array_str Small.train_ids; line]
       /\ report_on 2 [0%float; 0%float] line.
Proof.
  assert (Hrun : Small.run
                 = Ok ([0%float; 0%float], ["[1]"; "Accuracy: 50.00 %"]%string))
    by (vm_compute; reflexivity).
  split; [exact Hrun|].
  exact (first_cell_output Small.rng_state Small.np_random_seed
           Small.np_random_randn Small.LogisticRegression Small.imread
           Small.array_str Small.path Small.train_ids Small.test_ids
           Small.view_ids Small.D Small.d 0 _ _ Hrun).
Defined.

Lemma later_cells_report_witness :
  exists g : dataset,
    Small.data = Ok g
    /\ cell_svm Stored.SVC (split_of g)
       = Ok ([1%float; 1%float], "Accuracy: 50.00 %"%string)
    /\ report_on 2 [1%float; 1%float] "Accuracy: 50.00 %".
Proof.
  eexists.
  assert (Hrun : Small.data = Ok _) by (vm_compute; reflexivity).
  split; [exact Hrun|].
  match type of Hrun with
  | _ = Ok ?g =>
      assert (Hsvm : cell_svm Stored.SVC (split_of g)
                     = Ok ([1%float; 1%float], "Accuracy: 50.00 %"%string))
        by (vm_compute; reflexivity)
  end.
  split; [exact Hsvm|].
  exact (proj1 (later_cells_report_on_first_cell_data Small.rng_state
                  Small.np_random_seed Small.np_random_randn
                  Small.LogisticRegression Stored.SVC Small.imread Small.path
                  Small.train_ids Small.test_ids Small.view_ids Small.D
                  Small.d 0 _ Hrun) _ _ Hsvm).
Defined.

Section CellMat.

Variable SVC : list (string * kwarg) -> estimator (A:=float).
Variable loadmat : string -> result (dict (matrix float)).


(** X21. What stops the fifth cell before any classifier is built, in
    the order of the cell: the first of the keys 'Y_train', 'Y_test'
    and 'label_train' that the file lacks gives [KeyError]; training
    labels that are not exactly 700 give [ValueError]; then a missing
    'label_test' gives [KeyError], and test labels that are not
    exactly 700 give [ValueError]. *)
Theorem cell_mat_rejects (A : dict (matrix float)) :
  loadmat "myARgender.mat" = Ok A ->
  (dict_lookup A "Y_train" = None ->
   cell_mat SVC loadmat = Raises (KeyError "Y_train"))
  /\ (is_Some (dict_lookup A "Y_train") ->
      dict_lookup A "Y_test" = None ->
      cell_mat SVC loadmat = Raises (KeyError "Y_test"))
  /\ (is_Some (dict_lookup A "Y_train") -> is_Some (dict_lookup A "Y_test") ->
      (dict_lookup A "label_train" = None ->
       cell_mat SVC loadmat = Raises (KeyError "label_train"))
      /\ forall label_train,
          dict_lookup A "label_train" = Some label_train ->
          ((nrows label_train * ncols label_train)%nat <> 700%nat ->
           cell_mat SVC loadmat = Raises (Library ValueError))
          /\ ((nrows label_train * ncols label_train)%nat = 700%nat ->
              (dict_lookup A "label_test" = None ->
               cell_mat SVC loadmat = Raises (KeyError "label_test"))
              /\ forall label_test,
                  dict_lookup A "label_test" = Some label_test ->
                  (nrows label_test * ncols label_test)%nat <> 700%nat ->
                  cell_mat SVC loadmat = Raises (Library ValueError))).
Proof.
  intros HA. unfold cell_mat. cbv zeta. rewrite HA. cbn [lift obind].
  unfold getitem. split; [|split].
  - now intros ->.
  - intros [Ytr ->] ->. reflexivity.
  - intros [Ytr ->] [Yte ->]. cbn [obind]. split; [now intros ->|].
    intros ltr ->. cbn [obind]. unfold reshape_vec. split.
    + intros Hne. apply Nat.eqb_neq in Hne. now rewrite Hne.
    + intros He. apply Nat.eqb_eq in He. rewrite He. cbn [lift obind].
      split; [now intros ->|].
      intros lte -> Hne. cbn [obind]. apply Nat.eqb_neq in Hne.
      now rewrite Hne.
Qed.

End CellMat.


Lemma cell_mat_rejects_witness :
  cell_mat Stored.SVC (fun _ => Ok [("Y_train"%string, Stored.features)])
  = Raises (KeyError "Y_test").
Proof.
  apply (proj1 (proj2 (cell_mat_rejects Stored.SVC
                         (fun _ => Ok [("Y_train"%string, Stored.features)])
                         [("Y_train"%string, Stored.features)] eq_refl)));
    [eexists; reflexivity | reflexivity].
Defined.
